(** * Crawl-progress tracking of the knowledge-base page

    A shallow embedding of the progress bookkeeping of [KnowledgeBasePage]
    (src/unnamed/part_005): the tracked list [progressItems] behind the
    de-duplicating setter, the two [localStorage] keys, the completion, error,
    retry, stop, dismiss and start handlers, the timer of the error handler and
    the startup reconciliation with its server verification.  A second part
    embeds the knowledge list of the same page: its filter and its groups,
    the selection, and the deletions.

    The page source still carries both sides of an unmerged conflict.  The
    handlers and the reconciliation modelled here are the incoming side (the
    verify-before-restore variant, lines 226-327 and 623-765), the only side
    whose functions are all defined in the file.

    Conventions.
    - The page is a record [Page]; every handler is a computation in the monad
      [M], which threads the page and lets a JavaScript exception cut the
      handler short while keeping the effects made before it.
    - React applies functional state updates in the order they were queued;
      the model applies each one when it is queued.  The only reads of the
      render-time value of [progressItems] (the closures of lines 665, 674 and
      733) are made explicit: the handler reads the list when it is entered.
    - An async handler takes the answers of the calls it awaits as
      parameters and runs to its end in one step; what it throws is kept in
      its completion, and a call that is not awaited ([detached]) keeps it
      from the caller.  Timers fire when [elapse] lets their delay pass.
    - A stored string is represented by what [JSON.parse] makes of it
      ([text]); [JSON.stringify] followed by [JSON.parse] is the identity on
      the values the page stores (arrays of ids and progress objects).
    - Timestamps are integer milliseconds ([Z]); the age of a snapshot in
      minutes is an exact rational. *)

From Stdlib Require Import ZArith Lia Ascii String.
From Stdlib Require QArith.
From stdpp Require Import gmap strings list pretty.

Open Scope Z_scope.

(** ** Data *)

(** The crawl request kept for a retry ([originalCrawlParams]). *)
Record CrawlRequest := { url : string }.

(** [CrawlProgressData] (declared in types/crawl, outside the page): the
    fields the page reads or writes.  [None] is JavaScript's [undefined];
    [startedAt] and [lastUpdated] only occur in persisted snapshots. *)
Record CrawlProgressData := {
  progressId : string;
  status : option string;
  progress : option Z;
  message : option string;
  error : option string;
  currentUrl : option string;
  uploadType : option string;
  fileName : option string;
  totalPages : option Z;
  processedPages : option Z;
  crawlType : option string;
  currentStep : option string;
  originalCrawlParams : option CrawlRequest;
  startedAt : option Z;
  lastUpdated : option Z;
  _needsVerification : bool
}.

Definition with_progressId (v : string) (d : CrawlProgressData) :=
  {| progressId := v; status := status d; progress := progress d;
     message := message d; error := error d; currentUrl := currentUrl d;
     uploadType := uploadType d; fileName := fileName d;
     totalPages := totalPages d; processedPages := processedPages d;
     crawlType := crawlType d; currentStep := currentStep d;
     originalCrawlParams := originalCrawlParams d; startedAt := startedAt d;
     lastUpdated := lastUpdated d;
     _needsVerification := _needsVerification d |}.

Definition with_status (v : option string) (d : CrawlProgressData) :=
  {| progressId := progressId d; status := v; progress := progress d;
     message := message d; error := error d; currentUrl := currentUrl d;
     uploadType := uploadType d; fileName := fileName d;
     totalPages := totalPages d; processedPages := processedPages d;
     crawlType := crawlType d; currentStep := currentStep d;
     originalCrawlParams := originalCrawlParams d; startedAt := startedAt d;
     lastUpdated := lastUpdated d;
     _needsVerification := _needsVerification d |}.

Definition with_progress (v : option Z) (d : CrawlProgressData) :=
  {| progressId := progressId d; status := status d; progress := v;
     message := message d; error := error d; currentUrl := currentUrl d;
     uploadType := uploadType d; fileName := fileName d;
     totalPages := totalPages d; processedPages := processedPages d;
     crawlType := crawlType d; currentStep := currentStep d;
     originalCrawlParams := originalCrawlParams d; startedAt := startedAt d;
     lastUpdated := lastUpdated d;
     _needsVerification := _needsVerification d |}.

Definition with_message (v : option string) (d : CrawlProgressData) :=
  {| progressId := progressId d; status := status d; progress := progress d;
     message := v; error := error d; currentUrl := currentUrl d;
     uploadType := uploadType d; fileName := fileName d;
     totalPages := totalPages d; processedPages := processedPages d;
     crawlType := crawlType d; currentStep := currentStep d;
     originalCrawlParams := originalCrawlParams d; startedAt := startedAt d;
     lastUpdated := lastUpdated d;
     _needsVerification := _needsVerification d |}.

Definition with_error (v : option string) (d : CrawlProgressData) :=
  {| progressId := progressId d; status := status d; progress := progress d;
     message := message d; error := v; currentUrl := currentUrl d;
     uploadType := uploadType d; fileName := fileName d;
     totalPages := totalPages d; processedPages := processedPages d;
     crawlType := crawlType d; currentStep := currentStep d;
     originalCrawlParams := originalCrawlParams d; startedAt := startedAt d;
     lastUpdated := lastUpdated d;
     _needsVerification := _needsVerification d |}.

Definition with_startedAt (v : option Z) (d : CrawlProgressData) :=
  {| progressId := progressId d; status := status d; progress := progress d;
     message := message d; error := error d; currentUrl := currentUrl d;
     uploadType := uploadType d; fileName := fileName d;
     totalPages := totalPages d; processedPages := processedPages d;
     crawlType := crawlType d; currentStep := currentStep d;
     originalCrawlParams := originalCrawlParams d; startedAt := v;
     lastUpdated := lastUpdated d;
     _needsVerification := _needsVerification d |}.

Definition with_lastUpdated (v : option Z) (d : CrawlProgressData) :=
  {| progressId := progressId d; status := status d; progress := progress d;
     message := message d; error := error d; currentUrl := currentUrl d;
     uploadType := uploadType d; fileName := fileName d;
     totalPages := totalPages d; processedPages := processedPages d;
     crawlType := crawlType d; currentStep := currentStep d;
     originalCrawlParams := originalCrawlParams d; startedAt := startedAt d;
     lastUpdated := v;
     _needsVerification := _needsVerification d |}.

Definition with_needsVerification (v : bool) (d : CrawlProgressData) :=
  {| progressId := progressId d; status := status d; progress := progress d;
     message := message d; error := error d; currentUrl := currentUrl d;
     uploadType := uploadType d; fileName := fileName d;
     totalPages := totalPages d; processedPages := processedPages d;
     crawlType := crawlType d; currentStep := currentStep d;
     originalCrawlParams := originalCrawlParams d; startedAt := startedAt d;
     lastUpdated := lastUpdated d;
     _needsVerification := v |}.

(** An object with no own property but [progressId]. *)
Definition bare (id : string) : CrawlProgressData :=
  {| progressId := id; status := None; progress := None; message := None;
     error := None; currentUrl := None; uploadType := None; fileName := None;
     totalPages := None; processedPages := None; crawlType := None;
     currentStep := None; originalCrawlParams := None; startedAt := None;
     lastUpdated := None; _needsVerification := false |}.

(** The JSON values found under the two keys of the page. *)
Inductive json :=
  | JNull
  | JArray (ids : list string)
  | JObject (d : CrawlProgressData).

(** A stored string: the empty string, a non-empty string on which
    [JSON.parse] throws, or the serialization of a value. *)
Inductive text :=
  | Blank
  | Malformed
  | Stringified (j : json).

Definition JSON_stringify (j : json) : text := Stringified j.

(** [Rejection]: what an awaited call throws when its promise rejects. *)
Inductive exn := SyntaxError | TypeError | Rejection.

(** What leaves the page: notifications, calls to the services, and the
    writes to [localStorage] (logged so that they can be counted). *)
Inductive Effect :=
  | showToast (msg kind : string)
  | loadKnowledgeItems
  | stopCrawl (id : string)
  | crawlUrl (params : CrawlRequest)
  | refreshKnowledgeItem (sourceId : string)
  | fetchProgress (id : string)
  | storageSetItem (key : string) (value : text)
  | storageRemoveItem (key : string).

(** The callback queued by [setTimeout] at line 663: the id it removes and
    [progressItems.length] as the closure saw it. *)
Record TimerTask := { task_progressId : string; task_items_length : nat }.

Record Page := {
  progressItems : list CrawlProgressData;
  showCrawlingTab : bool;
  localStorage : gmap string text;
  clock : Z;
  timers : list (Z * TimerTask);
  trace : list Effect
}.

(** The page as first rendered, over the storage the browser holds. *)
Definition initial_page (storage : gmap string text) (now : Z) : Page :=
  {| progressItems := []; showCrawlingTab := false; localStorage := storage;
     clock := now; timers := []; trace := [] |}.

(** ** The handler monad *)

Inductive completion (A : Type) :=
  | Normal (a : A)
  | Throw (e : exn).
Arguments Normal {A} a.
Arguments Throw {A} e.

Definition M (A : Type) : Type := Page → completion A * Page.

Definition ret {A} (a : A) : M A := λ p, (Normal a, p).

Definition bind {A B} (m : M A) (k : A → M B) : M B :=
  λ p, match m p with
       | (Normal a, p') => k a p'
       | (Throw e, p') => (Throw e, p')
       end.

Definition throw {A} (e : exn) : M A := λ p, (Throw e, p).

(** [try { body } catch { handler }] *)
Definition try_catch {A} (body : M A) (handler : M A) : M A :=
  λ p, match body p with
       | (Normal a, p') => (Normal a, p')
       | (Throw _, p') => handler p'
       end.

Notation "'let*' x := m 'in' k" := (bind m (λ x, k))
  (at level 10, x name, m at level 100, k at level 200, only parsing).
Notation "m ;;; k" := (bind m (λ _, k))
  (at level 100, k at level 200, right associativity, only parsing).

Definition when (b : bool) (m : M unit) : M unit := if b then m else ret tt.

(** The page a computation leaves, and whether it returned. *)
Definition exec {A} (m : M A) (p : Page) : Page := (m p).2.
Definition returns {A} (m : M A) (p : Page) : Prop :=
  ∃ a, (m p).1 = Normal a.

(** *** State access *)

Definition set_progressItems (v : list CrawlProgressData) (p : Page) : Page :=
  {| progressItems := v; showCrawlingTab := showCrawlingTab p;
     localStorage := localStorage p; clock := clock p; timers := timers p;
     trace := trace p |}.

Definition set_showCrawlingTab (v : bool) (p : Page) : Page :=
  {| progressItems := progressItems p; showCrawlingTab := v;
     localStorage := localStorage p; clock := clock p; timers := timers p;
     trace := trace p |}.

Definition set_localStorage (v : gmap string text) (p : Page) : Page :=
  {| progressItems := progressItems p; showCrawlingTab := showCrawlingTab p;
     localStorage := v; clock := clock p; timers := timers p;
     trace := trace p |}.

Definition set_clock (v : Z) (p : Page) : Page :=
  {| progressItems := progressItems p; showCrawlingTab := showCrawlingTab p;
     localStorage := localStorage p; clock := v; timers := timers p;
     trace := trace p |}.

Definition set_timers (v : list (Z * TimerTask)) (p : Page) : Page :=
  {| progressItems := progressItems p; showCrawlingTab := showCrawlingTab p;
     localStorage := localStorage p; clock := clock p; timers := v;
     trace := trace p |}.

Definition set_trace (v : list Effect) (p : Page) : Page :=
  {| progressItems := progressItems p; showCrawlingTab := showCrawlingTab p;
     localStorage := localStorage p; clock := clock p; timers := timers p;
     trace := v |}.

Definition emit (e : Effect) : M unit :=
  λ p, (Normal tt, set_trace (trace p ++ [e]) p).

Definition Date_now : M Z := λ p, (Normal (clock p), p).

Definition setShowCrawlingTab (v : bool) : M unit :=
  λ p, (Normal tt, set_showCrawlingTab v p).

(** The render-time value of [progressItems] a handler closes over. *)
Definition closure_progressItems : M (list CrawlProgressData) :=
  λ p, (Normal (progressItems p), p).

Definition setTimeout (task : TimerTask) (delay : Z) : M unit :=
  λ p, (Normal tt, set_timers (timers p ++ [(clock p + delay, task)]) p).

(** *** localStorage and JSON *)

Definition crawl_progress_key (id : string) : string :=
  "crawl_progress_" +:+ id.

Definition active_crawls_key : string := "active_crawls".

Definition getItem (key : string) : M (option text) :=
  λ p, (Normal (localStorage p !! key), p).

Definition setItem (key : string) (value : text) : M unit :=
  λ p, (Normal tt,
        set_trace (trace p ++ [storageSetItem key value])
          (set_localStorage (<[key := value]> (localStorage p)) p)).

Definition removeItem (key : string) : M unit :=
  λ p, (Normal tt,
        set_trace (trace p ++ [storageRemoveItem key])
          (set_localStorage (delete key (localStorage p)) p)).

(** [JSON.parse(s)] *)
Definition JSON_parse (s : text) : M json :=
  match s with
  | Stringified j => ret j
  | Blank | Malformed => throw SyntaxError
  end.

(** [s || fallback]: [null] and the empty string are falsy. *)
Definition or_text (s : option text) (fallback : text) : text :=
  match s with
  | None | Some Blank => fallback
  | Some t => t
  end.

Definition empty_array : text := Stringified (JArray []).

(** [value.filter(keep)] on a parsed value: only arrays have the method. *)
Definition js_filter (value : json) (keep : string → Prop)
    `{!∀ id, Decision (keep id)} : M (list string) :=
  match value with
  | JArray ids => ret (filter keep ids)
  | JNull | JObject _ => throw TypeError
  end.

(** [value.includes(id)] *)
Definition js_includes (value : json) (id : string) : M bool :=
  match value with
  | JArray ids => ret (bool_decide (id ∈ ids))
  | JNull | JObject _ => throw TypeError
  end.

(** The three lines the handlers share to take an id off the list: read and
    parse [active_crawls], filter the id out, write the list back. *)
Definition remove_from_active_crawls (id : string) : M unit :=
  let* s := getItem active_crawls_key in
  let* activeCrawls := JSON_parse (or_text s empty_array) in
  let* updated := js_filter activeCrawls (λ x, x ≠ id) in
  setItem active_crawls_key (JSON_stringify (JArray updated)).

(** ** The de-duplicating setter (lines 48-55) *)

(** A [Map] keyed by [progressId], kept as its entries in insertion order.
    [map.set(key, value)] overwrites the value of a key already present, where
    it stands, and appends a new key. *)
Fixpoint Map_set (key : string) (value : CrawlProgressData)
    (m : list (string * CrawlProgressData)) : list (string * CrawlProgressData) :=
  match m with
  | [] => [(key, value)]
  | (k, v) :: m' =>
      if decide (k = key) then (k, value) :: m' else (k, v) :: Map_set key value m'
  end.

(** [new Map(entries)] *)
Definition new_Map (entries : list (string * CrawlProgressData))
    : list (string * CrawlProgressData) :=
  foldl (λ m e, Map_set e.1 e.2 m) [] entries.

(** [Array.from(map.values())] *)
Definition Map_values (m : list (string * CrawlProgressData))
    : list CrawlProgressData := m.*2.

(** Lines 52-53. *)
Definition unique_items (newItems : list CrawlProgressData)
    : list CrawlProgressData :=
  Map_values (new_Map ((λ item, (progressId item, item)) <$> newItems)).

(** The argument of the setter: a list, or a function of the previous list
    (which may itself call another setter, as line 641 does). *)
Inductive Updater :=
  | Items (newItems : list CrawlProgressData)
  | Function (f : list CrawlProgressData → M (list CrawlProgressData)).

Definition setProgressItemsRaw
    (f : list CrawlProgressData → M (list CrawlProgressData)) : M unit :=
  λ p, match f (progressItems p) p with
       | (Normal v, p') => (Normal tt, set_progressItems v p')
       | (Throw e, p') => (Throw e, p')
       end.

Definition setProgressItems (updater : Updater) : M unit :=
  setProgressItemsRaw (λ prev,
    let* newItems :=
      match updater with
      | Function f => f prev
      | Items v => ret v
      end in
    ret (unique_items newItems)).

(** The ids of a list of items. *)
Definition ids_of (items : list CrawlProgressData) : list string :=
  progressId <$> items.

(** ** Handlers (lines 623-765) *)

Definition dquote : string := String "034"%char EmptyString.

(** [`${v}`] for a value that may be [undefined]. *)
Definition template (v : option string) : string := default "undefined" v.

(** A string used as a condition: [undefined] and [''] are falsy. *)
Definition truthy (v : option string) : option string :=
  match v with
  | Some s => if decide (s = "") then None else Some s
  | None => None
  end.

(** An awaited call: it resolves to a value or rejects. *)
Inductive ApiResult (A : Type) :=
  | Resolves (a : A)
  | Rejects.
Arguments Resolves {A} a.
Arguments Rejects {A}.

Definition await {A} (r : ApiResult A) : M A :=
  match r with
  | Resolves a => ret a
  | Rejects => throw Rejection
  end.

(** Lines 631-633. *)
Definition success_message (data : CrawlProgressData) : string :=
  if decide (uploadType data = Some "document")
  then "Document " +:+ dquote +:+ template (fileName data) +:+ dquote
       +:+ " uploaded successfully!"
  else "Crawling completed for " +:+ template (currentUrl data) +:+ "!".

(** Lines 623-648. *)
Definition handleProgressComplete (data : CrawlProgressData) : M unit :=
  removeItem (crawl_progress_key (progressId data)) ;;;
  remove_from_active_crawls (progressId data) ;;;
  emit (showToast (success_message data) "success") ;;;
  setProgressItems (Function (λ prev,
    let filtered := filter (λ item, progressId item ≠ progressId data) prev in
    when (bool_decide (length filtered = 0%nat)) (setShowCrawlingTab false) ;;;
    ret filtered)) ;;;
  emit loadKnowledgeItems.

(** The callback of line 663, run when its timer fires. *)
Definition run_task (t : TimerTask) : M unit :=
  setProgressItems (Function (λ prev,
    ret (filter (λ item, progressId item ≠ task_progressId t) prev))) ;;;
  when (bool_decide (task_items_length t = 1%nat)) (setShowCrawlingTab false).

(** Lines 650-671. *)
Definition handleProgressError (error : string) (id : option string) : M unit :=
  let* progressItems := closure_progressItems in
  match truthy id with
  | Some progressId' =>
      setProgressItems (Function (λ prev,
        ret ((λ item,
                if decide (progressId item = progressId')
                then with_error (Some error) (with_status (Some "failed") item)
                else item) <$> prev))) ;;;
      removeItem (crawl_progress_key progressId') ;;;
      remove_from_active_crawls progressId' ;;;
      setTimeout {| task_progressId := progressId';
                    task_items_length := length progressItems |} 5000
  | None => ret tt
  end ;;;
  emit (showToast ("Crawling failed: " +:+ error) "error").

(** Lines 743-765. *)
Definition handleStartCrawl (id : string) (initialData : CrawlProgressData)
    : M unit :=
  let newProgressItem :=
    with_message (Some "Starting crawl...")
      (with_progress (Some 0)
        (with_status (Some "starting") (with_progressId id initialData))) in
  setProgressItems (Function (λ prev, ret (prev ++ [newProgressItem]))) ;;;
  setShowCrawlingTab true ;;;
  let* now := Date_now in
  setItem (crawl_progress_key id)
    (JSON_stringify (JObject (with_startedAt (Some now) newProgressItem))) ;;;
  let* s := getItem active_crawls_key in
  let* activeCrawls := JSON_parse (or_text s empty_array) in
  let* known := js_includes activeCrawls id in
  when (negb known)
    (match activeCrawls with
     | JArray ids =>
         setItem active_crawls_key (JSON_stringify (JArray (ids ++ [id])))
     | JNull | JObject _ => throw TypeError
     end).

(** Lines 673-710.  [result] is what [knowledgeBaseService.crawlUrl] answers:
    the [progressId] of the new crawl, if any. *)
Definition handleRetryProgress (id : string)
    (result : ApiResult (option string)) : M unit :=
  let* progressItems := closure_progressItems in
  match list_find (λ item, progressId item = id) progressItems with
  | None => emit (showToast "Progress item not found" "error")
  | Some (_, progressItem) =>
      try_catch
        (setProgressItems (Function (λ prev,
           ret ((λ item,
                   if decide (progressId item = id)
                   then with_message (Some "Retrying...")
                          (with_error None (with_status (Some "starting") item))
                   else item) <$> prev))) ;;;
         removeItem (crawl_progress_key id) ;;;
         remove_from_active_crawls id ;;;
         match originalCrawlParams progressItem with
         | Some params =>
             emit (showToast "Retrying crawl..." "info") ;;;
             emit (crawlUrl params) ;;;
             let* answer := await result in
             match truthy answer with
             | Some newId =>
                 handleStartCrawl newId
                   {| progressId := newId; status := None; progress := None;
                      message := None; error := None;
                      currentUrl := Some (url params); uploadType := None;
                      fileName := None; totalPages := Some 0;
                      processedPages := Some 0; crawlType := None;
                      currentStep := None;
                      originalCrawlParams := Some params; startedAt := None;
                      lastUpdated := None; _needsVerification := false |} ;;;
                 emit (showToast "Crawl restarted successfully" "success")
             | None => ret tt
             end
         | None => ret tt
         end)
        (emit (showToast "Retry failed" "error"))
  end.

(** Lines 712-729.  [result] is the outcome of the awaited
    [knowledgeBaseService.stopCrawl]. *)
Definition handleStopProgress (id : string) (result : ApiResult unit)
    : M unit :=
  try_catch
    (emit (stopCrawl id) ;;;
     await result ;;;
     setProgressItems (Function (λ prev,
       ret ((λ item,
               if decide (progressId item = id)
               then with_status (Some "cancelled") item
               else item) <$> prev))) ;;;
     remove_from_active_crawls id)
    (emit (showToast "Failed to stop crawl" "error")).

(** Lines 731-741. *)
Definition handleDismissProgress (id : string) : M unit :=
  let* progressItems := closure_progressItems in
  setProgressItems (Function (λ prev,
    ret (filter (λ item, progressId item ≠ id) prev))) ;;;
  when (bool_decide (length progressItems = 1%nat)) (setShowCrawlingTab false) ;;;
  removeItem (crawl_progress_key id) ;;;
  remove_from_active_crawls id.

(** Lines 496-593 (incoming side).  [found] is the [url] of the knowledge
    item with this source id, when the page lists one; [response] is what
    [knowledgeBaseService.refreshKnowledgeItem] answers. *)
Definition handleRefreshItem (sourceId : string) (found : option (option string))
    (response : ApiResult (option string)) : M unit :=
  try_catch
    (match found with
     | None => ret tt
     | Some item_url =>
         emit (refreshKnowledgeItem sourceId) ;;;
         let* answer := await response in
         match truthy answer with
         | Some newId =>
             let progressData :=
               {| progressId := newId; status := Some "starting";
                  progress := Some 0; message := Some "Starting refresh...";
                  error := None; currentUrl := item_url; uploadType := None;
                  fileName := None; totalPages := Some 0;
                  processedPages := Some 0; crawlType := Some "refresh";
                  currentStep := Some "starting";
                  originalCrawlParams := None; startedAt := None;
                  lastUpdated := None; _needsVerification := false |} in
             setProgressItems (Function (λ prev, ret (prev ++ [progressData]))) ;;;
             setShowCrawlingTab true ;;;
             let* now := Date_now in
             setItem (crawl_progress_key newId)
               (JSON_stringify (JObject (with_startedAt (Some now) progressData))) ;;;
             let* s := getItem active_crawls_key in
             let* activeCrawls := JSON_parse (or_text s empty_array) in
             let* known := js_includes activeCrawls newId in
             when (negb known)
               (match activeCrawls with
                | JArray ids =>
                    setItem active_crawls_key
                      (JSON_stringify (JArray (ids ++ [newId])))
                | JNull | JObject _ => throw TypeError
                end)
         | None => ret tt
         end
     end)
    (emit (showToast "Failed to refresh knowledge item" "error")).

(** Time passes: the timers that are due fire, in the order they were set. *)
Definition due (now : Z) (t : Z * TimerTask) : Prop := t.1 ≤ now.

Global Instance due_dec now t : Decision (due now t).
Proof. unfold due. apply _. Defined.

Definition elapse (ms : Z) (p : Page) : Page :=
  let now := clock p + ms in
  foldl (λ q t, exec (run_task t.2) q)
    (set_timers (filter (λ t, ¬ due now t) (timers p)) (set_clock now p))
    (filter (due now) (timers p)).

(** ** Startup reconciliation (lines 123-327, incoming side) *)

(** [for (const x of l) body], with the arrays the loop pushes to as [acc]. *)
Fixpoint for_of {A S : Type} (l : list A) (body : A → S → M S) (acc : S) : M S :=
  match l with
  | [] => ret acc
  | x :: l' => let* acc' := body x acc in for_of l' body acc'
  end.

(** [l.forEach(f)] *)
Definition forEach {A : Type} (l : list A) (f : A → M unit) : M unit :=
  for_of l (λ x _, f x) tt.

Definition completed_states : list string :=
  ["completed"; "error"; "failed"; "cancelled"].

(** Line 231. *)
Definition isCompleted (parsed : CrawlProgressData) : bool :=
  match status parsed with
  | Some s => bool_decide (s ∈ completed_states)
  | None => false
  end.

(** Line 233: [parsed.startedAt || now]; a missing or zero [startedAt] is
    falsy. *)
Definition startedAt_or (parsed : CrawlProgressData) (now : Z) : Z :=
  match startedAt parsed with
  | Some t => if decide (t = 0) then now else t
  | None => now
  end.

(** Lines 234-235. *)
Definition ageMinutes (now startedAt : Z) : QArith_base.Q :=
  QArith_base.Qdiv (QArith_base.inject_Z (now - startedAt))
                   (QArith_base.inject_Z (1000 * 60)).

Definition isStale (now startedAt : Z) : bool :=
  negb (QArith_base.Qle_bool (ageMinutes now startedAt) (QArith_base.inject_Z 5)).

(** A parsed value read as an object: a property of [null] cannot be read;
    an array has none of the properties of a progress item. *)
Definition as_object (parsed : json) : M CrawlProgressData :=
  match parsed with
  | JNull => throw TypeError
  | JArray _ => ret (bare "")
  | JObject d => ret d
  end.

(** The body of the loop of line 132: one id, and the two arrays
    [(restoredItems, staleItems)]. *)
Definition classify (crawlId : string)
    (acc : list CrawlProgressData * list string)
    : M (list CrawlProgressData * list string) :=
  let restoredItems := acc.1 in
  let staleItems := acc.2 in
  let* crawlData := getItem (crawl_progress_key crawlId) in
  match crawlData with
  | None | Some Blank => ret (restoredItems, staleItems ++ [crawlId])
  | Some s =>
      try_catch
        (let* value := JSON_parse s in
         let* parsed := as_object value in
         let* now := Date_now in
         let startedAt := startedAt_or parsed now in
         if isCompleted parsed || isStale now startedAt
         then ret (restoredItems, staleItems ++ [crawlId])
         else ret (restoredItems
                     ++ [with_needsVerification true (with_progressId crawlId parsed)],
                   staleItems))
        (ret (restoredItems, staleItems ++ [crawlId]))
  end.

(** Lines 258-265. *)
Definition clean_up_stale (activeCrawls staleItems : list string) : M unit :=
  when (bool_decide (0 < length staleItems)%nat)
    (setItem active_crawls_key
       (JSON_stringify (JArray (filter (λ id, id ∉ staleItems) activeCrawls))) ;;;
     forEach staleItems (λ id, removeItem (crawl_progress_key id))).

(** The outcome of [GET /api/progress/<id>]: a response with its status
    code, or a rejected promise. *)
Definition response_ok (status : Z) : bool := bool_decide (200 ≤ status ≤ 299).

(** The body of the loop of line 282, on [(verifiedItems, itemsToRemove)]. *)
Definition verify (fetch : string → ApiResult Z) (item : CrawlProgressData)
    (acc : list CrawlProgressData * list string)
    : M (list CrawlProgressData * list string) :=
  let verifiedItems := acc.1 in
  let itemsToRemove := acc.2 in
  emit (fetchProgress (progressId item)) ;;;
  try_catch
    (let* response_status := await (fetch (progressId item)) in
     if response_ok response_status
     then ret (verifiedItems ++ [item], itemsToRemove)
     else if decide (response_status = 404)
          then ret (verifiedItems, itemsToRemove ++ [progressId item])
          else ret (verifiedItems, itemsToRemove))
    (ret (verifiedItems, itemsToRemove ++ [progressId item])).

(** Lines 278-327. *)
Definition verifyAndRestoreProgressItems (fetch : string → ApiResult Z)
    (itemsToVerify : list CrawlProgressData) : M unit :=
  let* r := for_of itemsToVerify (verify fetch) ([], []) in
  let verifiedItems := r.1 in
  let itemsToRemove := r.2 in
  when (bool_decide (0 < length itemsToRemove)%nat)
    (let* s := getItem active_crawls_key in
     let* activeCrawls := JSON_parse (or_text s empty_array) in
     let* updatedCrawls := js_filter activeCrawls (λ id, id ∉ itemsToRemove) in
     setItem active_crawls_key (JSON_stringify (JArray updatedCrawls)) ;;;
     forEach itemsToRemove (λ id, removeItem (crawl_progress_key id))) ;;;
  if bool_decide (0 < length verifiedItems)%nat
  then setProgressItems (Items verifiedItems)
  else setShowCrawlingTab false.

(** A call to an async function that is not awaited: what it throws rejects
    its promise and does not reach the caller. *)
Definition detached (m : M unit) : M unit := λ p, (Normal tt, exec m p).

(** The effect of line 124, run once when the page mounts. *)
Definition reconcileOnStartup (fetch : string → ApiResult Z) : M unit :=
  let* activeCrawlsStr := getItem active_crawls_key in
  let* activeCrawls := JSON_parse (or_text activeCrawlsStr empty_array) in
  match activeCrawls with
  | JNull => throw TypeError
  | JObject _ => ret tt
  | JArray ids =>
      when (bool_decide (0 < length ids)%nat)
        (let* r := for_of ids classify ([], []) in
         let restoredItems := r.1 in
         let staleItems := r.2 in
         clean_up_stale ids staleItems ;;;
         when (bool_decide (0 < length restoredItems)%nat)
           (setShowCrawlingTab true ;;;
            detached (verifyAndRestoreProgressItems fetch restoredItems)))
  end.

(** ** Events *)

(** What can happen to the progress tracking of a mounted page: the handlers
    of lines 496-765, the effect of line 124 and the passing of time.  The
    page also reloads its knowledge list without any of these: 100 ms after
    it is mounted (lines 101-121), and when a card or a dialog asks for it
    ([onUpdate], [onSuccess]); those calls read and write neither the
    tracked list nor the storage, and are no events here. *)
Inductive Event :=
  | StartCrawl (id : string) (initialData : CrawlProgressData)
  | RefreshItem (sourceId : string) (found : option (option string))
      (response : ApiResult (option string))
  | ProgressComplete (data : CrawlProgressData)
  | ProgressError (error : string) (id : option string)
  | RetryProgress (id : string) (result : ApiResult (option string))
  | StopProgress (id : string) (result : ApiResult unit)
  | DismissProgress (id : string)
  | Reconcile (fetch : string → ApiResult Z)
  | Elapse (ms : Z).

Definition handle (e : Event) (p : Page) : Page :=
  match e with
  | StartCrawl id initialData => exec (handleStartCrawl id initialData) p
  | RefreshItem sourceId found response =>
      exec (handleRefreshItem sourceId found response) p
  | ProgressComplete data => exec (handleProgressComplete data) p
  | ProgressError error id => exec (handleProgressError error id) p
  | RetryProgress id result => exec (handleRetryProgress id result) p
  | StopProgress id result => exec (handleStopProgress id result) p
  | DismissProgress id => exec (handleDismissProgress id) p
  | Reconcile fetch => exec (reconcileOnStartup fetch) p
  | Elapse ms => elapse ms p
  end.

Definition run (events : list Event) (p : Page) : Page :=
  foldl (λ q e, handle e q) p events.

(** ** What the claims observe *)

(** The list of active ids as the page reads it (line 126); [None] when the
    stored string does not parse to an array. *)
Definition stored_ids (storage : gmap string text) : option (list string) :=
  match or_text (storage !! active_crawls_key) empty_array with
  | Stringified (JArray ids) => Some ids
  | _ => None
  end.

Definition active_crawls (p : Page) : option (list string) :=
  stored_ids (localStorage p).

(** The persisted snapshot of an id. *)
Definition snapshot (p : Page) (id : string) : option text :=
  localStorage p !! crawl_progress_key id.

(** How often the list of knowledge items was reloaded. *)
Definition is_refresh (e : Effect) : bool :=
  match e with
  | loadKnowledgeItems => true
  | _ => false
  end.

Definition refreshes (t : list Effect) : nat :=
  length (filter (λ e, is_refresh e) t).

(** How often [active_crawls] was written. *)
Definition is_list_write (e : Effect) : bool :=
  match e with
  | storageSetItem key _ => bool_decide (key = active_crawls_key)
  | _ => false
  end.

Definition list_writes (t : list Effect) : nat :=
  length (filter (λ e, is_list_write e) t).

(** ** What the proofs speak of *)

(** The entries line 52 builds the [Map] from. *)
Definition entries (items : list CrawlProgressData) : list (string * CrawlProgressData) :=
  (λ item, (progressId item, item)) <$> items.

(** Every value is stored under its own id. *)
Definition keyed (m : list (string * CrawlProgressData)) : Prop :=
  Forall (λ e, progressId e.2 = e.1) m.

(** The [Map] of line 52, filled from [acc]. *)
Definition fill (acc : list (string * CrawlProgressData))
    (items : list CrawlProgressData) : list (string * CrawlProgressData) :=
  foldl (λ m e, Map_set e.1 e.2 m) acc (entries items).

(** A timer fires. *)
Definition fire (q : Page) (t : Z * TimerTask) : Page := exec (run_task t.2) q.

(** Line 654: [{ ...item, status: 'failed', error }]. *)
Definition failed_with (msg : string) (item : CrawlProgressData) :=
  with_error (Some msg) (with_status (Some "failed") item).

(** The ids of the tracked list are pairwise distinct. *)
Definition distinct (p : Page) : Prop := NoDup (ids_of (progressItems p)).

(** A computation that leaves the ids of the tracked list distinct. *)
Definition keeps {A} (m : M A) : Prop := ∀ p, distinct p → distinct (m p).2.

(** Five minutes, in milliseconds. *)
Definition five_minutes : Z := 5 * 60 * 1000.

(** What the loop of line 132 makes of one id: the item it queues for
    verification, or [None] when it marks the id stale. *)
Definition queued (storage : gmap string text) (now : Z) (crawlId : string)
    : option CrawlProgressData :=
  match storage !! crawl_progress_key crawlId with
  | Some (Stringified (JObject d)) =>
      if isCompleted d || isStale now (startedAt_or d now) then None
      else Some (with_needsVerification true (with_progressId crawlId d))
  | Some (Stringified (JArray _)) =>
      Some (with_needsVerification true (with_progressId crawlId (bare "")))
  | Some (Stringified JNull) | Some Blank | Some Malformed | None => None
  end.

Definition restored_of (storage : gmap string text) (now : Z)
    (ids : list string) : list CrawlProgressData :=
  omap (queued storage now) ids.

Definition stale_of (storage : gmap string text) (now : Z)
    (ids : list string) : list string :=
  filter (λ id, queued storage now id = None) ids.

Definition delete_snapshots (removed : list string) (storage : gmap string text)
    : gmap string text :=
  foldl (λ m id, delete (crawl_progress_key id) m) storage removed.

(** The page after one clean-up of the ids [removed], the stored list being
    [ids]: one write of the filtered list, then one [removeItem] per id. *)
Definition cleaned (removed ids : list string) (p : Page) : Page :=
  if bool_decide (0 < length removed)%nat
  then
    let updated := Stringified (JArray (filter (λ id, id ∉ removed) ids)) in
    {| progressItems := progressItems p;
       showCrawlingTab := showCrawlingTab p;
       localStorage :=
         delete_snapshots removed (<[active_crawls_key := updated]> (localStorage p));
       clock := clock p;
       timers := timers p;
       trace :=
         trace p ++ storageSetItem active_crawls_key updated
                    :: ((λ id, storageRemoveItem (crawl_progress_key id)) <$> removed) |}
  else p.

(** What the server's answer means to the loop of line 282. *)
Inductive Verdict := Verified | Gone | Unknown.

Global Instance Verdict_eq_dec : EqDecision Verdict.
Proof. solve_decision. Defined.

Definition verdict (r : ApiResult Z) : Verdict :=
  match r with
  | Resolves response_status =>
      if response_ok response_status then Verified
      else if decide (response_status = 404) then Gone else Unknown
  | Rejects => Gone
  end.

Definition verified_of (fetch : string → ApiResult Z)
    (items : list CrawlProgressData) : list CrawlProgressData :=
  filter (λ item, verdict (fetch (progressId item)) = Verified) items.

Definition removed_of (fetch : string → ApiResult Z)
    (items : list CrawlProgressData) : list string :=
  progressId <$> filter (λ item, verdict (fetch (progressId item)) = Gone) items.

Definition fetches (items : list CrawlProgressData) : list Effect :=
  (λ item, fetchProgress (progressId item)) <$> items.

(** The page [verifyAndRestoreProgressItems] leaves when the stored list
    reads [ids]. *)
Definition verified_page (fetch : string → ApiResult Z)
    (items : list CrawlProgressData) (ids : list string) (p : Page) : Page :=
  let q := cleaned (removed_of fetch items) ids
             (set_trace (trace p ++ fetches items) p) in
  if bool_decide (0 < length (verified_of fetch items))%nat
  then set_progressItems (unique_items (verified_of fetch items)) q
  else set_showCrawlingTab false q.

(** The page the effect of line 124 leaves when the stored list reads [ids]. *)
Definition reconciled (fetch : string → ApiResult Z) (ids : list string)
    (p : Page) : Page :=
  if bool_decide (0 < length ids)%nat
  then
    let stale := stale_of (localStorage p) (clock p) ids in
    let restored := restored_of (localStorage p) (clock p) ids in
    let q := cleaned stale ids p in
    if bool_decide (0 < length restored)%nat
    then verified_page fetch restored (filter (λ id, id ∉ stale) ids)
           (set_showCrawlingTab true q)
    else q
  else p.

(** The terminal statuses of the spec's glossary. *)
Definition terminal (s : string) : Prop := s ∈ ["completed"; "failed"; "cancelled"].

(** ** Example pages *)

Definition job1 : CrawlProgressData :=
  with_status (Some "crawling") (bare "job-1").

Definition job1_storage (started : Z) : gmap string text :=
  <[active_crawls_key := Stringified (JArray ["job-1"])]>
    (<[crawl_progress_key "job-1" :=
         Stringified (JObject (with_startedAt (Some started) job1))]> ∅).

(** A page tracking one crawl, started a second ago. *)
Definition job1_page : Page :=
  {| progressItems := [job1]; showCrawlingTab := true;
     localStorage := job1_storage 1000; clock := 2000; timers := [];
     trace := [] |}.

Definition job1_done : CrawlProgressData :=
  with_lastUpdated (Some 2000) (with_status (Some "completed") (bare "job-1")).

Definition job1_late : CrawlProgressData :=
  with_lastUpdated (Some 1000) (with_status (Some "crawling") (bare "job-1")).

Definition errored : CrawlProgressData :=
  with_startedAt (Some 2000) (with_status (Some "error") (bare "job-1")).

(** A page reloaded while the snapshot of its only crawl says "error". *)
Definition errored_page : Page :=
  initial_page
    (<[active_crawls_key := Stringified (JArray ["job-1"])]>
       (<[crawl_progress_key "job-1" := Stringified (JObject errored)]> ∅))
    2000.

(** A page reloaded one second after "job-1" was started. *)
Definition reloaded_page : Page := initial_page (job1_storage 1000) 2000.

(** A page reloaded long after "job-1" was started, the snapshot saying that
    it was started at time zero. *)
Definition epoch_page : Page := initial_page (job1_storage 0) 1000000.

Definition job_a : CrawlProgressData :=
  with_startedAt (Some 990000) (with_status (Some "completed") (bare "job-a")).

Definition job_b : CrawlProgressData :=
  with_startedAt (Some 1000) (with_status (Some "crawling") (bare "job-b")).

Definition job_c : CrawlProgressData :=
  with_startedAt (Some 999000) (with_status (Some "crawling") (bare "job-c")).

(** A page reloaded with three persisted crawls: one completed, one started
    more than sixteen minutes ago, one started a second ago. *)
Definition three_jobs_page : Page :=
  initial_page
    (<[active_crawls_key := Stringified (JArray ["job-a"; "job-b"; "job-c"])]>
       (<[crawl_progress_key "job-a" := Stringified (JObject job_a)]>
          (<[crawl_progress_key "job-b" := Stringified (JObject job_b)]>
             (<[crawl_progress_key "job-c" := Stringified (JObject job_c)]> ∅))))
    1000000.

(** ** Further descriptions *)

(** The item [handleStartCrawl] makes of its arguments (lines 744-750). *)
Definition newProgressItem (id : string) (initialData : CrawlProgressData)
    : CrawlProgressData :=
  with_message (Some "Starting crawl...")
    (with_progress (Some 0)
      (with_status (Some "starting") (with_progressId id initialData))).

(** The snapshot [handleStartCrawl] persists (lines 755-758). *)
Definition started_snapshot (id : string) (initialData : CrawlProgressData)
    (now : Z) : text :=
  Stringified (JObject (with_startedAt (Some now) (newProgressItem id initialData))).

(** Line 938: the progress cards are rendered when the tab is shown and
    something is tracked. *)
Definition crawlingTabVisible (p : Page) : bool :=
  showCrawlingTab p && bool_decide (0 < length (progressItems p))%nat.

(** Line 683: the item a retry leaves in place of the one retried. *)
Definition retrying (item : CrawlProgressData) : CrawlProgressData :=
  with_message (Some "Retrying...")
    (with_error None (with_status (Some "starting") item)).

(** The first tracked item with a given id ([progressItems.find], line 674). *)
Definition find_item (id : string) (items : list CrawlProgressData)
    : option CrawlProgressData :=
  snd <$> list_find (λ item, progressId item = id) items.

(** A computation that leaves an invariant of the page standing, whether it
    returns or throws. *)
Definition preserves {A} (I : Page → Prop) (m : M A) : Prop :=
  ∀ p, I p → I (m p).2.

(** [{ currentUrl, totalPages: 0, processedPages: 0, originalCrawlParams }],
    the data a retry starts the new crawl with (lines 698-701). *)
Definition retry_data (params : CrawlRequest) (newId : string)
    : CrawlProgressData :=
  {| progressId := newId; status := None; progress := None; message := None;
     error := None; currentUrl := Some (url params); uploadType := None;
     fileName := None; totalPages := Some 0; processedPages := Some 0;
     crawlType := None; currentStep := None;
     originalCrawlParams := Some params; startedAt := None;
     lastUpdated := None; _needsVerification := false |}.

(** The page a retry leaves before it asks for a new crawl (lines 681-690),
    the stored list being [ids]. *)
Definition retry_cleared (id : string) (ids : list string) (p : Page) : Page :=
  let updated := Stringified (JArray (filter (λ x, x ≠ id) ids)) in
  {| progressItems :=
       unique_items ((λ item, if decide (progressId item = id)
                              then retrying item else item)
                       <$> progressItems p);
     showCrawlingTab := showCrawlingTab p;
     localStorage :=
       <[active_crawls_key := updated]>
         (delete (crawl_progress_key id) (localStorage p));
     clock := clock p;
     timers := timers p;
     trace := trace p ++ [storageRemoveItem (crawl_progress_key id);
                          storageSetItem active_crawls_key updated] |}.

(** How many of the events are completions. *)
Definition is_completion (e : Event) : bool :=
  match e with
  | ProgressComplete _ => true
  | _ => false
  end.

Definition completions (events : list Event) : nat :=
  length (filter (λ e, is_completion e) events).

(** The raw string under [active_crawls], if any. *)
Definition list_entry (p : Page) : option text :=
  localStorage p !! active_crawls_key.

(** A crawl that failed and can be retried. *)
Definition docs_request : CrawlRequest := {| url := "https://docs.example" |}.

Definition job1_failed : CrawlProgressData :=
  {| progressId := "job-1"; status := Some "error"; progress := Some 40;
     message := None; error := Some "boom";
     currentUrl := Some "https://docs.example"; uploadType := None;
     fileName := None; totalPages := Some 10; processedPages := Some 4;
     crawlType := None; currentStep := None;
     originalCrawlParams := Some docs_request; startedAt := None;
     lastUpdated := None; _needsVerification := false |}.

Definition job1_failed_page : Page :=
  {| progressItems := [job1_failed]; showCrawlingTab := true;
     localStorage := job1_storage 1000; clock := 2000; timers := [];
     trace := [] |}.

(** A page whose stored list was overwritten by something that is no JSON. *)
Definition corrupted_page : Page :=
  {| progressItems := [job1]; showCrawlingTab := true;
     localStorage := <[active_crawls_key := Malformed]> (job1_storage 1000);
     clock := 2000; timers := []; trace := [] |}.

(** An invariant that looks at the storage and at the effects only. *)
Definition framed (I : Page → Prop) : Prop :=
  ∀ p q, localStorage p = localStorage q → trace p = trace q → I p → I q.

(** The number of reloads so far is [n]. *)
Definition reloaded (n : nat) (p : Page) : Prop := refreshes (trace p) = n.

(** The raw string under [active_crawls] is [v]. *)
Definition list_entry_is (v : option text) (p : Page) : Prop := list_entry p = v.

(** A raw string the page cannot read a list of ids from. *)
Definition unreadable (v : option text) : Prop :=
  ∀ ids, or_text v empty_array ≠ Stringified (JArray ids).

(** The item [handleRefreshItem] tracks (lines 519-531). *)
Definition refresh_item (newId : string) (item_url : option string)
    : CrawlProgressData :=
  {| progressId := newId; status := Some "starting"; progress := Some 0;
     message := Some "Starting refresh..."; error := None;
     currentUrl := item_url; uploadType := None; fileName := None;
     totalPages := Some 0; processedPages := Some 0;
     crawlType := Some "refresh"; currentStep := Some "starting";
     originalCrawlParams := None; startedAt := None; lastUpdated := None;
     _needsVerification := false |}.

(** The page after a crawl [item] was tracked and persisted at [now], the
    stored list being [ids] (lines 752-764 and 533-545). *)
Definition tracked_page (item : CrawlProgressData) (ids : list string)
    (p : Page) : Page :=
  let id := progressId item in
  let saved := Stringified (JObject (with_startedAt (Some (clock p)) item)) in
  let stored := <[crawl_progress_key id := saved]> (localStorage p) in
  let listed := Stringified (JArray (ids ++ [id])) in
  {| progressItems := unique_items (progressItems p ++ [item]);
     showCrawlingTab := true;
     localStorage :=
       if bool_decide (id ∈ ids) then stored
       else <[active_crawls_key := listed]> stored;
     clock := clock p;
     timers := timers p;
     trace :=
       trace p ++ storageSetItem (crawl_progress_key id) saved
                  :: (if bool_decide (id ∈ ids) then []
                      else [storageSetItem active_crawls_key listed]) |}.

(** How the storage of [p'] follows from the storage of [p], whose list reads
    [ids]: the list is still readable, it has gained no duplicate, and no
    listed id has lost its snapshot. *)
Definition follows_at (ids : list string) (p p' : Page) : Prop :=
  ∃ ids', active_crawls p' = Some ids' ∧
          (NoDup ids → NoDup ids') ∧
          ∀ x, x ∈ ids' → snapshot p' x = None → x ∈ ids ∧ snapshot p x = None.

(** The stored list is readable and duplicate-free, and every id in it has a
    snapshot. *)
Definition consistent (p : Page) : Prop :=
  ∃ ids, active_crawls p = Some ids ∧ NoDup ids ∧
         ∀ x, x ∈ ids → snapshot p x ≠ None.

(** The item a reload restores of a crawl that was started at [started]
    (lines 239-244). *)
Definition restored_item (id : string) (initialData : CrawlProgressData)
    (started : Z) : CrawlProgressData :=
  with_needsVerification true
    (with_startedAt (Some started) (newProgressItem id initialData)).

(** ** The knowledge list (lines 35-98 and 330-620)

    The other half of the page: the list of knowledge items, its filter and
    its grouping, the selection and the deletions.  Its state is kept in a
    record of its own, [Library]; the handlers are functions on it that take
    the answers of the service and of [window.confirm] as parameters and log
    the requests they make.  As before, a handler reads the values it closes
    over ([filteredItems], [groupedItems], [selectedItems]) when it is
    entered and runs to its end in one step; the service answers the
    deletion of an id the same way each time it is asked.

    A character of a string stands for a UTF-16 code unit below 256 here:
    [\s] and [toLowerCase] are given for these code units. *)

(** *** Strings *)

(** [\s] on the code units below 256: tab to carriage return, space and the
    no-break space. *)
Definition is_space (c : ascii) : bool :=
  let n := N_of_ascii c in
  ((9 <=? n) && (n <=? 13) || (n =? 32) || (n =? 160))%N.

(** The lower-case mapping on the code units below 256: [A-Z] and the
    capital letters of Latin-1 but the multiplication sign. *)
Definition lower (c : ascii) : ascii :=
  let n := N_of_ascii c in
  if ((65 <=? n) && (n <=? 90) || (192 <=? n) && (n <=? 214)
      || (216 <=? n) && (n <=? 222))%N
  then ascii_of_N (n + 32)
  else c.

(** [s.toLowerCase()] *)
Fixpoint toLowerCase (s : string) : string :=
  match s with
  | EmptyString => EmptyString
  | String c s' => String (lower c) (toLowerCase s')
  end.

(** [s.startsWith(searchString)] *)
Definition startsWith (s searchString : string) : bool :=
  String.prefix searchString s.

(** [s.includes(searchString)] *)
Fixpoint includes (s searchString : string) : bool :=
  String.prefix searchString s
  || match s with
     | EmptyString => false
     | String _ s' => includes s' searchString
     end.

Fixpoint string_drop (n : nat) (s : string) : string :=
  match n, s with
  | S n', String _ s' => string_drop n' s'
  | _, _ => s
  end.

(** [s.replace(searchValue, replaceValue)] with a string to search for: the
    first occurrence is replaced. *)
Fixpoint replace_first (searchValue replaceValue s : string) : string :=
  if String.prefix searchValue s
  then replaceValue +:+ string_drop (String.length searchValue) s
  else match s with
       | EmptyString => EmptyString
       | String c s' => String c (replace_first searchValue replaceValue s')
       end.

(** [s.replace(/_/g, ' ')] *)
Fixpoint replace_underscores (s : string) : string :=
  match s with
  | EmptyString => EmptyString
  | String c s' =>
      String (if decide (c = "_"%char) then " "%char else c)
        (replace_underscores s')
  end.

(** [s.replace(/\s+/g, '_')]: every maximal run of white space becomes one
    underscore.  [in_run] says that the character before was white space. *)
Fixpoint replace_space_runs (in_run : bool) (s : string) : string :=
  match s with
  | EmptyString => EmptyString
  | String c s' =>
      if is_space c
      then if in_run then replace_space_runs true s'
           else String "_" (replace_space_runs true s')
      else String c (replace_space_runs false s')
  end.

(** *** Items and groups *)

(** [KnowledgeItem] and its metadata (declared in the knowledge-base
    service, outside the page): the fields the page reads. *)
Module Item.
Record KnowledgeItemMetadata := {
  knowledge_type : string;
  description : option string;
  tags : option (list string);
  group_name : option string;
  source_type : string;
  chunks_count : option Z;
  word_count : option Z
}.

Record KnowledgeItem := {
  id : string;
  title : string;
  url : option string;
  source_id : string;
  metadata : KnowledgeItemMetadata;
  created_at : string;
  updated_at : string
}.
End Item.

Abbreviation KnowledgeItemMetadata := Item.KnowledgeItemMetadata.
Abbreviation KnowledgeItem := Item.KnowledgeItem.

(** Lines 27-35. *)
Module Group.
Record GroupedKnowledgeItem := {
  id : string;
  title : string;
  domain : string;
  items : list KnowledgeItem;
  metadata : KnowledgeItemMetadata;
  created_at : string;
  updated_at : string
}.
End Group.

Abbreviation GroupedKnowledgeItem := Group.GroupedKnowledgeItem.

Inductive ViewMode := grid | table.

Global Instance ViewMode_eq_dec : EqDecision ViewMode.
Proof. solve_decision. Defined.

(** What leaves this half of the page. *)
Inductive Request :=
  | toast (msg kind : string)
  | getKnowledgeItems
  | deleteKnowledgeItem (id : string)
  | window_confirm (msg : string).

(** [selectedItems] is a [Set], kept as its elements in insertion order. *)
Record Library := {
  knowledgeItems : list KnowledgeItem;
  loading : bool;
  totalItems : Z;
  viewMode : ViewMode;
  searchQuery : string;
  typeFilter : string;
  selectedItems : list string;
  isSelectionMode : bool;
  lastSelectedIndex : option nat;
  requests : list Request
}.

Definition set_knowledgeItems (v : list KnowledgeItem) (l : Library) : Library :=
  {| knowledgeItems := v; loading := loading l; totalItems := totalItems l;
     viewMode := viewMode l; searchQuery := searchQuery l;
     typeFilter := typeFilter l; selectedItems := selectedItems l;
     isSelectionMode := isSelectionMode l;
     lastSelectedIndex := lastSelectedIndex l; requests := requests l |}.

Definition set_loading (v : bool) (l : Library) : Library :=
  {| knowledgeItems := knowledgeItems l; loading := v;
     totalItems := totalItems l; viewMode := viewMode l;
     searchQuery := searchQuery l; typeFilter := typeFilter l;
     selectedItems := selectedItems l; isSelectionMode := isSelectionMode l;
     lastSelectedIndex := lastSelectedIndex l; requests := requests l |}.

Definition set_totalItems (v : Z) (l : Library) : Library :=
  {| knowledgeItems := knowledgeItems l; loading := loading l;
     totalItems := v; viewMode := viewMode l; searchQuery := searchQuery l;
     typeFilter := typeFilter l; selectedItems := selectedItems l;
     isSelectionMode := isSelectionMode l;
     lastSelectedIndex := lastSelectedIndex l; requests := requests l |}.

Definition set_searchQuery (v : string) (l : Library) : Library :=
  {| knowledgeItems := knowledgeItems l; loading := loading l;
     totalItems := totalItems l; viewMode := viewMode l; searchQuery := v;
     typeFilter := typeFilter l; selectedItems := selectedItems l;
     isSelectionMode := isSelectionMode l;
     lastSelectedIndex := lastSelectedIndex l; requests := requests l |}.

Definition set_selectedItems (v : list string) (l : Library) : Library :=
  {| knowledgeItems := knowledgeItems l; loading := loading l;
     totalItems := totalItems l; viewMode := viewMode l;
     searchQuery := searchQuery l; typeFilter := typeFilter l;
     selectedItems := v; isSelectionMode := isSelectionMode l;
     lastSelectedIndex := lastSelectedIndex l; requests := requests l |}.

Definition set_isSelectionMode (v : bool) (l : Library) : Library :=
  {| knowledgeItems := knowledgeItems l; loading := loading l;
     totalItems := totalItems l; viewMode := viewMode l;
     searchQuery := searchQuery l; typeFilter := typeFilter l;
     selectedItems := selectedItems l; isSelectionMode := v;
     lastSelectedIndex := lastSelectedIndex l; requests := requests l |}.

Definition set_lastSelectedIndex (v : option nat) (l : Library) : Library :=
  {| knowledgeItems := knowledgeItems l; loading := loading l;
     totalItems := totalItems l; viewMode := viewMode l;
     searchQuery := searchQuery l; typeFilter := typeFilter l;
     selectedItems := selectedItems l; isSelectionMode := isSelectionMode l;
     lastSelectedIndex := v; requests := requests l |}.

Definition request (r : Request) (l : Library) : Library :=
  {| knowledgeItems := knowledgeItems l; loading := loading l;
     totalItems := totalItems l; viewMode := viewMode l;
     searchQuery := searchQuery l; typeFilter := typeFilter l;
     selectedItems := selectedItems l; isSelectionMode := isSelectionMode l;
     lastSelectedIndex := lastSelectedIndex l;
     requests := requests l ++ [r] |}.

(** *** Loading (lines 69-98) *)

(** [response] is what [knowledgeBaseService.getKnowledgeItems] answers: the
    items and their total. *)
Definition loadKnowledgeItems_list
    (response : ApiResult (list KnowledgeItem * Z)) (l : Library) : Library :=
  let l := request getKnowledgeItems (set_loading true l) in
  set_loading false
    match response with
    | Resolves (items, total) =>
        set_totalItems total (set_knowledgeItems items l)
    | Rejects =>
        set_knowledgeItems []
          (request (toast "Failed to load knowledge items" "error") l)
    end.

(** *** Filter and groups (lines 331-381) *)

Definition typeMatch (typeFilter : string) (item : KnowledgeItem) : bool :=
  bool_decide (typeFilter = "all")
  || bool_decide (Item.knowledge_type (Item.metadata item) = typeFilter).

Definition searchMatch (searchQuery : string) (item : KnowledgeItem) : bool :=
  let searchLower := toLowerCase searchQuery in
  bool_decide (searchQuery = "")
  || includes (toLowerCase (Item.title item)) searchLower
  || match Item.description (Item.metadata item) with
     | Some description => includes (toLowerCase description) searchLower
     | None => false
     end
  || match Item.tags (Item.metadata item) with
     | Some tags => existsb (λ tag, includes (toLowerCase tag) searchLower) tags
     | None => false
     end
  || includes (toLowerCase (Item.source_id item)) searchLower.

Definition filteredItems (l : Library) : list KnowledgeItem :=
  filter (λ item, typeMatch (typeFilter l) item && searchMatch (searchQuery l) item)
    (knowledgeItems l).

(** The group name of an item, when it is truthy. *)
Definition group_of (item : KnowledgeItem) : option string :=
  truthy (Item.group_name (Item.metadata item)).

(** Line 360. *)
Definition group_id (groupName : string) : string :=
  "group_" +:+ replace_space_runs false groupName.

(** [n || 0] *)
Definition or_zero (n : option Z) : Z := default 0 n.

(** Lines 359-372: the group opened by its first item. *)
Definition new_group (groupName : string) (item : KnowledgeItem)
    : GroupedKnowledgeItem :=
  {| Group.id := group_id groupName;
     Group.title := groupName;
     Group.domain := groupName;
     Group.items := [item];
     Group.metadata :=
       {| Item.knowledge_type := Item.knowledge_type (Item.metadata item);
          Item.description := Item.description (Item.metadata item);
          Item.tags := Item.tags (Item.metadata item);
          Item.group_name := Item.group_name (Item.metadata item);
          Item.source_type := "group";
          Item.chunks_count := Some (or_zero (Item.chunks_count (Item.metadata item)));
          Item.word_count := Some (or_zero (Item.word_count (Item.metadata item))) |};
     Group.created_at := Item.created_at item;
     Group.updated_at := Item.updated_at item |}.

(** [existingGroup.items.push(item)] *)
Definition push_item (item : KnowledgeItem) (g : GroupedKnowledgeItem)
    : GroupedKnowledgeItem :=
  {| Group.id := Group.id g; Group.title := Group.title g;
     Group.domain := Group.domain g; Group.items := Group.items g ++ [item];
     Group.metadata := Group.metadata g; Group.created_at := Group.created_at g;
     Group.updated_at := Group.updated_at g |}.

(** The body of the [reduce] of line 354, for an item and its group name. *)
Definition add_to_groups (groups : list GroupedKnowledgeItem)
    (named : KnowledgeItem * string) : list GroupedKnowledgeItem :=
  let item := named.1 in
  let groupName := named.2 in
  match list_find (λ g, Group.title g = groupName) groups with
  | Some (i, existingGroup) => <[i := push_item item existingGroup]> groups
  | None => groups ++ [new_group groupName item]
  end.

(** The items line 353 lets through, each with its group name. *)
Definition named_items (items : list KnowledgeItem) : list (KnowledgeItem * string) :=
  omap (λ item, (λ groupName, (item, groupName)) <$> group_of item) items.

Definition group_items (items : list KnowledgeItem) : list GroupedKnowledgeItem :=
  foldl add_to_groups [] (named_items items).

Definition groupedItems (l : Library) : list GroupedKnowledgeItem :=
  match viewMode l with
  | grid => group_items (filteredItems l)
  | table => []
  end.

Definition ungroupedItems (l : Library) : list KnowledgeItem :=
  match viewMode l with
  | grid => filter (λ item, group_of item = None) (filteredItems l)
  | table => []
  end.

(** *** Selection (lines 405-451 and 479-494) *)

(** [set.has(x)], [set.add(x)] and [set.delete(x)] *)
Definition Set_has (x : string) (s : list string) : bool := bool_decide (x ∈ s).

Definition Set_add (x : string) (s : list string) : list string :=
  if Set_has x s then s else s ++ [x].

Definition Set_delete (x : string) (s : list string) : list string :=
  filter (λ y, y ≠ x) s.

(** [new Set(iterable)] *)
Definition new_Set (xs : list string) : list string :=
  foldl (λ s x, Set_add x s) [] xs.

Definition toggleSelectionMode (l : Library) : Library :=
  let l' := set_isSelectionMode (negb (isSelectionMode l)) l in
  if isSelectionMode l
  then set_lastSelectedIndex None (set_selectedItems [] l')
  else l'.

(** The click of lines 413-441, with the modifier keys of the event. *)
Definition toggleItemSelection (itemId : string) (index : nat)
    (shiftKey ctrlKey metaKey : bool) (l : Library) : Library :=
  let newSelected := selectedItems l in
  let toggled :=
    if Set_has itemId newSelected then Set_delete itemId newSelected
    else Set_add itemId newSelected in
  let newSelected :=
    match shiftKey, lastSelectedIndex l with
    | true, Some lastSelectedIndex =>
        let start := Nat.min lastSelectedIndex index in
        let end_ := Nat.max lastSelectedIndex index in
        foldl (λ s i, match filteredItems l !! i with
                      | Some item => Set_add (Item.id item) s
                      | None => s
                      end)
          newSelected (seq start (S end_ - start))
    | _, _ => if ctrlKey || metaKey then toggled else toggled
    end in
  set_lastSelectedIndex (Some index) (set_selectedItems newSelected l).

Definition selectAll (l : Library) : Library :=
  set_selectedItems (new_Set (Item.id <$> filteredItems l)) l.

Definition deselectAll (l : Library) : Library :=
  set_lastSelectedIndex None (set_selectedItems [] l).

(** The listener of lines 480-490. *)
Definition handleKeyDown (ctrlKey metaKey : bool) (key : string) (l : Library)
    : Library :=
  let l' :=
    if (ctrlKey || metaKey) && bool_decide (key = "a") && isSelectionMode l
    then selectAll l else l in
  if bool_decide (key = "Escape") && isSelectionMode l
  then toggleSelectionMode l' else l'.

(** *** Deleting (lines 453-477 and 595-620) *)

Definition resolves {A} (r : ApiResult A) : bool :=
  match r with
  | Resolves _ => true
  | Rejects => false
  end.

(** [`${count} ... item${count > 1 ? 's' : ''}`] *)
Definition plural (count : nat) : string :=
  if bool_decide (1 < count)%nat then "s" else "".

(** Lines 453-477.  [confirmed] is the answer of [window.confirm]; [answer]
    is the outcome of [knowledgeBaseService.deleteKnowledgeItem] for an id. *)
Definition deleteSelectedItems (confirmed : bool)
    (answer : string → ApiResult (option string)) (l : Library) : Library :=
  if bool_decide (length (selectedItems l) = 0%nat) then l
  else
    let count := length (selectedItems l) in
    let l1 :=
      request (window_confirm ("Are you sure you want to delete " +:+ pretty count
                               +:+ " selected item" +:+ plural count +:+ "?")) l in
    if negb confirmed then l1
    else
      let l2 := foldl (λ q itemId, request (deleteKnowledgeItem itemId) q) l1
                  (selectedItems l) in
      if forallb (λ itemId, resolves (answer itemId)) (selectedItems l)
      then
        request (toast ("Successfully deleted " +:+ pretty count +:+ " item"
                        +:+ plural count) "success")
          (set_isSelectionMode false
             (set_selectedItems []
                (set_knowledgeItems
                   (filter (λ item, Set_has (Item.id item) (selectedItems l) = false)
                      (knowledgeItems l2))
                   l2)))
      else request (toast "Failed to delete some items" "error") l2.

(** The loop of lines 603-606: one awaited call per item; a rejection ends
    it. *)
Fixpoint delete_each (answer : string → ApiResult (option string))
    (items : list KnowledgeItem) (deletedIds : list string) (l : Library)
    : completion (list string) * Library :=
  match items with
  | [] => (Normal deletedIds, l)
  | item :: rest =>
      let l' := request (deleteKnowledgeItem (Item.source_id item)) l in
      match answer (Item.source_id item) with
      | Resolves _ => delete_each answer rest (deletedIds ++ [Item.source_id item]) l'
      | Rejects => (Throw Rejection, l')
      end
  end.

(** Line 597: the group name a group id is read as. *)
Definition group_name_of (sourceId : string) : string :=
  replace_underscores (replace_first "group_" "" sourceId).

(** Lines 595-620.  [answer] gives, for an id, the [message] of the result
    of [knowledgeBaseService.deleteKnowledgeItem], or its rejection. *)
Definition handleDeleteItem (sourceId : string)
    (answer : string → ApiResult (option string)) (l : Library) : Library :=
  if startsWith sourceId "group_"
  then
    let groupName := group_name_of sourceId in
    match list_find (λ g, Group.title g = groupName) (groupedItems l) with
    | Some (_, group) =>
        match delete_each answer (Group.items group) [] l with
        | (Normal deletedIds, l') =>
            request (toast ("Deleted " +:+ pretty (length (Group.items group))
                            +:+ " items from group " +:+ dquote +:+ groupName
                            +:+ dquote) "success")
              (set_knowledgeItems
                 (filter (λ item, Item.source_id item ∉ deletedIds)
                    (knowledgeItems l'))
                 l')
        | (Throw _, l') => request (toast "Failed to delete item" "error") l'
        end
    | None => l
    end
  else
    let l' := request (deleteKnowledgeItem sourceId) l in
    match answer sourceId with
    | Resolves result =>
        request (toast (default "Item deleted" (truthy result)) "success")
          (set_knowledgeItems
             (filter (λ item, Item.source_id item ≠ sourceId) (knowledgeItems l'))
             l')
    | Rejects => request (toast "Failed to delete item" "error") l'
    end.

(** *** What the proofs speak of *)

(** A group name that survives the way through a group id: no underscore,
    and no white space but single spaces.  [after_space] says that the
    character before was a space. *)
Fixpoint plain_from (after_space : bool) (s : string) : bool :=
  match s with
  | EmptyString => true
  | String c s' =>
      if is_space c
      then bool_decide (c = " "%char) && negb after_space && plain_from true s'
      else negb (bool_decide (c = "_"%char)) && plain_from false s'
  end.

Definition plain (groupName : string) : Prop := plain_from false groupName = true.

(** The number of items shown in groups. *)
Definition grouped_count (groups : list GroupedKnowledgeItem) : nat :=
  sum_list (length ∘ Group.items <$> groups).

(** The library after the requests [rs] were made. *)
Definition requested (rs : list Request) (l : Library) : Library :=
  {| knowledgeItems := knowledgeItems l; loading := loading l;
     totalItems := totalItems l; viewMode := viewMode l;
     searchQuery := searchQuery l; typeFilter := typeFilter l;
     selectedItems := selectedItems l; isSelectionMode := isSelectionMode l;
     lastSelectedIndex := lastSelectedIndex l;
     requests := requests l ++ rs |}.

(** The calls that delete the items [items] by their source ids. *)
Definition deletions (items : list KnowledgeItem) : list Request :=
  (λ item, deleteKnowledgeItem (Item.source_id item)) <$> items.

(** The items the loop of line 603 asks the service to delete: all up to
    the first whose deletion is rejected, that one included. *)
Fixpoint called (answer : string → ApiResult (option string))
    (items : list KnowledgeItem) : list KnowledgeItem :=
  match items with
  | [] => []
  | item :: rest =>
      item :: if resolves (answer (Item.source_id item)) then called answer rest
              else []
  end.

(** Every deletion of the items is accepted. *)
Definition all_resolve (answer : string → ApiResult (option string))
    (items : list KnowledgeItem) : bool :=
  forallb (λ item, resolves (answer (Item.source_id item))) items.

(** The toast of line 609. *)
Definition group_deleted (g : GroupedKnowledgeItem) (groupName : string)
    : Request :=
  toast ("Deleted " +:+ pretty (length (Group.items g))
         +:+ " items from group " +:+ dquote +:+ groupName +:+ dquote)
    "success".

(** The question of line 457. *)
Definition delete_question (count : nat) : Request :=
  window_confirm ("Are you sure you want to delete " +:+ pretty count
                  +:+ " selected item" +:+ plural count +:+ "?").

(** The ids of the shown items between two positions, both included. *)
Definition in_range (l : Library) (first last : nat) (x : string) : Prop :=
  ∃ i item, (first ≤ i ≤ last)%nat ∧ filteredItems l !! i = Some item
            ∧ Item.id item = x.

(** *** Example library *)

Definition docs_metadata (group : option string) : KnowledgeItemMetadata :=
  {| Item.knowledge_type := "technical"; Item.description := None;
     Item.tags := Some ["Docs"]; Item.group_name := group;
     Item.source_type := "url"; Item.chunks_count := None;
     Item.word_count := Some 120 |}.

Definition docs_item (id : string) (group : option string) : KnowledgeItem :=
  {| Item.id := id; Item.title := "Guide " +:+ id; Item.url := None;
     Item.source_id := "src-" +:+ id; Item.metadata := docs_metadata group;
     Item.created_at := "2025-01-01"; Item.updated_at := "2025-01-02" |}.

(** Four items: two in the group "API docs", one in "my_notes", one alone. *)
Definition docs_library : Library :=
  {| knowledgeItems := [docs_item "a" (Some "API docs"); docs_item "b" None;
                        docs_item "c" (Some "API docs");
                        docs_item "d" (Some "my_notes")];
     loading := false; totalItems := 4; viewMode := grid; searchQuery := "";
     typeFilter := "all"; selectedItems := []; isSelectionMode := true;
     lastSelectedIndex := None; requests := [] |}.

(** What the [reduce] of line 354 has made of the items [named] it has seen:
    one group per name, in the order the names first occur, each with the
    items of its name in their order. *)
Definition grouped (named : list (KnowledgeItem * string))
    (groups : list GroupedKnowledgeItem) : Prop :=
  NoDup (Group.title <$> groups) ∧
  (∀ g, g ∈ groups →
        Group.items g = (filter (λ p, p.2 = Group.title g) named).*1 ∧
        Group.items g ≠ [] ∧
        Group.id g = group_id (Group.title g)) ∧
  (∀ p, p ∈ named → ∃ g, g ∈ groups ∧ Group.title g = p.2) ∧
  grouped_count groups = length named.

(** The service accepts every deletion and answers without a message. *)
Definition accepts : string → ApiResult (option string) := λ _, Resolves None.

(** The service rejects the deletion of one source id. *)
Definition rejects (sourceId : string) : string → ApiResult (option string) :=
  λ x, if decide (x = sourceId) then Rejects else Resolves None.

(** The group of "API docs" in [docs_library]. *)
Definition api_docs_group : GroupedKnowledgeItem :=
  push_item (docs_item "c" (Some "API docs"))
    (new_group "API docs" (docs_item "a" (Some "API docs"))).

Definition my_notes_group : GroupedKnowledgeItem :=
  new_group "my_notes" (docs_item "d" (Some "my_notes")).

(** [docs_library] with the items "a" and "b" selected, "a" clicked last. *)
Definition docs_selection : Library :=
  set_lastSelectedIndex (Some 0%nat) (set_selectedItems ["b"; "a"] docs_library).

(** * Properties *)

(** ** Keys of the storage *)

Lemma crawl_progress_key_inj a b :
  crawl_progress_key a = crawl_progress_key b → a = b.
Proof. unfold crawl_progress_key. apply String.app_inj. Qed.

Lemma crawl_progress_key_active id : crawl_progress_key id ≠ active_crawls_key.
Proof. unfold crawl_progress_key, active_crawls_key. simpl. discriminate. Qed.

Global Arguments crawl_progress_key : simpl never.
Global Arguments active_crawls_key : simpl never.

(** ** The map behind the setter *)

Section unique_items_facts.
Implicit Types (m acc : list (string * CrawlProgressData)).
Implicit Types (items : list CrawlProgressData).

Lemma Map_set_keys k v m :
  (Map_set k v m).*1 = if decide (k ∈ m.*1) then m.*1 else m.*1 ++ [k].
Proof.
  induction m as [|[k' v'] m IH].
  - rewrite decide_False; [done | apply not_elem_of_nil].
  - cbn [Map_set]. rewrite fmap_cons. cbn [fst].
    destruct (decide (k' = k)) as [->|Hne].
    + rewrite fmap_cons, decide_True; [done | left].
    + rewrite fmap_cons, IH. cbn [fst].
      destruct (decide (k ∈ m.*1)) as [Hin|Hnin].
      * rewrite decide_True; [done | by right].
      * rewrite decide_False; [done |].
        intros [?|?]%elem_of_cons; congruence.
Qed.

Lemma Map_set_length k v m :
  length (Map_set k v m)
  = if decide (k ∈ m.*1) then length m else S (length m).
Proof.
  rewrite <- (length_fmap fst (Map_set k v m)), Map_set_keys.
  destruct (decide (k ∈ m.*1)); rewrite ?length_app, length_fmap; simpl; lia.
Qed.

Lemma Map_set_NoDup k v m : NoDup m.*1 → NoDup (Map_set k v m).*1.
Proof.
  intros Hm. rewrite Map_set_keys. destruct (decide (k ∈ m.*1)); [done |].
  apply NoDup_app. split_and!; [done | | apply NoDup_singleton].
  intros x Hx ->%list_elem_of_singleton. done.
Qed.

Lemma Map_set_elem k v m e : e ∈ Map_set k v m → e = (k, v) ∨ e ∈ m.
Proof.
  induction m as [|[k' v'] m IH]; simpl.
  - intros ->%list_elem_of_singleton. by left.
  - destruct (decide (k' = k)) as [->|Hne].
    + intros [->|?]%elem_of_cons; [by left | right; by right].
    + intros [->|He]%elem_of_cons; [right; left |].
      destruct (IH He) as [->|?]; [by left | right; by right].
Qed.

Lemma Map_set_new k v m : (k, v) ∈ Map_set k v m.
Proof.
  induction m as [|[k' v'] m IH]; simpl; [left |].
  destruct (decide (k' = k)) as [->|Hne]; [left | by right].
Qed.

Lemma Map_set_keyed k v m :
  progressId v = k → keyed m → keyed (Map_set k v m).
Proof.
  intros Hv Hm. apply Forall_forall. intros e He.
  destruct (Map_set_elem _ _ _ _ He) as [->|Hin]; [done |].
  by apply (proj1 (Forall_forall _ _) Hm).
Qed.

Lemma fill_snoc acc items x :
  fill acc (items ++ [x]) = Map_set (progressId x) x (fill acc items).
Proof. unfold fill, entries. by rewrite fmap_app, foldl_app. Qed.

Lemma fill_cons acc items x :
  fill acc (x :: items) = fill (Map_set (progressId x) x acc) items.
Proof. done. Qed.

Lemma fill_NoDup acc items : NoDup acc.*1 → NoDup (fill acc items).*1.
Proof.
  revert acc. induction items as [|x items IH]; intros acc Hacc; [done |].
  rewrite fill_cons. by apply IH, Map_set_NoDup.
Qed.

Lemma fill_keyed acc items : keyed acc → keyed (fill acc items).
Proof.
  revert acc. induction items as [|x items IH]; intros acc Hacc; [done |].
  rewrite fill_cons. by apply IH, Map_set_keyed.
Qed.

Lemma fill_elem acc items e :
  e ∈ fill acc items → e ∈ acc ∨ e ∈ entries items.
Proof.
  revert acc. induction items as [|x items IH]; intros acc; [by left |].
  rewrite fill_cons. intros [He|He]%IH.
  - destruct (Map_set_elem _ _ _ _ He) as [->|?]; [right; left | by left].
  - right. by right.
Qed.

Lemma fill_keys acc items k :
  k ∈ (fill acc items).*1 ↔ k ∈ acc.*1 ∨ k ∈ progressId <$> items.
Proof.
  revert acc. induction items as [|x items IH]; intros acc.
  - simpl. split; [by left | intros [?|?%elem_of_nil]; done].
  - rewrite fill_cons, IH, Map_set_keys, fmap_cons, elem_of_cons.
    destruct (decide (progressId x ∈ acc.*1)) as [Hin|Hnin].
    + split; [intros [?|?]; auto | intros [?|[->|?]]; auto].
    + rewrite elem_of_app, list_elem_of_singleton. tauto.
Qed.

Lemma fill_fresh acc items :
  NoDup (progressId <$> items) →
  (∀ k, k ∈ acc.*1 → k ∉ progressId <$> items) →
  fill acc items = acc ++ entries items.
Proof.
  revert acc. induction items as [|x items IH]; intros acc Hnd Hacc.
  - simpl. by rewrite app_nil_r.
  - rewrite fmap_cons in Hnd. apply NoDup_cons in Hnd as [Hx Hnd].
    assert (Map_set (progressId x) x acc = acc ++ [(progressId x, x)]) as Hset.
    { assert (progressId x ∉ acc.*1) as Hfresh.
      { intros Hin. apply (Hacc _ Hin). rewrite fmap_cons. left. }
      clear -Hfresh. induction acc as [|[k v] acc IH]; [done |].
      simpl in *. apply not_elem_of_cons in Hfresh as [Hne Hfresh].
      rewrite decide_False by done. by rewrite IH. }
    rewrite fill_cons, Hset, IH; [by rewrite <- app_assoc | done |].
    intros k. rewrite fmap_app, elem_of_app. simpl.
    rewrite list_elem_of_singleton. intros [Hk| ->]; [| done].
    intros Hin. apply (Hacc _ Hk). rewrite fmap_cons. by right.
Qed.

Lemma keyed_ids m : keyed m → progressId <$> m.*2 = m.*1.
Proof.
  induction 1 as [|[k v] m Hkv _ IH]; [done |].
  rewrite !fmap_cons. cbn [fst snd] in *. by rewrite Hkv, IH.
Qed.

Lemma unique_items_fill items : unique_items items = (fill [] items).*2.
Proof. done. Qed.

Lemma ids_unique_items items :
  ids_of (unique_items items) = (fill [] items).*1.
Proof.
  unfold ids_of. rewrite unique_items_fill. apply keyed_ids, fill_keyed.
  constructor.
Qed.

Lemma unique_items_NoDup items : NoDup (ids_of (unique_items items)).
Proof. rewrite ids_unique_items. apply fill_NoDup. constructor. Qed.

Lemma unique_items_elem items x : x ∈ unique_items items → x ∈ items.
Proof.
  rewrite unique_items_fill. intros ([k v] & -> & He)%list_elem_of_fmap.
  destruct (fill_elem _ _ _ He) as [?%elem_of_nil|Hin]; [done |].
  apply list_elem_of_fmap in Hin as (y & [= -> ->] & Hy). done.
Qed.

Lemma unique_items_ids items id :
  id ∈ ids_of (unique_items items) ↔ id ∈ ids_of items.
Proof.
  rewrite ids_unique_items, fill_keys. simpl. unfold ids_of.
  split; [intros [?%elem_of_nil|?]; done | by right].
Qed.

Lemma unique_items_id items :
  NoDup (ids_of items) → unique_items items = items.
Proof.
  intros Hnd. rewrite unique_items_fill, fill_fresh; [| done |].
  - simpl. unfold entries. rewrite <- list_fmap_compose. apply list_fmap_id.
  - intros k ?%elem_of_nil. done.
Qed.

Lemma unique_items_snoc items x :
  unique_items (items ++ [x])
  = (Map_set (progressId x) x (fill [] items)).*2.
Proof. by rewrite unique_items_fill, fill_snoc. Qed.

Lemma unique_items_length items :
  (length (unique_items items) ≤ length items)%nat.
Proof.
  induction items as [|x items IH] using rev_ind; [done |].
  rewrite unique_items_snoc, length_fmap, Map_set_length, length_app.
  rewrite unique_items_fill, length_fmap in IH. simpl.
  destruct (decide _); lia.
Qed.

Lemma unique_items_last items x : x ∈ unique_items (items ++ [x]).
Proof.
  rewrite unique_items_snoc.
  apply (list_elem_of_fmap_2 snd _ (progressId x, x)), Map_set_new.
Qed.

(** Among items with pairwise distinct ids, the id determines the item. *)
Lemma NoDup_ids_eq items x y :
  NoDup (ids_of items) → x ∈ items → y ∈ items →
  progressId x = progressId y → x = y.
Proof.
  unfold ids_of. induction items as [|z items IH]; [by intros _ ?%elem_of_nil |].
  rewrite fmap_cons, NoDup_cons. intros [Hz Hnd] Hx Hy Hxy.
  apply elem_of_cons in Hx as [->|Hx], Hy as [->|Hy]; [done | | | by apply IH].
  - destruct Hz. rewrite Hxy. by apply list_elem_of_fmap_2.
  - destruct Hz. rewrite <- Hxy. by apply list_elem_of_fmap_2.
Qed.
End unique_items_facts.

(** ** Reading and rewriting the stored list *)

Lemma stored_ids_insert_list storage ids :
  stored_ids (<[active_crawls_key := Stringified (JArray ids)]> storage) = Some ids.
Proof. unfold stored_ids. by rewrite lookup_insert_eq. Qed.

Lemma stored_ids_delete_snapshot storage id :
  stored_ids (delete (crawl_progress_key id) storage) = stored_ids storage.
Proof.
  unfold stored_ids. rewrite lookup_delete_ne; [done |].
  apply crawl_progress_key_active.
Qed.

Lemma stored_ids_insert_snapshot storage id v :
  stored_ids (<[crawl_progress_key id := v]> storage) = stored_ids storage.
Proof.
  unfold stored_ids. rewrite lookup_insert_ne; [done |].
  apply crawl_progress_key_active.
Qed.

Lemma remove_from_active_crawls_run id p ids :
  active_crawls p = Some ids →
  remove_from_active_crawls id p
  = (Normal tt,
     set_trace (trace p ++ [storageSetItem active_crawls_key
                              (Stringified (JArray (filter (λ x, x ≠ id) ids)))])
       (set_localStorage
          (<[active_crawls_key := Stringified (JArray (filter (λ x, x ≠ id) ids))]>
             (localStorage p)) p)).
Proof.
  unfold active_crawls, stored_ids, remove_from_active_crawls, bind, getItem.
  intros H. destruct (or_text _ _) as [| |[]]; try done.
  injection H as ->. done.
Qed.

(** ** Running a handler step by step *)

Lemma bind_normal {A B} (m : M A) (k : A → M B) p a p' :
  m p = (Normal a, p') → bind m k p = k a p'.
Proof. unfold bind. by intros ->. Qed.

Lemma bind_throw {A B} (m : M A) (k : A → M B) p e p' :
  m p = (Throw e, p') → bind m k p = (Throw e, p').
Proof. unfold bind. by intros ->. Qed.

Lemma bind_bind {A B C} (m : M A) (k : A → M B) (k' : B → M C) p :
  bind (bind m k) k' p = bind m (λ a, bind (k a) k') p.
Proof. unfold bind. by destruct (m p) as [[]]. Qed.

Lemma try_catch_normal {A} (body handler : M A) p a p' :
  body p = (Normal a, p') → try_catch body handler p = (Normal a, p').
Proof. unfold try_catch. by intros ->. Qed.

Lemma try_catch_throw {A} (body handler : M A) p e p' :
  body p = (Throw e, p') → try_catch body handler p = handler p'.
Proof. unfold try_catch. by intros ->. Qed.

Lemma setProgressItems_pure (f : list CrawlProgressData → list CrawlProgressData) p :
  setProgressItems (Function (λ prev, ret (f prev))) p
  = (Normal tt, set_progressItems (unique_items (f (progressItems p))) p).
Proof. done. Qed.

Lemma setProgressItems_items v p :
  setProgressItems (Items v) p
  = (Normal tt, set_progressItems (unique_items v) p).
Proof. done. Qed.

(** The stored list after the page's own changes to the storage. *)
Ltac read_stored :=
  unfold active_crawls in *; cbn [localStorage set_trace set_localStorage
    set_progressItems set_showCrawlingTab set_timers set_clock fst snd];
  rewrite ?stored_ids_delete_snapshot, ?stored_ids_insert_snapshot,
    ?stored_ids_insert_list;
  first [eassumption | reflexivity].

(** One statement of a handler. *)
Ltac mstep :=
  rewrite ?bind_bind;
  first
    [ erewrite (bind_normal (remove_from_active_crawls _));
      [| apply remove_from_active_crawls_run; read_stored]
    | erewrite (bind_normal (setProgressItems _));
      [| apply setProgressItems_pure]
    | erewrite bind_normal; [| reflexivity] ].

Lemma handleProgressComplete_run data p ids :
  active_crawls p = Some ids →
  handleProgressComplete data p
  = (Normal tt,
     let filtered :=
       filter (λ item, progressId item ≠ progressId data) (progressItems p) in
     let updated := filter (λ x, x ≠ progressId data) ids in
     {| progressItems := unique_items filtered;
        showCrawlingTab :=
          if bool_decide (length filtered = 0%nat) then false
          else showCrawlingTab p;
        localStorage :=
          <[active_crawls_key := Stringified (JArray updated)]>
            (delete (crawl_progress_key (progressId data)) (localStorage p));
        clock := clock p;
        timers := timers p;
        trace :=
          trace p ++ [storageRemoveItem (crawl_progress_key (progressId data));
                      storageSetItem active_crawls_key (Stringified (JArray updated));
                      showToast (success_message data) "success";
                      loadKnowledgeItems] |}).
Proof.
  intros H. unfold handleProgressComplete. do 3 mstep.
  unfold bind, setProgressItems, setProgressItemsRaw, bind, when, emit, ret.
  destruct p as [items tab storage now ts tr]. cbn in *.
  case_bool_decide; cbn; by rewrite <- !app_assoc.
Qed.

(** When the stored list cannot be read, the three shared lines throw at
    [JSON.parse] or at [filter], before they write. *)
Lemma remove_from_active_crawls_unreadable id p :
  active_crawls p = None →
  ∃ e, remove_from_active_crawls id p = (Throw e, p).
Proof.
  unfold active_crawls, stored_ids, remove_from_active_crawls. intros H.
  mstep. destruct (or_text _ _) as [| |[]]; try done; by eexists.
Qed.

Lemma handleProgressComplete_cut data p :
  active_crawls p = None →
  ∃ e, handleProgressComplete data p
       = (Throw e,
          set_trace (trace p ++ [storageRemoveItem
                                   (crawl_progress_key (progressId data))])
            (set_localStorage
               (delete (crawl_progress_key (progressId data)) (localStorage p))
               p)).
Proof.
  intros H. unfold handleProgressComplete. mstep.
  set (q := set_trace _ _).
  destruct (remove_from_active_crawls_unreadable (progressId data) q) as [e He].
  { subst q. unfold active_crawls in *. cbn. by rewrite stored_ids_delete_snapshot. }
  exists e. by erewrite bind_throw; [| exact He].
Qed.

(** ** Counting effects *)

Lemma refreshes_app t t' : refreshes (t ++ t') = (refreshes t + refreshes t')%nat.
Proof. unfold refreshes. by rewrite filter_app, length_app. Qed.

Lemma list_writes_app t t' :
  list_writes (t ++ t') = (list_writes t + list_writes t')%nat.
Proof. unfold list_writes. by rewrite filter_app, length_app. Qed.

Lemma filtered_id_gone id items :
  id ∉ ids_of (unique_items (filter (λ item, progressId item ≠ id) items)).
Proof.
  rewrite unique_items_ids. unfold ids_of.
  intros (y & -> & [Hy _]%list_elem_of_filter)%list_elem_of_fmap. done.
Qed.

Lemma filtered_out id (ids : list string) : id ∉ filter (λ x, x ≠ id) ids.
Proof. by intros [? _]%list_elem_of_filter. Qed.

(** ** Completion (C1) *)

(** C1 as stated fails: the completion handler reloads the knowledge items on
    every invocation, so two invocations in a row for the tracked id "job-1"
    reload them twice, not once. *)
Lemma handleProgressComplete_twice_refreshes_twice :
  let p2 := exec (handleProgressComplete job1)
              (exec (handleProgressComplete job1) job1_page) in
  "job-1" ∈ ids_of (progressItems job1_page) ∧
  refreshes (trace job1_page) = 0%nat ∧
  refreshes (trace p2) = 2%nat ∧
  refreshes (trace p2) ≠ 1%nat.
Proof. vm_compute. split_and!; [| done | done | done]. left. Qed.

(** C1, amended: when the stored list of active ids can be read, every
    invocation of the completion handler reloads the knowledge items once (two
    invocations in a row reload them twice), and after either invocation the
    tracked list has no entry for the id, the storage has no snapshot for it
    and the stored list of active ids does not contain it.  When the stored
    list cannot be read, each invocation throws after it removed the snapshot:
    the knowledge items are not reloaded, and the tracked list and the stored
    list are left as they were. *)
Theorem handleProgressComplete_twice data p :
  let id := progressId data in
  let p1 := exec (handleProgressComplete data) p in
  let p2 := exec (handleProgressComplete data) p1 in
  (∀ ids, active_crawls p = Some ids →
     returns (handleProgressComplete data) p ∧
     returns (handleProgressComplete data) p1 ∧
     refreshes (trace p1) = S (refreshes (trace p)) ∧
     refreshes (trace p2) = S (S (refreshes (trace p))) ∧
     (snapshot p1 id = None ∧ (id ∉ ids_of (progressItems p1)) ∧
      active_crawls p1 = Some (filter (λ x, x ≠ id) ids)) ∧
     (snapshot p2 id = None ∧ (id ∉ ids_of (progressItems p2)) ∧
      ∃ ids2, active_crawls p2 = Some ids2 ∧ id ∉ ids2)) ∧
  (active_crawls p = None →
     ¬ returns (handleProgressComplete data) p ∧
     ¬ returns (handleProgressComplete data) p1 ∧
     refreshes (trace p1) = refreshes (trace p) ∧
     refreshes (trace p2) = refreshes (trace p) ∧
     (snapshot p1 id = None ∧ progressItems p1 = progressItems p ∧
      list_entry p1 = list_entry p) ∧
     (snapshot p2 id = None ∧ progressItems p2 = progressItems p ∧
      list_entry p2 = list_entry p)).
Proof.
  intros id p1 p2. split.
  - intros ids H.
    assert (active_crawls p1 = Some (filter (λ x, x ≠ id) ids)) as H1.
    { subst p1. unfold exec. rewrite (handleProgressComplete_run _ _ _ H).
      read_stored. }
    subst p2. subst p1. unfold exec, returns in *.
    rewrite (handleProgressComplete_run _ _ _ H1).
    rewrite (handleProgressComplete_run _ _ _ H) in *.
    cbn [fst snd progressItems trace localStorage snapshot].
    rewrite !refreshes_app. change (refreshes [_; _; _; _]) with 1%nat.
    split_and!; eauto using filtered_id_gone; try lia.
    + unfold snapshot; cbn. rewrite lookup_insert_ne, lookup_delete_eq; [done |].
      intros Heq. by apply (crawl_progress_key_active id).
    + unfold snapshot; cbn. rewrite lookup_insert_ne, lookup_delete_eq; [done |].
      intros Heq. by apply (crawl_progress_key_active id).
    + eexists. split; [read_stored |]. apply filtered_out.
  - intros H.
    destruct (handleProgressComplete_cut data p H) as [e He].
    assert (active_crawls p1 = None) as H1.
    { subst p1. unfold exec. rewrite He. unfold active_crawls in *. cbn.
      by rewrite stored_ids_delete_snapshot. }
    destruct (handleProgressComplete_cut data p1 H1) as [e1 He1].
    subst p2. unfold exec, returns in *. rewrite He1. subst p1.
    rewrite He. cbn [fst snd trace set_trace set_localStorage localStorage
                     progressItems].
    rewrite !refreshes_app. change (refreshes [storageRemoveItem _]) with 0%nat.
    unfold snapshot, list_entry.
    cbn [localStorage set_trace set_localStorage].
    rewrite !lookup_delete_eq.
    rewrite !lookup_delete_ne by apply crawl_progress_key_active.
    split_and!; try done; try lia; by intros [? ?].
Qed.

(** The amended C1 at the page that tracks "job-1", and at the same page with
    an unreadable list. *)
Lemma handleProgressComplete_twice_witness :
  let p1 := exec (handleProgressComplete job1) job1_page in
  let p2 := exec (handleProgressComplete job1) p1 in
  let q2 := exec (handleProgressComplete job1)
              (exec (handleProgressComplete job1) corrupted_page) in
  (returns (handleProgressComplete job1) job1_page ∧
   returns (handleProgressComplete job1) p1 ∧
   refreshes (trace p1) = S (refreshes (trace job1_page)) ∧
   refreshes (trace p2) = S (S (refreshes (trace job1_page))) ∧
   (snapshot p1 "job-1" = None ∧ ("job-1" ∉ ids_of (progressItems p1)) ∧
    active_crawls p1 = Some (filter (λ x, x ≠ "job-1") ["job-1"])) ∧
   (snapshot p2 "job-1" = None ∧ ("job-1" ∉ ids_of (progressItems p2)) ∧
    ∃ ids2, active_crawls p2 = Some ids2 ∧ "job-1" ∉ ids2)) ∧
  refreshes (trace q2) = refreshes (trace corrupted_page).
Proof.
  split.
  - apply (handleProgressComplete_twice job1 job1_page). reflexivity.
  - apply (handleProgressComplete_twice job1 corrupted_page). reflexivity.
Defined.

(** ** Timers *)

Lemma fire_run q t :
  fire q t
  = {| progressItems :=
         unique_items (filter (λ item, progressId item ≠ task_progressId t.2)
                         (progressItems q));
       showCrawlingTab :=
         if bool_decide (task_items_length t.2 = 1%nat) then false
         else showCrawlingTab q;
       localStorage := localStorage q; clock := clock q; timers := timers q;
       trace := trace q |}.
Proof.
  unfold fire, exec, run_task. mstep. unfold when.
  destruct q. by case_bool_decide.
Qed.

Lemma elapse_fire ms p :
  elapse ms p
  = foldl fire
      (set_timers (filter (λ t, ¬ due (clock p + ms) t) (timers p))
         (set_clock (clock p + ms) p))
      (filter (due (clock p + ms)) (timers p)).
Proof. done. Qed.

Section fired_timers.
Variable ts : list (Z * TimerTask).
Variable q : Page.
Let r := foldl fire q ts.

(** Firing timers touches nothing but the tracked list and the tab. *)
Lemma fired_frame :
  localStorage r = localStorage q ∧ trace r = trace q ∧
  clock r = clock q ∧ timers r = timers q.
Proof.
  subst r. induction ts as [|t l IH] using rev_ind; [done |].
  rewrite foldl_snoc, fire_run. cbn. apply IH.
Qed.

Lemma fired_elem x : x ∈ progressItems r → x ∈ progressItems q.
Proof.
  subst r. induction ts as [|t l IH] using rev_ind; [done |].
  rewrite foldl_snoc, fire_run. cbn.
  intros [_ Hx]%unique_items_elem%list_elem_of_filter. by apply IH.
Qed.

Lemma fired_gone t : t ∈ ts → task_progressId t.2 ∉ ids_of (progressItems r).
Proof.
  subst r. induction ts as [|t' l IH] using rev_ind; [by intros ?%elem_of_nil |].
  rewrite foldl_snoc, fire_run. cbn.
  intros [Ht| ->%list_elem_of_singleton]%elem_of_app;
    [| apply filtered_id_gone].
  rewrite unique_items_ids. unfold ids_of.
  intros (y & Hy & [_ Hin]%list_elem_of_filter)%list_elem_of_fmap.
  apply (IH Ht). rewrite Hy. by apply list_elem_of_fmap_2.
Qed.

Lemma fired_kept id :
  (∀ t, t ∈ ts → task_progressId t.2 ≠ id) →
  id ∈ ids_of (progressItems q) → id ∈ ids_of (progressItems r).
Proof.
  subst r. induction ts as [|t' l IH] using rev_ind; [done |].
  intros Hne Hid. rewrite foldl_snoc, fire_run. cbn.
  rewrite unique_items_ids. unfold ids_of.
  assert (id ∈ ids_of (progressItems (foldl fire q l))) as Hin.
  { apply IH; [| done]. intros t Ht. apply Hne, elem_of_app. by left. }
  apply list_elem_of_fmap in Hin as (y & -> & Hy).
  apply list_elem_of_fmap_2, list_elem_of_filter. split; [| done].
  intros Heq. apply (Hne t'); [| done]. apply elem_of_app. right. left.
Qed.
End fired_timers.

(** Elapsing time touches neither the storage nor any service. *)
Lemma elapse_frame ms p :
  localStorage (elapse ms p) = localStorage p ∧ trace (elapse ms p) = trace p.
Proof.
  rewrite elapse_fire.
  destruct (fired_frame (filter (due (clock p + ms)) (timers p))
              (set_timers (filter (λ t, ¬ due (clock p + ms) t) (timers p))
                 (set_clock (clock p + ms) p))) as (-> & -> & _).
  done.
Qed.

Lemma truthy_Some id : id ≠ "" → truthy (Some id) = Some id.
Proof. intros H. unfold truthy. by rewrite decide_False. Qed.

(** ** Failure (C6, C9) *)

Lemma handleProgressError_run msg id p ids :
  id ≠ "" →
  active_crawls p = Some ids →
  handleProgressError msg (Some id) p
  = (Normal tt,
     let updated := filter (λ x, x ≠ id) ids in
     {| progressItems :=
          unique_items ((λ item, if decide (progressId item = id)
                                 then failed_with msg item else item)
                          <$> progressItems p);
        showCrawlingTab := showCrawlingTab p;
        localStorage :=
          <[active_crawls_key := Stringified (JArray updated)]>
            (delete (crawl_progress_key id) (localStorage p));
        clock := clock p;
        timers :=
          timers p ++ [(clock p + 5000,
                        {| task_progressId := id;
                           task_items_length := length (progressItems p) |})];
        trace :=
          trace p ++ [storageRemoveItem (crawl_progress_key id);
                      storageSetItem active_crawls_key (Stringified (JArray updated));
                      showToast ("Crawling failed: " +:+ msg) "error"] |}).
Proof.
  intros Hid H. unfold handleProgressError. mstep.
  rewrite (truthy_Some _ Hid). do 4 mstep.
  unfold emit. destruct p. cbn. by rewrite <- !app_assoc.
Qed.

(** Items rewritten where their id matches (lines 652-656, 716-720). *)
Section rewritten_items.
Variable id : string.
Variable f : CrawlProgressData → CrawlProgressData.
Hypothesis f_id : ∀ item, progressId (f item) = progressId item.

Let g := λ item, if decide (progressId item = id) then f item else item.

Lemma rewritten_ids items : ids_of (g <$> items) = ids_of items.
Proof.
  unfold ids_of. rewrite <- list_fmap_compose. apply list_fmap_ext.
  intros _ x _. subst g. cbn. by destruct (decide _).
Qed.

Lemma rewritten_tracked items :
  id ∈ ids_of items → id ∈ ids_of (unique_items (g <$> items)).
Proof. by rewrite unique_items_ids, rewritten_ids. Qed.

Lemma rewritten_elem items x :
  x ∈ unique_items (g <$> items) → progressId x = id →
  ∃ y, y ∈ items ∧ progressId y = id ∧ x = f y.
Proof.
  intros (y & -> & Hy)%unique_items_elem%list_elem_of_fmap. subst g. cbn.
  destruct (decide (progressId y = id)) as [Heq|Hne]; [| done].
  intros _. by exists y.
Qed.
End rewritten_items.

(** C9: the error handler called with a message and no job id (undefined)
    leaves the tracked list, every persisted snapshot and the persisted list
    of active ids unchanged, sets no timer, and its only effect is one toast. *)
Theorem handleProgressError_without_id msg p :
  let p' := exec (handleProgressError msg None) p in
  returns (handleProgressError msg None) p ∧
  progressItems p' = progressItems p ∧
  localStorage p' = localStorage p ∧
  (∀ id, snapshot p' id = snapshot p id) ∧
  active_crawls p' = active_crawls p ∧
  timers p' = timers p ∧
  showCrawlingTab p' = showCrawlingTab p ∧
  trace p' = trace p ++ [showToast ("Crawling failed: " +:+ msg) "error"].
Proof. cbn. split_and!; try done. by exists tt. Qed.

(** C6 as stated fails: the page tracks "job-1" over a stored list that is
    no JSON; the failure handler marks the item failed and throws at the
    list, before it sets its timer: no timer is pending, and the failed item
    is still tracked after five seconds, and after an hour. *)
Lemma handleProgressError_keeps_failed_item :
  let p1 := exec (handleProgressError "boom" (Some "job-1")) corrupted_page in
  "job-1" ∈ ids_of (progressItems corrupted_page) ∧
  progressItems p1 = [failed_with "boom" job1] ∧
  timers p1 = [] ∧
  "job-1" ∈ ids_of (progressItems (elapse 5000 p1)) ∧
  "job-1" ∈ ids_of (progressItems (elapse 3600000 p1)).
Proof. vm_compute. split_and!; [left | done | done | left | left]. Qed.

(** C6, amended: for a tracked job id that is not the empty string, the
    failure handler leaves the item in the tracked list with status failed and
    the error message and removes the persisted snapshot.  When the stored
    list of active ids can be read, it also takes the id off that list and
    returns; the item stays shown during the five seconds of grace (unless a
    timer set earlier for the same id is pending), and once 5000 ms have
    elapsed it is gone from the tracked list, the timer having touched neither
    the storage nor any service (it may hide the progress tab).  When the
    stored list cannot be read, the handler throws before it sets the timer
    and shows the toast: the list is left as it was and the failed item stays
    tracked however much time passes (unless a timer set earlier for the same
    id is pending).  For the empty string as id the handler only shows its
    toast. *)
Theorem handleProgressError_grace msg id p :
  id ∈ ids_of (progressItems p) →
  let p1 := exec (handleProgressError msg (Some id)) p in
  (id ≠ "" →
   (id ∈ ids_of (progressItems p1) ∧
    (∀ item, item ∈ progressItems p1 → progressId item = id →
             status item = Some "failed" ∧ error item = Some msg) ∧
    snapshot p1 id = None) ∧
   (∀ ids, active_crawls p = Some ids →
      returns (handleProgressError msg (Some id)) p ∧
      active_crawls p1 = Some (filter (λ x, x ≠ id) ids) ∧
      (∀ ms, 0 ≤ ms < 5000 →
             (∀ t, t ∈ timers p → task_progressId t.2 ≠ id) →
             let p' := elapse ms p1 in
             id ∈ ids_of (progressItems p') ∧
             ∀ item, item ∈ progressItems p' → progressId item = id →
                     status item = Some "failed" ∧ error item = Some msg) ∧
      (∀ ms, 5000 ≤ ms →
             let p2 := elapse ms p1 in
             (id ∉ ids_of (progressItems p2)) ∧
             localStorage p2 = localStorage p1 ∧
             trace p2 = trace p1)) ∧
   (active_crawls p = None →
      ¬ returns (handleProgressError msg (Some id)) p ∧
      list_entry p1 = list_entry p ∧
      timers p1 = timers p ∧
      trace p1 = trace p ++ [storageRemoveItem (crawl_progress_key id)] ∧
      (∀ ms, (∀ t, t ∈ timers p → task_progressId t.2 ≠ id) →
             let p' := elapse ms p1 in
             id ∈ ids_of (progressItems p') ∧
             ∀ item, item ∈ progressItems p' → progressId item = id →
                     status item = Some "failed" ∧ error item = Some msg))) ∧
  (id = "" →
   returns (handleProgressError msg (Some id)) p ∧
   progressItems p1 = progressItems p ∧
   localStorage p1 = localStorage p ∧
   timers p1 = timers p ∧
   trace p1 = trace p ++ [showToast ("Crawling failed: " +:+ msg) "error"]).
Proof.
  intros Htracked p1. split; [intros Hid | intros ->].
  2: { subst p1. cbn. split_and!; try done. by exists tt. }
  assert (∀ q, progressItems q
               = unique_items ((λ item, if decide (progressId item = id)
                                        then failed_with msg item else item)
                                 <$> progressItems p) →
               id ∈ ids_of (progressItems q) ∧
               ∀ item, item ∈ progressItems q → progressId item = id →
                       status item = Some "failed" ∧ error item = Some msg)
    as Hfailed.
  { intros q ->. split; [by apply (rewritten_tracked id (failed_with msg)) |].
    intros item Hitem Hitemid.
    apply (rewritten_elem id (failed_with msg)) in Hitem as (y & _ & _ & ->);
      done. }
  destruct (active_crawls p) as [ids|] eqn:H.
  - subst p1. unfold exec, returns.
    rewrite (handleProgressError_run _ _ _ _ Hid H). cbn [fst snd].
    set (p1 := {| progressItems := _ |}).
    destruct (Hfailed p1 eq_refl) as [Hin Hitems].
    split_and!; [done | done | | | done].
    + unfold snapshot. cbn. rewrite lookup_insert_ne, lookup_delete_eq; [done |].
      intros Heq. by apply (crawl_progress_key_active id).
    + intros ? [= <-]. split_and!.
      * by exists tt.
      * apply stored_ids_insert_list.
      * intros ms Hms Hother. rewrite elapse_fire. split.
        -- apply fired_kept; [| done].
           intros t [Hdue Ht]%list_elem_of_filter. cbn in Ht.
           apply elem_of_app in Ht as [Ht| ->%list_elem_of_singleton];
             [by eauto |].
           unfold due in Hdue. cbn in Hdue. lia.
        -- intros item Hitem%fired_elem. by apply Hitems.
      * intros ms Hms. split_and!; [| apply elapse_frame | apply elapse_frame].
        rewrite elapse_fire.
        apply (fired_gone _ _ (clock p + 5000, {| task_progressId := id;
                 task_items_length := length (progressItems p) |})).
        apply list_elem_of_filter. split; [unfold due; cbn; lia |].
        cbn. apply elem_of_app. right. left.
  - subst p1. unfold exec, returns, handleProgressError.
    mstep. rewrite (truthy_Some _ Hid). rewrite bind_bind. do 2 mstep.
    set (q := set_trace _ _).
    destruct (remove_from_active_crawls_unreadable id q) as [e He].
    { subst q. unfold active_crawls in *. cbn.
      by rewrite stored_ids_delete_snapshot. }
    rewrite ?bind_bind.
    erewrite (bind_throw (remove_from_active_crawls _)); [| exact He].
    cbn [fst snd].
    destruct (Hfailed q eq_refl) as [Hin Hitems].
    split_and!; [done | done | | done |].
    + unfold snapshot. cbn. apply lookup_delete_eq.
    + intros _. split_and!; [by intros [? ?] | | done | done |].
      * unfold list_entry. cbn.
        apply lookup_delete_ne, crawl_progress_key_active.
      * intros ms Hother. rewrite elapse_fire. split.
        -- apply fired_kept; [| done].
           intros t [_ Ht]%list_elem_of_filter. by apply Hother.
        -- intros item Hitem%fired_elem. by apply Hitems.
Qed.

(** The amended C6 at the page that tracks "job-1", failing with "boom". *)
Lemma handleProgressError_grace_witness :
  "job-1" ∈ ids_of (progressItems job1_page) ∧
  "job-1" ≠ "" ∧
  active_crawls job1_page = Some ["job-1"] ∧
  "job-1" ∉ ids_of (progressItems
                      (elapse 5000
                         (exec (handleProgressError "boom" (Some "job-1"))
                            job1_page))).
Proof.
  assert ("job-1" ∈ ids_of (progressItems job1_page)) as H1 by left.
  assert ("job-1" ≠ "") as H2 by done.
  assert (active_crawls job1_page = Some ["job-1"]) as H3 by reflexivity.
  split_and!; [done | done | done |].
  destruct (handleProgressError_grace "boom" "job-1" job1_page H1)
    as (Hnonempty & _).
  destruct (Hnonempty H2) as (_ & Hreadable & _).
  destruct (Hreadable ["job-1"] H3) as (_ & _ & _ & Hgone).
  apply (Hgone 5000). lia.
Defined.

(** ** Stop (C8) *)

Lemma handleStopProgress_resolved id p ids :
  active_crawls p = Some ids →
  handleStopProgress id (Resolves tt) p
  = (Normal tt,
     let updated := filter (λ x, x ≠ id) ids in
     {| progressItems :=
          unique_items ((λ item, if decide (progressId item = id)
                                 then with_status (Some "cancelled") item
                                 else item)
                          <$> progressItems p);
        showCrawlingTab := showCrawlingTab p;
        localStorage :=
          <[active_crawls_key := Stringified (JArray updated)]> (localStorage p);
        clock := clock p;
        timers := timers p;
        trace :=
          trace p ++ [stopCrawl id;
                      storageSetItem active_crawls_key
                        (Stringified (JArray updated))] |}).
Proof.
  intros H. unfold handleStopProgress. erewrite try_catch_normal; [done |].
  do 3 mstep. erewrite remove_from_active_crawls_run; [| read_stored].
  destruct p. cbn. by rewrite <- !app_assoc.
Qed.

Lemma handleStopProgress_rejected id p :
  handleStopProgress id Rejects p
  = (Normal tt,
     set_trace (trace p ++ [stopCrawl id;
                            showToast "Failed to stop crawl" "error"]) p).
Proof.
  unfold handleStopProgress, try_catch, bind, emit. destruct p. cbn.
  by rewrite <- !app_assoc.
Qed.

Lemma handleStopProgress_cut id p :
  active_crawls p = None →
  handleStopProgress id (Resolves tt) p
  = (Normal tt,
     {| progressItems :=
          unique_items ((λ item, if decide (progressId item = id)
                                 then with_status (Some "cancelled") item
                                 else item)
                          <$> progressItems p);
        showCrawlingTab := showCrawlingTab p;
        localStorage := localStorage p;
        clock := clock p;
        timers := timers p;
        trace :=
          trace p ++ [stopCrawl id; showToast "Failed to stop crawl" "error"] |}).
Proof.
  intros H. unfold handleStopProgress, try_catch. do 3 mstep.
  set (q := set_progressItems _ _).
  destruct (remove_from_active_crawls_unreadable id q) as [e He]; [done |].
  rewrite He. subst q. unfold emit. destruct p. cbn. by rewrite <- !app_assoc.
Qed.

(** C8 as stated fails: after a successful stop of the tracked crawl "job-1"
    no timer is pending, the cancelled item is still in the tracked list two
    seconds (and an hour) later, and its persisted snapshot is still stored. *)
Lemma handleStopProgress_keeps_cancelled_item :
  let p1 := exec (handleStopProgress "job-1" (Resolves tt)) job1_page in
  "job-1" ∈ ids_of (progressItems job1_page) ∧
  timers p1 = [] ∧
  "job-1" ∈ ids_of (progressItems (elapse 2000 p1)) ∧
  "job-1" ∈ ids_of (progressItems (elapse 3600000 p1)) ∧
  snapshot (elapse 2000 p1) "job-1" ≠ None.
Proof. vm_compute. split_and!; [left | done | left | left | done]. Qed.

(** C8, amended: the stop handler first calls the cancellation API.  When
    the call succeeds it sets the status of the item to cancelled and, if the
    stored list of active ids can be read, takes the id off that list; if the
    list cannot be read, the item is cancelled all the same, the storage is
    left as it was and the toast "Failed to stop crawl" is shown.  Either way
    the handler sets no timer and keeps the snapshot, so the cancelled item
    stays in the tracked list however much time passes (unless a timer set
    earlier for the same id removes it).  When the call fails, only the toast
    follows it. *)
Theorem handleStopProgress_cancels id p :
  id ∈ ids_of (progressItems p) →
  let p1 := exec (handleStopProgress id (Resolves tt)) p in
  let p0 := exec (handleStopProgress id Rejects) p in
  (returns (handleStopProgress id (Resolves tt)) p ∧
   (∃ rest, trace p1 = trace p ++ stopCrawl id :: rest) ∧
   id ∈ ids_of (progressItems p1) ∧
   (∀ item, item ∈ progressItems p1 → progressId item = id →
            status item = Some "cancelled") ∧
   snapshot p1 id = snapshot p id ∧
   timers p1 = timers p ∧
   (∀ ms, (∀ t, t ∈ timers p → task_progressId t.2 ≠ id) →
          id ∈ ids_of (progressItems (elapse ms p1)) ∧
          ∀ item, item ∈ progressItems (elapse ms p1) → progressId item = id →
                  status item = Some "cancelled")) ∧
  (∀ ids, active_crawls p = Some ids →
     active_crawls p1 = Some (filter (λ x, x ≠ id) ids) ∧
     trace p1
     = trace p ++ [stopCrawl id;
                   storageSetItem active_crawls_key
                     (Stringified (JArray (filter (λ x, x ≠ id) ids)))]) ∧
  (active_crawls p = None →
     localStorage p1 = localStorage p ∧
     trace p1
     = trace p ++ [stopCrawl id; showToast "Failed to stop crawl" "error"]) ∧
  (progressItems p0 = progressItems p ∧ localStorage p0 = localStorage p ∧
   timers p0 = timers p ∧
   trace p0 = trace p ++ [stopCrawl id; showToast "Failed to stop crawl" "error"]).
Proof.
  intros Htracked p1 p0.
  assert (progressItems p1
          = unique_items ((λ item, if decide (progressId item = id)
                                   then with_status (Some "cancelled") item
                                   else item)
                            <$> progressItems p) ∧
          timers p1 = timers p ∧
          returns (handleStopProgress id (Resolves tt)) p ∧
          (∃ rest, trace p1 = trace p ++ stopCrawl id :: rest) ∧
          snapshot p1 id = snapshot p id) as (Hitems & Htimers & Hret & Htrace & Hsnap).
  { subst p1. unfold exec, returns.
    destruct (active_crawls p) as [ids|] eqn:H.
    - rewrite (handleStopProgress_resolved _ _ _ H). cbn [fst snd].
      split_and!; [done | done | by exists tt | by eexists |].
      unfold snapshot. cbn. rewrite lookup_insert_ne; [done |].
      intros Heq. by apply (crawl_progress_key_active id).
    - rewrite (handleStopProgress_cut _ _ H). cbn [fst snd].
      split_and!; [done | done | by exists tt | by eexists | done]. }
  assert (∀ item, item ∈ progressItems p1 → progressId item = id →
                  status item = Some "cancelled") as Hcancelled.
  { intros item Hitem Hitemid. rewrite Hitems in Hitem.
    apply (rewritten_elem id (with_status (Some "cancelled"))) in Hitem
      as (y & _ & _ & ->); done. }
  assert (id ∈ ids_of (progressItems p1)) as Hin.
  { rewrite Hitems.
    by apply (rewritten_tracked id (with_status (Some "cancelled"))). }
  split_and!; try done;
    try (subst p0; unfold exec; by rewrite handleStopProgress_rejected).
  - intros ms Hother. rewrite elapse_fire. split.
    + apply fired_kept; [| done].
      intros t [_ Ht]%list_elem_of_filter. rewrite Htimers in Ht.
      by apply Hother.
    + intros item Hitem%fired_elem. by apply Hcancelled.
  - intros ids H. subst p1. unfold exec.
    rewrite (handleStopProgress_resolved _ _ _ H). cbn [snd].
    split; [apply stored_ids_insert_list | done].
  - intros H. subst p1. unfold exec.
    by rewrite (handleStopProgress_cut _ _ H).
Qed.

(** The amended C8 at the page that tracks "job-1". *)
Lemma handleStopProgress_cancels_witness :
  "job-1" ∈ ids_of (progressItems job1_page) ∧
  active_crawls job1_page = Some ["job-1"] ∧
  timers (exec (handleStopProgress "job-1" (Resolves tt)) job1_page)
  = timers job1_page.
Proof.
  assert ("job-1" ∈ ids_of (progressItems job1_page)) as H1 by left.
  assert (active_crawls job1_page = Some ["job-1"]) as H2 by reflexivity.
  split_and!; [done | done |].
  apply (handleStopProgress_cancels "job-1" job1_page H1).
Defined.

(** ** Distinct ids (C4, C5) *)

Create HintDb keeps discriminated.

Section keeps_combinators.
Context {A B : Type}.

Lemma keeps_ret (a : A) : keeps (ret a).
Proof. by intros p. Qed.

Lemma keeps_throw e : keeps (@throw A e).
Proof. by intros p. Qed.

Lemma keeps_bind (m : M A) (k : A → M B) :
  keeps m → (∀ a, keeps (k a)) → keeps (bind m k).
Proof.
  intros Hm Hk p Hp. unfold bind. specialize (Hm p Hp).
  destruct (m p) as [[a|e] p']; [by apply Hk | done].
Qed.

Lemma keeps_try_catch (body handler : M A) :
  keeps body → keeps handler → keeps (try_catch body handler).
Proof.
  intros Hb Hh p Hp. unfold try_catch. specialize (Hb p Hp).
  destruct (body p) as [[a|e] p']; [done | by apply Hh].
Qed.

Lemma keeps_await (r : ApiResult A) : keeps (await r).
Proof. destruct r; by intros p. Qed.
End keeps_combinators.

Lemma keeps_for_of {A S} (l : list A) (body : A → S → M S) acc :
  (∀ x a, keeps (body x a)) → keeps (for_of l body acc).
Proof.
  intros Hbody. revert acc. induction l as [|x l IH]; intros acc; cbn.
  - apply keeps_ret.
  - apply keeps_bind; [apply Hbody | apply IH].
Qed.

Lemma keeps_when b m : keeps m → keeps (when b m).
Proof. destruct b; [done | intros _; apply keeps_ret]. Qed.

Lemma keeps_forEach {A} (l : list A) f : (∀ x, keeps (f x)) → keeps (forEach l f).
Proof. intros Hf. apply keeps_for_of. intros x _. apply Hf. Qed.

Lemma keeps_detached m : keeps m → keeps (detached m).
Proof. intros Hm p Hp. by apply Hm. Qed.

Lemma keeps_emit e : keeps (emit e).
Proof. by intros p. Qed.

Lemma keeps_Date_now : keeps Date_now.
Proof. by intros p. Qed.

Lemma keeps_setShowCrawlingTab v : keeps (setShowCrawlingTab v).
Proof. by intros p. Qed.

Lemma keeps_closure_progressItems : keeps closure_progressItems.
Proof. by intros p. Qed.

Lemma keeps_setTimeout t d : keeps (setTimeout t d).
Proof. by intros p. Qed.

Lemma keeps_getItem key : keeps (getItem key).
Proof. by intros p. Qed.

Lemma keeps_setItem key v : keeps (setItem key v).
Proof. by intros p. Qed.

Lemma keeps_removeItem key : keeps (removeItem key).
Proof. by intros p. Qed.

Lemma keeps_JSON_parse s : keeps (JSON_parse s).
Proof. destruct s; by intros p. Qed.

Lemma keeps_as_object j : keeps (as_object j).
Proof. destruct j; by intros p. Qed.

Lemma keeps_js_filter j (keep : string → Prop) `{!∀ id, Decision (keep id)} :
  keeps (js_filter j keep).
Proof. destruct j; by intros p. Qed.

Lemma keeps_js_includes j id : keeps (js_includes j id).
Proof. destruct j; by intros p. Qed.

(** Whatever the updater, the setter leaves distinct ids, provided the
    updater itself (which may call other setters) does. *)
Lemma keeps_setProgressItems updater :
  (∀ f prev, updater = Function f → keeps (f prev)) →
  keeps (setProgressItems updater).
Proof.
  intros Hf p Hp. unfold setProgressItems, setProgressItemsRaw, bind.
  destruct updater as [v|f]; cbn; [apply unique_items_NoDup |].
  specialize (Hf f (progressItems p) eq_refl p Hp).
  destruct (f (progressItems p) p) as [[a|e] p']; cbn; [| done].
  apply unique_items_NoDup.
Qed.

Lemma keeps_setProgressItems_Function f :
  (∀ prev, keeps (f prev)) → keeps (setProgressItems (Function f)).
Proof.
  intros Hf. apply keeps_setProgressItems. by intros ? prev [= <-].
Qed.

Lemma keeps_setProgressItems_Items v : keeps (setProgressItems (Items v)).
Proof. by apply keeps_setProgressItems. Qed.

Global Hint Resolve keeps_ret keeps_throw keeps_await keeps_emit keeps_Date_now
  keeps_setShowCrawlingTab keeps_closure_progressItems keeps_setTimeout
  keeps_getItem keeps_setItem keeps_removeItem keeps_JSON_parse keeps_as_object
  keeps_js_filter keeps_js_includes keeps_setProgressItems_Items : keeps.

(** The proof that a handler keeps the ids distinct follows its text. *)
Ltac keeps_step :=
  lazymatch goal with
  | |- keeps (bind _ _) => apply keeps_bind; [| intros ?]
  | |- keeps (try_catch _ _) => apply keeps_try_catch
  | |- keeps (when _ _) => apply keeps_when
  | |- keeps (detached _) => apply keeps_detached
  | |- keeps (forEach _ _) => apply keeps_forEach; intros ?
  | |- keeps (for_of _ _ _) => apply keeps_for_of; intros ? ?
  | |- keeps (setProgressItems (Function _)) =>
      apply keeps_setProgressItems_Function; intros ?
  | |- keeps (match ?x with _ => _ end) => destruct x
  | |- keeps (let _ := _ in _) => cbv zeta
  | |- _ => solve [auto with keeps]
  end.

Ltac keeps := repeat keeps_step.

Lemma keeps_remove_from_active_crawls id : keeps (remove_from_active_crawls id).
Proof. unfold remove_from_active_crawls. keeps. Qed.

Global Hint Resolve keeps_remove_from_active_crawls : keeps.

Lemma keeps_handleProgressComplete data : keeps (handleProgressComplete data).
Proof. unfold handleProgressComplete. keeps. Qed.

Lemma keeps_run_task t : keeps (run_task t).
Proof. unfold run_task. keeps. Qed.

Lemma keeps_handleProgressError msg id : keeps (handleProgressError msg id).
Proof. unfold handleProgressError. keeps. Qed.

Lemma keeps_handleStartCrawl id initialData : keeps (handleStartCrawl id initialData).
Proof. unfold handleStartCrawl. keeps. Qed.

Global Hint Resolve keeps_handleStartCrawl : keeps.

Lemma keeps_handleRetryProgress id result : keeps (handleRetryProgress id result).
Proof. unfold handleRetryProgress. keeps. Qed.

Lemma keeps_handleStopProgress id result : keeps (handleStopProgress id result).
Proof. unfold handleStopProgress. keeps. Qed.

Lemma keeps_handleDismissProgress id : keeps (handleDismissProgress id).
Proof. unfold handleDismissProgress. keeps. Qed.

Lemma keeps_handleRefreshItem sourceId found response :
  keeps (handleRefreshItem sourceId found response).
Proof. unfold handleRefreshItem. keeps. Qed.

Lemma keeps_classify crawlId acc : keeps (classify crawlId acc).
Proof. unfold classify. keeps. Qed.

Lemma keeps_verify fetch item acc : keeps (verify fetch item acc).
Proof. unfold verify. keeps. Qed.

Global Hint Resolve keeps_classify keeps_verify : keeps.

Lemma keeps_verifyAndRestoreProgressItems fetch items :
  keeps (verifyAndRestoreProgressItems fetch items).
Proof. unfold verifyAndRestoreProgressItems. keeps. Qed.

Global Hint Resolve keeps_verifyAndRestoreProgressItems : keeps.

Lemma keeps_reconcileOnStartup fetch : keeps (reconcileOnStartup fetch).
Proof. unfold reconcileOnStartup, clean_up_stale. keeps. Qed.

Lemma distinct_elapse ms p : distinct p → distinct (elapse ms p).
Proof.
  intros Hp. rewrite elapse_fire.
  induction (filter (due (clock p + ms)) (timers p)) as [|t l IH] using rev_ind;
    [done |].
  rewrite foldl_snoc. by apply keeps_run_task.
Qed.

Lemma distinct_handle e p : distinct p → distinct (handle e p).
Proof.
  intros Hp. destruct e; cbn [handle]; unfold exec.
  - by apply keeps_handleStartCrawl.
  - by apply keeps_handleRefreshItem.
  - by apply keeps_handleProgressComplete.
  - by apply keeps_handleProgressError.
  - by apply keeps_handleRetryProgress.
  - by apply keeps_handleStopProgress.
  - by apply keeps_handleDismissProgress.
  - by apply keeps_reconcileOnStartup.
  - by apply distinct_elapse.
Qed.

Lemma distinct_run events p : distinct p → distinct (run events p).
Proof.
  unfold run. revert p. induction events as [|e events IH]; intros p Hp; [done |].
  cbn. by apply IH, distinct_handle.
Qed.

Lemma Map_set_other k v m e : e ∈ m → e.1 ≠ k → e ∈ Map_set k v m.
Proof.
  induction m as [|[k' v'] m IH]; [by intros ?%elem_of_nil |].
  cbn [Map_set]. intros [->|He]%elem_of_cons Hne.
  - cbn in Hne. rewrite decide_False by done. left.
  - destruct (decide (k' = k)); right; auto.
Qed.

(** Appending an item through the setter, as [handleStartCrawl] does. *)
Lemma unique_items_append prev item :
  let next := unique_items (prev ++ [item]) in
  item ∈ next ∧
  (∀ x, x ∈ next → progressId x = progressId item → x = item) ∧
  (length next ≤ S (length prev))%nat ∧
  (∀ id, id ∈ ids_of next ↔ id ∈ ids_of prev ∨ id = progressId item) ∧
  (NoDup (ids_of prev) →
   (progressId item ∈ ids_of prev → length next = length prev) ∧
   (∀ x, x ∈ prev → progressId x ≠ progressId item → x ∈ next)).
Proof.
  cbn zeta. split_and!.
  - apply unique_items_last.
  - intros x Hx Hid.
    apply (NoDup_ids_eq (unique_items (prev ++ [item])));
      auto using unique_items_NoDup, unique_items_last.
  - etrans; [apply unique_items_length |]. rewrite length_app. cbn. lia.
  - intros id. rewrite unique_items_ids. unfold ids_of.
    rewrite fmap_app, elem_of_app. cbn. by rewrite list_elem_of_singleton.
  - intros Hnd. rewrite unique_items_snoc, fill_fresh; [| done |];
      [| by intros k ?%elem_of_nil].
    cbn [app]. split.
    + intros Hin. rewrite length_fmap, Map_set_length.
      assert ((entries prev).*1 = ids_of prev) as ->.
      { unfold entries, ids_of. by rewrite <- list_fmap_compose. }
      rewrite decide_True by done. unfold entries. by rewrite length_fmap.
    + intros x Hx Hne.
      apply (list_elem_of_fmap_2 snd _ (progressId x, x)), Map_set_other; [| done].
      unfold entries. by apply (list_elem_of_fmap_2 (λ item, (progressId item, item))).
Qed.

(** C4: the ids of the tracked list are pairwise distinct after every
    sequence of page events and after every write through the setter, whatever
    its argument; writing an item whose id is already tracked replaces the
    tracked item, so the list grows by at most one item, and by none when the
    id was there. *)
Theorem tracked_ids_distinct :
  (∀ events storage now,
     NoDup (ids_of (progressItems (run events (initial_page storage now))))) ∧
  (∀ updater p p',
     setProgressItems updater p = (Normal tt, p') →
     NoDup (ids_of (progressItems p'))) ∧
  (∀ p item,
     let p' := exec (setProgressItems (Function (λ prev, ret (prev ++ [item])))) p in
     item ∈ progressItems p' ∧
     (∀ x, x ∈ progressItems p' → progressId x = progressId item → x = item) ∧
     (length (progressItems p') ≤ S (length (progressItems p)))%nat ∧
     (∀ id, id ∈ ids_of (progressItems p')
            ↔ id ∈ ids_of (progressItems p) ∨ id = progressId item) ∧
     (NoDup (ids_of (progressItems p)) →
      progressId item ∈ ids_of (progressItems p) →
      length (progressItems p') = length (progressItems p))).
Proof.
  split_and!.
  - intros events storage now. apply distinct_run. constructor.
  - intros updater p p'. unfold setProgressItems, setProgressItemsRaw, bind.
    destruct updater as [v|f]; cbn.
    + intros [= <-]. apply unique_items_NoDup.
    + destruct (f (progressItems p) p) as [[a|e] q]; cbn; [| done].
      intros [= <-]. apply unique_items_NoDup.
  - intros p item. unfold exec. rewrite setProgressItems_pure. cbn.
    destruct (unique_items_append (progressItems p) item)
      as (H1 & H2 & H3 & H4 & H5).
    split_and!; try done. intros Hnd Hin. by apply H5.
Qed.

(** C4 at a list that names "job-1" twice, and at an append of a tracked id. *)
Lemma tracked_ids_distinct_witness :
  NoDup (ids_of (progressItems
                   (exec (setProgressItems (Items [job1_done; job1_late]))
                      job1_page))) ∧
  length (progressItems
            (exec (setProgressItems
                     (Function (λ prev, ret (prev ++ [job1_late]))))
               job1_page))
  = length (progressItems job1_page).
Proof.
  destruct tracked_ids_distinct as (_ & Hset & Happend). split.
  - apply (Hset (Items [job1_done; job1_late]) job1_page). reflexivity.
  - apply (Happend job1_page job1_late).
    + apply NoDup_singleton.
    + left.
Defined.

(** C5 as stated fails: the tracked item for "job-1" is completed with
    lastUpdated 2000; writing an item for the same id with the older
    lastUpdated 1000 replaces it, and the tracked item is active again. *)
Lemma setProgressItems_accepts_older_update :
  let p := set_progressItems [job1_done] job1_page in
  let p' := exec (setProgressItems
                    (Function (λ prev, ret (prev ++ [job1_late])))) p in
  lastUpdated job1_done = Some 2000 ∧
  lastUpdated job1_late = Some 1000 ∧
  progressItems p = [job1_done] ∧
  progressItems p' = [job1_late] ∧
  progressItems p' ≠ progressItems p.
Proof. vm_compute. split_and!; done. Qed.

(** C5, amended: the setter compares no timestamps.  Whatever the
    lastUpdated of the tracked item and of the item written for the same id,
    the written item is tracked afterwards, it is the only item with that id,
    and a tracked item that differs from it is gone (the last write wins). *)
Theorem setProgressItems_last_write_wins p tracked_item update :
  tracked_item ∈ progressItems p →
  progressId update = progressId tracked_item →
  let p' := exec (setProgressItems
                    (Function (λ prev, ret (prev ++ [update])))) p in
  update ∈ progressItems p' ∧
  (∀ x, x ∈ progressItems p' → progressId x = progressId tracked_item →
        x = update) ∧
  (tracked_item ≠ update → tracked_item ∉ progressItems p').
Proof.
  intros Hin Hid p'. subst p'. unfold exec. rewrite setProgressItems_pure. cbn.
  destruct (unique_items_append (progressItems p) update) as (H1 & H2 & _).
  split_and!; [done | |].
  - intros x Hx Hxid. apply H2; [done | congruence].
  - intros Hne Hstill. apply Hne, H2; [done | congruence].
Qed.

(** The amended C5 at the completed "job-1" and its older update. *)
Lemma setProgressItems_last_write_wins_witness :
  job1_done ∈ progressItems (set_progressItems [job1_done] job1_page) ∧
  progressId job1_late = progressId job1_done ∧
  job1_late ∈ progressItems
                (exec (setProgressItems
                         (Function (λ prev, ret (prev ++ [job1_late]))))
                   (set_progressItems [job1_done] job1_page)).
Proof.
  assert (job1_done ∈ progressItems (set_progressItems [job1_done] job1_page))
    as H1 by left.
  assert (progressId job1_late = progressId job1_done) as H2 by reflexivity.
  split_and!; [done | done |].
  apply (setProgressItems_last_write_wins _ job1_done job1_late H1 H2).
Defined.

(** ** Startup: classification *)

Lemma isStale_spec now started :
  isStale now started = true ↔ five_minutes < now - started.
Proof.
  unfold isStale, ageMinutes, five_minutes. rewrite negb_true_iff.
  rewrite <- not_true_iff_false, QArith_base.Qle_bool_iff.
  unfold QArith_base.Qle, QArith_base.Qdiv, QArith_base.Qmult,
    QArith_base.Qinv, QArith_base.inject_Z.
  change (1000 * 60) with 60000. cbn [QArith_base.Qnum QArith_base.Qden].
  change (Z.pos (1 * 60000)) with 60000. lia.
Qed.

Lemma isStale_now now : isStale now now = false.
Proof.
  apply not_true_iff_false. rewrite isStale_spec. unfold five_minutes. lia.
Qed.

Global Arguments isStale : simpl never.

Lemma classify_run crawlId acc p :
  classify crawlId acc p
  = (Normal match queued (localStorage p) (clock p) crawlId with
            | Some item => (acc.1 ++ [item], acc.2)
            | None => (acc.1, acc.2 ++ [crawlId])
            end, p).
Proof.
  unfold classify, queued, bind, getItem. cbn.
  destruct (localStorage p !! crawl_progress_key crawlId) as [[| |[| |d]]|];
    try done.
  - unfold try_catch. cbn. by rewrite isStale_now.
  - unfold try_catch. cbn. by destruct (isCompleted d || isStale _ _).
Qed.

Lemma for_of_classify ids acc p :
  for_of ids classify acc p
  = (Normal (acc.1 ++ restored_of (localStorage p) (clock p) ids,
             acc.2 ++ stale_of (localStorage p) (clock p) ids), p).
Proof.
  revert acc. induction ids as [|id ids IH]; intros [restored stale].
  - cbn. unfold ret. by rewrite !app_nil_r.
  - cbn [for_of]. erewrite bind_normal; [| apply classify_run]. rewrite IH.
    unfold restored_of, stale_of. rewrite filter_cons. cbn [omap list_omap].
    destruct (queued _ _ id) as [item|]; cbn [fst snd].
    + rewrite decide_False by done. by rewrite <- app_assoc.
    + rewrite decide_True by done. by rewrite <- app_assoc.
Qed.

Lemma restored_of_elem storage now ids item :
  item ∈ restored_of storage now ids
  ↔ ∃ id, id ∈ ids ∧ queued storage now id = Some item.
Proof. unfold restored_of. apply list_elem_of_omap. Qed.

Lemma queued_progressId storage now id item :
  queued storage now id = Some item → progressId item = id.
Proof.
  unfold queued. destruct (storage !! _) as [[| |[| |d]]|]; try done.
  - by intros [= <-].
  - destruct (_ || _); [done |]. by intros [= <-].
Qed.

Lemma stale_of_elem storage now ids id :
  id ∈ stale_of storage now ids ↔ id ∈ ids ∧ queued storage now id = None.
Proof. unfold stale_of. rewrite list_elem_of_filter. tauto. Qed.

(** ** Startup: the clean-up of lines 258-265 and 306-317 *)

Lemma forEach_removeItem l p :
  forEach l (λ id, removeItem (crawl_progress_key id)) p
  = (Normal tt,
     set_trace (trace p ++ ((λ id, storageRemoveItem (crawl_progress_key id)) <$> l))
       (set_localStorage (delete_snapshots l (localStorage p)) p)).
Proof.
  unfold forEach. revert p. induction l as [|id l IH]; intros p.
  - destruct p. cbn. unfold ret. by rewrite app_nil_r.
  - cbn [for_of]. erewrite bind_normal; [| reflexivity]. rewrite IH.
    destruct p. cbn. by rewrite <- app_assoc.
Qed.

Lemma clean_up_stale_run ids stale p :
  clean_up_stale ids stale p = (Normal tt, cleaned stale ids p).
Proof.
  unfold clean_up_stale, cleaned, when. case_bool_decide; [| done].
  erewrite bind_normal; [| reflexivity]. rewrite forEach_removeItem.
  destruct p. cbn. by rewrite <- app_assoc.
Qed.

Lemma delete_snapshots_list l storage :
  delete_snapshots l storage !! active_crawls_key = storage !! active_crawls_key.
Proof.
  unfold delete_snapshots. revert storage.
  induction l as [|id l IH]; intros storage; [done |].
  cbn. rewrite IH. apply lookup_delete_ne, crawl_progress_key_active.
Qed.

Lemma delete_snapshots_snapshot l storage id :
  delete_snapshots l storage !! crawl_progress_key id
  = if decide (id ∈ l) then None else storage !! crawl_progress_key id.
Proof.
  unfold delete_snapshots. revert storage.
  induction l as [|id' l IH]; intros storage.
  - rewrite decide_False; [done | apply not_elem_of_nil].
  - cbn [foldl]. rewrite IH. destruct (decide (id ∈ l)) as [Hin|Hnin].
    + rewrite decide_True; [done | by right].
    + destruct (decide (id' = id)) as [->|Hne].
      * rewrite decide_True by left. apply lookup_delete_eq.
      * rewrite decide_False.
        -- apply lookup_delete_ne. by intros ?%crawl_progress_key_inj.
        -- intros [?|?]%elem_of_cons; congruence.
Qed.

Lemma filter_none_removed (ids : list string) :
  filter (λ id, id ∉ []) ids = ids.
Proof.
  induction ids as [|id ids IH]; [done |].
  rewrite filter_cons, decide_True; [by rewrite IH | apply not_elem_of_nil].
Qed.

Lemma length_positive {A} (l : list A) : ¬ (0 < length l)%nat → l = [].
Proof. destruct l; cbn; [done | lia]. Qed.

Section clean_up.
Variables (removed ids : list string) (p : Page).

Lemma cleaned_active :
  active_crawls p = Some ids →
  active_crawls (cleaned removed ids p)
  = Some (filter (λ id, id ∉ removed) ids).
Proof.
  intros H. unfold cleaned. case_bool_decide as Hr.
  - unfold active_crawls, stored_ids. cbn.
    by rewrite delete_snapshots_list, lookup_insert_eq.
  - apply length_positive in Hr as ->. by rewrite filter_none_removed.
Qed.

Lemma cleaned_snapshot id :
  snapshot (cleaned removed ids p) id
  = if decide (id ∈ removed) then None else snapshot p id.
Proof.
  unfold cleaned, snapshot. case_bool_decide as Hr.
  - cbn. rewrite delete_snapshots_snapshot. destruct (decide _); [done |].
    apply lookup_insert_ne. intros Heq. by apply (crawl_progress_key_active id).
  - apply length_positive in Hr as ->.
    rewrite decide_False; [done | apply not_elem_of_nil].
Qed.

Lemma cleaned_frame :
  progressItems (cleaned removed ids p) = progressItems p ∧
  showCrawlingTab (cleaned removed ids p) = showCrawlingTab p ∧
  clock (cleaned removed ids p) = clock p ∧
  timers (cleaned removed ids p) = timers p.
Proof. unfold cleaned. by case_bool_decide. Qed.

(** One clean-up writes the list once, however many ids it removes. *)
Lemma cleaned_list_writes :
  list_writes (trace (cleaned removed ids p))
  = (list_writes (trace p)
     + if bool_decide (0 < length removed)%nat then 1 else 0)%nat.
Proof.
  unfold cleaned. case_bool_decide as Hr; [| lia]. cbn [trace].
  rewrite list_writes_app. f_equal. unfold list_writes.
  rewrite filter_cons. cbn [is_list_write].
  rewrite decide_True by (by apply bool_decide_pack).
  cbn [length]. f_equal. clear Hr.
  induction removed as [|id l IH]; [done |].
  rewrite fmap_cons, filter_cons. cbn [is_list_write].
  rewrite decide_False; [exact IH | intros []].
Qed.

(** A clean-up calls no service and shows no toast. *)
Lemma cleaned_trace e :
  (∀ key v, e ≠ storageSetItem key v) → (∀ key, e ≠ storageRemoveItem key) →
  e ∈ trace (cleaned removed ids p) ↔ e ∈ trace p.
Proof.
  intros Hset Hremove. unfold cleaned. case_bool_decide; [| done]. cbn [trace].
  rewrite elem_of_app, elem_of_cons, list_elem_of_fmap.
  split; [| by left]. intros [?|[?|(id & ? & _)]]; [done | |].
  - by destruct (Hset _ _ H0).
  - by destruct (Hremove _ H0).
Qed.
End clean_up.

(** ** Startup: verification *)

Lemma verify_run fetch item acc p :
  verify fetch item acc p
  = (Normal match verdict (fetch (progressId item)) with
            | Verified => (acc.1 ++ [item], acc.2)
            | Gone => (acc.1, acc.2 ++ [progressId item])
            | Unknown => (acc.1, acc.2)
            end,
     set_trace (trace p ++ [fetchProgress (progressId item)]) p).
Proof.
  unfold verify, bind, emit, try_catch, await, verdict.
  destruct (fetch (progressId item)) as [s|]; cbn; [| done].
  destruct (response_ok s); [done |]. by destruct (decide (s = 404)).
Qed.

Lemma for_of_verify fetch items acc p :
  for_of items (verify fetch) acc p
  = (Normal (acc.1 ++ verified_of fetch items, acc.2 ++ removed_of fetch items),
     set_trace (trace p ++ fetches items) p).
Proof.
  revert acc p. induction items as [|item items IH]; intros [verified removed] p.
  - destruct p. cbn. unfold ret. by rewrite !app_nil_r.
  - cbn [for_of]. erewrite bind_normal; [| apply verify_run]. rewrite IH.
    unfold verified_of, removed_of, fetches. rewrite !filter_cons, fmap_cons.
    destruct p. cbn [trace set_trace fst snd]. rewrite <- app_assoc. cbn [app].
    destruct (verdict (fetch (progressId item))); cbn [fst snd].
    + rewrite decide_True, decide_False by done. by rewrite <- app_assoc.
    + rewrite decide_False, decide_True by done.
      by rewrite fmap_cons, <- app_assoc.
    + by rewrite !decide_False by done.
Qed.

Lemma verifyAndRestoreProgressItems_run fetch items p ids :
  active_crawls p = Some ids →
  verifyAndRestoreProgressItems fetch items p
  = (Normal tt, verified_page fetch items ids p).
Proof.
  intros H. unfold verifyAndRestoreProgressItems, verified_page.
  erewrite bind_normal; [| apply for_of_verify]. cbn [fst snd app].
  set (q := set_trace _ p).
  assert (active_crawls q = Some ids) as Hq by done.
  erewrite (bind_normal _ _ _ tt (cleaned (removed_of fetch items) ids q)).
  - by case_bool_decide.
  - unfold when, cleaned. case_bool_decide; [| done].
    unfold active_crawls, stored_ids in Hq. unfold bind, getItem.
    destruct (or_text _ _) as [| |[]]; try done. injection Hq as ->.
    cbn [JSON_parse js_filter ret].
    change (setItem ?k ?v ?x) with
      (Normal tt, set_trace (trace x ++ [storageSetItem k v])
                    (set_localStorage (<[k := v]> (localStorage x)) x)).
    cbn iota. rewrite forEach_removeItem.
    destruct q. cbn. by rewrite <- app_assoc.
Qed.

(** ** Startup: the whole effect *)

Lemma reconcileOnStartup_run fetch p ids :
  active_crawls p = Some ids →
  reconcileOnStartup fetch p = (Normal tt, reconciled fetch ids p).
Proof.
  intros H. unfold reconcileOnStartup, reconciled.
  erewrite bind_normal; [| reflexivity].
  unfold active_crawls, stored_ids in H.
  destruct (or_text _ _) as [| |[]] eqn:Hs; try done. injection H as ->.
  cbn [JSON_parse]. erewrite bind_normal; [| reflexivity]. unfold when.
  case_bool_decide; [| done].
  erewrite bind_normal; [| apply for_of_classify]. cbn [fst snd app].
  erewrite bind_normal; [| apply clean_up_stale_run].
  case_bool_decide; [| done].
  erewrite bind_normal; [| reflexivity]. unfold detached, exec.
  erewrite verifyAndRestoreProgressItems_run; [done |].
  apply (cleaned_active _ _ p). unfold active_crawls, stored_ids. by rewrite Hs.
Qed.

Lemma verified_of_elem fetch items item :
  item ∈ verified_of fetch items
  ↔ item ∈ items ∧ verdict (fetch (progressId item)) = Verified.
Proof. unfold verified_of. rewrite list_elem_of_filter. tauto. Qed.

Lemma removed_of_elem fetch items id :
  id ∈ removed_of fetch items
  ↔ id ∈ ids_of items ∧ verdict (fetch id) = Gone.
Proof.
  unfold removed_of, ids_of. rewrite !list_elem_of_fmap. split.
  - intros (item & -> & [Hv Hin]%list_elem_of_filter). split; [| done].
    by exists item.
  - intros [(item & -> & Hin) Hv]. exists item. split; [done |].
    by apply list_elem_of_filter.
Qed.

Lemma fetches_elem items id : fetchProgress id ∈ fetches items ↔ id ∈ ids_of items.
Proof.
  unfold fetches, ids_of. rewrite !list_elem_of_fmap.
  split; intros (item & Heq & Hin); exists item; split; congruence.
Qed.

(** What verification leaves, observed. *)
Section after_verification.
Variables (fetch : string → ApiResult Z) (items : list CrawlProgressData).
Variables (ids : list string) (p : Page).
Hypothesis stored : active_crawls p = Some ids.
Let p' := verified_page fetch items ids p.

Lemma verified_active :
  active_crawls p' = Some (filter (λ id, id ∉ removed_of fetch items) ids).
Proof.
  subst p'. unfold verified_page.
  case_bool_decide; apply (cleaned_active _ _ (set_trace _ p)); done.
Qed.

Lemma verified_snapshot id :
  snapshot p' id
  = if decide (id ∈ removed_of fetch items) then None else snapshot p id.
Proof.
  subst p'. unfold verified_page.
  case_bool_decide; apply (cleaned_snapshot _ _ (set_trace _ p)).
Qed.

Lemma verified_progressItems :
  progressItems p'
  = if bool_decide (0 < length (verified_of fetch items))%nat
    then unique_items (verified_of fetch items) else progressItems p.
Proof.
  subst p'. unfold verified_page. case_bool_decide; [done |].
  cbn. by destruct (cleaned_frame (removed_of fetch items) ids
                      (set_trace (trace p ++ fetches items) p)) as [-> _].
Qed.

Lemma verified_list_writes :
  list_writes (trace p')
  = (list_writes (trace p)
     + if bool_decide (0 < length (removed_of fetch items))%nat
       then 1 else 0)%nat.
Proof.
  subst p'. unfold verified_page.
  assert (list_writes (fetches items) = 0%nat) as Hfetches.
  { unfold list_writes, fetches. induction items as [|x l IH]; [done |].
    rewrite fmap_cons, filter_cons. cbn [is_list_write].
    rewrite decide_False; [exact IH | intros []]. }
  case_bool_decide; cbn [trace set_progressItems set_showCrawlingTab];
    rewrite cleaned_list_writes; cbn [trace set_trace];
    rewrite list_writes_app, Hfetches; lia.
Qed.

Lemma verified_fetched id :
  fetchProgress id ∈ trace p'
  ↔ fetchProgress id ∈ trace p ∨ id ∈ ids_of items.
Proof.
  subst p'. unfold verified_page.
  case_bool_decide; cbn [trace set_progressItems set_showCrawlingTab];
    rewrite cleaned_trace by done; cbn [trace set_trace];
    by rewrite elem_of_app, fetches_elem.
Qed.

Lemma verified_toasts msg kind :
  showToast msg kind ∈ trace p' ↔ showToast msg kind ∈ trace p.
Proof.
  subst p'. unfold verified_page.
  case_bool_decide; cbn [trace set_progressItems set_showCrawlingTab];
    rewrite cleaned_trace by done; cbn [trace set_trace];
    rewrite elem_of_app; unfold fetches; rewrite list_elem_of_fmap;
    (split; [intros [?|(? & ? & _)]; done | by left]).
Qed.
End after_verification.

(** What the startup effect leaves, observed. *)
Section after_reconciliation.
Variables (fetch : string → ApiResult Z) (ids : list string) (p : Page).
Hypothesis stored : active_crawls p = Some ids.
Let stale := stale_of (localStorage p) (clock p) ids.
Let restored := restored_of (localStorage p) (clock p) ids.
Let removed := removed_of fetch restored.
Let verified := verified_of fetch restored.
Let p' := reconciled fetch ids p.

Lemma reconciled_cases :
  p' = (if bool_decide (0 < length restored)%nat
        then verified_page fetch restored (filter (λ id, id ∉ stale) ids)
               (set_showCrawlingTab true (cleaned stale ids p))
        else cleaned stale ids p).
Proof.
  subst p'. unfold reconciled. case_bool_decide as Hids; [done |].
  apply length_positive in Hids. subst restored stale. rewrite Hids. done.
Qed.

Lemma reconciled_active :
  active_crawls p'
  = Some (filter (λ id, id ∉ removed) (filter (λ id, id ∉ stale) ids)).
Proof.
  rewrite reconciled_cases. case_bool_decide as Hr.
  - apply verified_active. by apply (cleaned_active _ _ p).
  - apply length_positive in Hr. subst removed. rewrite Hr.
    rewrite filter_none_removed. by apply cleaned_active.
Qed.

Lemma reconciled_snapshot id :
  snapshot p' id
  = if decide (id ∈ stale ∨ id ∈ removed) then None else snapshot p id.
Proof.
  rewrite reconciled_cases. case_bool_decide as Hr.
  - rewrite verified_snapshot. fold removed.
    change (snapshot (set_showCrawlingTab true ?q) id) with (snapshot q id).
    rewrite cleaned_snapshot.
    destruct (decide (id ∈ removed)), (decide (id ∈ stale));
      first [rewrite decide_True by tauto | rewrite decide_False by tauto];
      done.
  - apply length_positive in Hr. subst removed. rewrite Hr.
    rewrite cleaned_snapshot. cbn.
    destruct (decide (id ∈ stale));
      first [rewrite decide_True by tauto | rewrite decide_False]; try done.
    by intros [?|?%elem_of_nil].
Qed.

Lemma reconciled_progressItems :
  progressItems p'
  = if bool_decide (0 < length verified)%nat
    then unique_items verified else progressItems p.
Proof.
  rewrite reconciled_cases. case_bool_decide as Hr.
  - rewrite verified_progressItems. fold verified.
    case_bool_decide; [done |]. cbn.
    by destruct (cleaned_frame stale ids p) as [-> _].
  - apply length_positive in Hr. subst verified. rewrite Hr. cbn.
    by destruct (cleaned_frame stale ids p) as [-> _].
Qed.


Lemma reconciled_fetched id :
  fetchProgress id ∈ trace p'
  ↔ fetchProgress id ∈ trace p ∨ id ∈ ids_of restored.
Proof.
  rewrite reconciled_cases. case_bool_decide as Hr.
  - rewrite verified_fetched.
    change (trace (set_showCrawlingTab true ?q)) with (trace q).
    by rewrite cleaned_trace.
  - apply length_positive in Hr. rewrite Hr, cleaned_trace by done.
    split; [by left | by intros [?|?%elem_of_nil]].
Qed.

Lemma reconciled_toasts msg kind :
  showToast msg kind ∈ trace p' ↔ showToast msg kind ∈ trace p.
Proof.
  rewrite reconciled_cases. case_bool_decide as Hr.
  - rewrite verified_toasts.
    change (trace (set_showCrawlingTab true ?q)) with (trace q).
    by rewrite cleaned_trace.
  - by rewrite cleaned_trace.
Qed.
End after_reconciliation.

Lemma verdict_Verified r :
  verdict r = Verified ↔ ∃ s, r = Resolves s ∧ 200 ≤ s ≤ 299.
Proof.
  unfold verdict, response_ok. destruct r as [s|].
  - case_bool_decide as Hs.
    + split; [intros _; by exists s | done].
    + split; [by destruct (decide _) | intros (s' & [= <-] & ?); done].
  - split; [done | intros (? & ? & _); done].
Qed.

Lemma verdict_Gone r : verdict r = Gone ↔ r = Resolves 404 ∨ r = Rejects.
Proof.
  unfold verdict, response_ok. destruct r as [s|]; [| by split; [right |]].
  case_bool_decide as Hs.
  - split; [done | intros [[= ->]|?]; [lia | done]].
  - destruct (decide (s = 404)) as [->|Hne].
    + split; [by left | done].
    + split; [done | intros [[= ->]|?]; done].
Qed.

Lemma isCompleted_spec d :
  isCompleted d = true ↔ ∃ s, status d = Some s ∧ s ∈ completed_states.
Proof.
  unfold isCompleted. destruct (status d) as [s|].
  - rewrite bool_decide_eq_true. split; [by exists s | by intros (? & [= <-] & ?)].
  - split; [done | by intros (? & ? & _)].
Qed.

(** The two fates of an id of the stored list at startup. *)
Section fates_of_an_id.
Variables (fetch : string → ApiResult Z) (ids : list string) (p : Page).
Variable id : string.
Hypothesis stored : active_crawls p = Some ids.
Hypothesis listed : id ∈ ids.
Let p' := exec (reconcileOnStartup fetch) p.

Lemma reconcile_marked_stale :
  queued (localStorage p) (clock p) id = None →
  snapshot p' id = None ∧
  (∃ ids', active_crawls p' = Some ids' ∧ id ∉ ids') ∧
  (fetchProgress id ∈ trace p' → fetchProgress id ∈ trace p).
Proof.
  intros Hq. subst p'. unfold exec.
  rewrite (reconcileOnStartup_run _ _ _ stored). cbn [snd].
  assert (id ∈ stale_of (localStorage p) (clock p) ids) as Hstale
    by by apply stale_of_elem.
  split_and!.
  - rewrite reconciled_snapshot. apply decide_True. by left.
  - eexists. split; [by apply reconciled_active |].
    intros [_ [Hnot _]%list_elem_of_filter]%list_elem_of_filter. done.
  - rewrite reconciled_fetched. intros [?|Hin]; [done |].
    apply list_elem_of_fmap in Hin as (item & -> & Hitem).
    apply restored_of_elem in Hitem as (id' & _ & Hq').
    rewrite (queued_progressId _ _ _ _ Hq') in Hq. congruence.
Qed.

Lemma reconcile_queued item :
  queued (localStorage p) (clock p) id = Some item →
  fetchProgress id ∈ trace p' ∧
  (verdict (fetch id) = Verified →
   item ∈ progressItems p' ∧
   (∀ x, x ∈ progressItems p' → progressId x = id → x = item) ∧
   snapshot p' id = snapshot p id ∧
   ∃ ids', active_crawls p' = Some ids' ∧ id ∈ ids') ∧
  (verdict (fetch id) = Gone →
   snapshot p' id = None ∧
   ∃ ids', active_crawls p' = Some ids' ∧ id ∉ ids') ∧
  (id ∈ ids_of (progressItems p') →
   id ∈ ids_of (progressItems p) ∨ verdict (fetch id) = Verified).
Proof.
  intros Hq. subst p'. unfold exec.
  rewrite (reconcileOnStartup_run _ _ _ stored). cbn [snd].
  pose proof (queued_progressId _ _ _ _ Hq) as Hid.
  assert (item ∈ restored_of (localStorage p) (clock p) ids) as Hitem.
  { apply restored_of_elem. by exists id. }
  assert (id ∉ stale_of (localStorage p) (clock p) ids) as Hfresh.
  { intros [_ ?]%stale_of_elem. congruence. }
  assert (∀ x, x ∈ restored_of (localStorage p) (clock p) ids →
               progressId x = id → x = item) as Hsame.
  { intros x (id' & _ & Hq')%restored_of_elem Hx.
    rewrite (queued_progressId _ _ _ _ Hq') in Hx. congruence. }
  split_and!.
  - rewrite reconciled_fetched. right. rewrite <- Hid.
    by apply list_elem_of_fmap_2.
  - intros Hv.
    assert (item ∈ verified_of fetch (restored_of (localStorage p) (clock p) ids))
      as Hverified.
    { apply verified_of_elem. by rewrite Hid. }
    assert (id ∉ removed_of fetch (restored_of (localStorage p) (clock p) ids))
      as Hkept.
    { intros [_ ?]%removed_of_elem. congruence. }
    rewrite reconciled_progressItems, bool_decide_true
      by (destruct (verified_of _ _); [by apply elem_of_nil in Hverified | cbn; lia]).
    split_and!.
    + assert (id ∈ ids_of (unique_items
                (verified_of fetch (restored_of (localStorage p) (clock p) ids))))
        as (x & Hx & Hin)%list_elem_of_fmap.
      { rewrite unique_items_ids, <- Hid. by apply list_elem_of_fmap_2. }
      pose proof Hin as [Hr _]%unique_items_elem%verified_of_elem.
      by rewrite <- (Hsame x Hr (eq_sym Hx)).
    + intros x [Hr _]%unique_items_elem%verified_of_elem. by apply Hsame.
    + rewrite reconciled_snapshot. apply decide_False. tauto.
    + eexists. split; [by apply reconciled_active |].
      apply list_elem_of_filter. split; [done |].
      by apply list_elem_of_filter.
  - intros Hg.
    assert (id ∈ removed_of fetch (restored_of (localStorage p) (clock p) ids))
      as Hremoved.
    { apply removed_of_elem. split; [| done]. rewrite <- Hid.
      by apply list_elem_of_fmap_2. }
    split.
    + rewrite reconciled_snapshot. apply decide_True. by right.
    + eexists. split; [by apply reconciled_active |].
      intros [? _]%list_elem_of_filter. done.
  - rewrite reconciled_progressItems. case_bool_decide; [| by left].
    rewrite unique_items_ids.
    intros (x & -> & [_ Hv]%verified_of_elem)%list_elem_of_fmap. by right.
Qed.
End fates_of_an_id.

(** ** Startup: the claims (C2, C3, C7, C10) *)


(** C7 as stated fails: a snapshot that parses, whose status "error" is not
    terminal and whose age is zero, is not queued for verification; it is
    marked stale and cleaned up. *)
Lemma reconcile_marks_error_stale :
  let p' := exec (reconcileOnStartup (λ _, Resolves 200)) errored_page in
  active_crawls errored_page = Some ["job-1"] ∧
  snapshot errored_page "job-1" = Some (Stringified (JObject errored)) ∧
  status errored = Some "error" ∧
  ¬ terminal "error" ∧
  clock errored_page - startedAt_or errored (clock errored_page) = 0 ∧
  snapshot p' "job-1" = None ∧
  active_crawls p' = Some [] ∧
  (fetchProgress "job-1" ∉ trace p') ∧
  progressItems p' = [].
Proof.
  cbv zeta. split_and!.
  - by vm_compute.
  - by vm_compute.
  - done.
  - unfold terminal. intros H.
    repeat (apply elem_of_cons in H as [H|H]; [discriminate |]).
    by apply elem_of_nil in H.
  - by vm_compute.
  - by vm_compute.
  - by vm_compute.
  - set (t := trace _). vm_compute in t. subst t. intros H.
    repeat (apply elem_of_cons in H as [H|H]; [discriminate |]).
    by apply elem_of_nil in H.
  - by vm_compute.
Qed.

(** C7, amended: at startup every id of the stored list whose snapshot is
    missing, empty, unparsable or the value null, whose status is one of
    completed, error, failed and cancelled, or whose startedAt is present, not
    zero and more than five minutes before now is marked stale: its snapshot
    and its entry in the list are removed and the server is not asked about
    it; the effect returns normally.  Every other id is queued, that is every
    id whose snapshot is an object that has none of these four statuses and
    whose startedAt is missing, zero or at most five minutes before now, and
    every id whose snapshot is an array: the server is asked about it, and it
    enters the tracked list only when the answer is a success. *)
Theorem reconcile_classification fetch p ids id :
  active_crawls p = Some ids →
  id ∈ ids →
  let now := clock p in
  let p' := exec (reconcileOnStartup fetch) p in
  let marked_stale :=
    snapshot p' id = None ∧
    (∃ ids', active_crawls p' = Some ids' ∧ id ∉ ids') ∧
    (fetchProgress id ∈ trace p' → fetchProgress id ∈ trace p) in
  let queued_for_verification :=
    fetchProgress id ∈ trace p' ∧
    (id ∈ ids_of (progressItems p') →
     id ∈ ids_of (progressItems p) ∨ ∃ s, fetch id = Resolves s ∧ 200 ≤ s ≤ 299) in
  returns (reconcileOnStartup fetch) p ∧
  (snapshot p id = None ∨ snapshot p id = Some Blank ∨
   snapshot p id = Some Malformed ∨ snapshot p id = Some (Stringified JNull) →
   marked_stale) ∧
  (∀ d, snapshot p id = Some (Stringified (JObject d)) →
        ((∃ s, status d = Some s ∧ s ∈ completed_states) → marked_stale) ∧
        (∀ t, startedAt d = Some t → t ≠ 0 → five_minutes < now - t →
              marked_stale) ∧
        ((∀ s, status d = Some s → s ∉ completed_states) →
         (startedAt d = None ∨ startedAt d = Some 0 ∨
          ∃ t, startedAt d = Some t ∧ now - t ≤ five_minutes) →
         queued_for_verification)) ∧
  (∀ l, snapshot p id = Some (Stringified (JArray l)) → queued_for_verification).
Proof.
  intros Hstored Hin now p' marked_stale queued_for_verification.
  subst marked_stale queued_for_verification p' now. split_and!.
  - unfold returns. rewrite (reconcileOnStartup_run _ _ _ Hstored). by exists tt.
  - intros H. apply (reconcile_marked_stale fetch ids p id Hstored Hin).
    unfold queued. unfold snapshot in H. by destruct H as [->|[->|[->| ->]]].
  - intros d Hd. unfold snapshot in Hd. split_and!.
    + intros H%isCompleted_spec.
      apply (reconcile_marked_stale fetch ids p id Hstored Hin).
      unfold queued. by rewrite Hd, H.
    + intros t Ht Hzero Hold.
      apply (reconcile_marked_stale fetch ids p id Hstored Hin).
      unfold queued, startedAt_or. rewrite Hd, Ht, decide_False by done.
      apply isStale_spec in Hold. by rewrite Hold, orb_true_r.
    + intros Hstatus Hage.
      destruct (reconcile_queued fetch ids p id Hstored Hin
                  (with_needsVerification true (with_progressId id d)))
        as (? & _ & _ & Htracked);
        [| split; [done | by setoid_rewrite <- verdict_Verified]].
      unfold queued. rewrite Hd.
      assert (isCompleted d = false) as ->.
      { apply not_true_iff_false. rewrite isCompleted_spec.
        intros (s & Hs & Hc). by apply (Hstatus s). }
      assert (isStale (clock p) (startedAt_or d (clock p)) = false) as ->; [| done].
      apply not_true_iff_false. rewrite isStale_spec. unfold startedAt_or.
      unfold five_minutes in *.
      destruct Hage as [-> | [-> | (t & -> & Hyoung)]].
      * lia.
      * rewrite decide_True by done. lia.
      * destruct (decide (t = 0)); lia.
  - intros l Hl. unfold snapshot in Hl.
    destruct (reconcile_queued fetch ids p id Hstored Hin
                (with_needsVerification true (with_progressId id (bare ""))))
      as (? & _ & _ & Htracked);
      [| split; [done | by setoid_rewrite <- verdict_Verified]].
    unfold queued. by rewrite Hl.
Qed.

(** The amended C7 at the page whose snapshot says that "job-1" was started
    at time zero: more than five minutes have passed on the clock, and the id
    is queued all the same. *)
Lemma reconcile_classification_witness :
  active_crawls epoch_page = Some ["job-1"] ∧
  "job-1" ∈ ["job-1"] ∧
  snapshot epoch_page "job-1"
  = Some (Stringified (JObject (with_startedAt (Some 0) job1))) ∧
  five_minutes < clock epoch_page - 0 ∧
  returns (reconcileOnStartup (λ _, Resolves 200)) epoch_page ∧
  fetchProgress "job-1"
  ∈ trace (exec (reconcileOnStartup (λ _, Resolves 200)) epoch_page).
Proof.
  assert (active_crawls epoch_page = Some ["job-1"]) as H1 by reflexivity.
  assert ("job-1" ∈ ["job-1"]) as H2 by left.
  assert (snapshot epoch_page "job-1"
          = Some (Stringified (JObject (with_startedAt (Some 0) job1)))) as H3
    by reflexivity.
  destruct (reconcile_classification (λ _, Resolves 200) epoch_page ["job-1"]
              "job-1" H1 H2) as (Hreturns & _ & Hobject & _).
  destruct (Hobject _ H3) as (_ & _ & Hqueued).
  split_and!; [done | done | done | by vm_compute | done |].
  apply Hqueued; [| right; by left].
  intros s [= <-] Hs.
  repeat (apply elem_of_cons in Hs as [Hs|Hs]; [discriminate |]).
  by apply elem_of_nil in Hs.
Defined.

(** C3 as stated fails: the page is reloaded while "job-1" is crawling and
    the server answers 200; the item is tracked again with the status of its
    snapshot, "crawling", not "reconnecting". *)
Lemma reconcile_keeps_persisted_status :
  let p' := exec (reconcileOnStartup (λ _, Resolves 200)) reloaded_page in
  let item := with_needsVerification true (with_startedAt (Some 1000) job1) in
  snapshot reloaded_page "job-1"
  = Some (Stringified (JObject (with_startedAt (Some 1000) job1))) ∧
  progressItems p' = [item] ∧
  progressId item = "job-1" ∧
  status item = Some "crawling" ∧
  status item ≠ Some "reconnecting".
Proof. cbv zeta. split_and!; by vm_compute. Qed.

(** C3, amended: for an id queued at startup (its snapshot is an object that
    is neither completed nor stale), a 404 response or a network failure
    removes its snapshot and its entry in the stored list, by the same
    clean-up as the stale ids (one write of the list per verification); a
    success response puts the queued item into the tracked list with the
    status of the snapshot unchanged and the verification flag set. *)
Theorem reconcile_verification fetch p ids id d :
  active_crawls p = Some ids →
  id ∈ ids →
  snapshot p id = Some (Stringified (JObject d)) →
  isCompleted d || isStale (clock p) (startedAt_or d (clock p)) = false →
  let p' := exec (reconcileOnStartup fetch) p in
  let item := with_needsVerification true (with_progressId id d) in
  (fetch id = Resolves 404 ∨ fetch id = Rejects →
   snapshot p' id = None ∧ ∃ ids', active_crawls p' = Some ids' ∧ id ∉ ids') ∧
  ((∃ s, fetch id = Resolves s ∧ 200 ≤ s ≤ 299) →
   item ∈ progressItems p' ∧
   ∀ x, x ∈ progressItems p' → progressId x = id →
        x = item ∧ status x = status d ∧ _needsVerification x = true) ∧
  (∀ q items ids0,
     active_crawls q = Some ids0 →
     let q' := exec (verifyAndRestoreProgressItems fetch items) q in
     localStorage q'
     = localStorage (exec (clean_up_stale ids0 (removed_of fetch items)) q) ∧
     (∀ x, x ∈ removed_of fetch items
           ↔ x ∈ ids_of items ∧ (fetch x = Resolves 404 ∨ fetch x = Rejects)) ∧
     (list_writes (trace q') ≤ S (list_writes (trace q)))%nat).
Proof.
  intros Hstored Hin Hd Hfresh p' item.
  assert (queued (localStorage p) (clock p) id = Some item) as Hq.
  { unfold queued. unfold snapshot in Hd. by rewrite Hd, Hfresh. }
  destruct (reconcile_queued fetch ids p id Hstored Hin item Hq)
    as (_ & Hverified & Hgone & _).
  split_and!.
  - intros H%verdict_Gone. by apply Hgone.
  - intros H%verdict_Verified. destruct (Hverified H) as (Hitem & Honly & _).
    split; [done |]. intros x Hx Hxid. by rewrite (Honly x Hx Hxid).
  - intros q items ids0 Hq0 q'. subst q'. unfold exec.
    rewrite (verifyAndRestoreProgressItems_run _ _ _ _ Hq0), clean_up_stale_run.
    cbn [snd]. split_and!.
    + unfold verified_page, cleaned.
      by repeat case_bool_decide.
    + intros x. by rewrite removed_of_elem, verdict_Gone.
    + rewrite verified_list_writes. case_bool_decide; lia.
Qed.

(** The amended C3 at the reloaded page, the server answering 200. *)
Lemma reconcile_verification_witness :
  active_crawls reloaded_page = Some ["job-1"] ∧
  "job-1" ∈ ["job-1"] ∧
  snapshot reloaded_page "job-1"
  = Some (Stringified (JObject (with_startedAt (Some 1000) job1))) ∧
  with_needsVerification true
    (with_progressId "job-1" (with_startedAt (Some 1000) job1))
  ∈ progressItems (exec (reconcileOnStartup (λ _, Resolves 200)) reloaded_page).
Proof.
  assert (active_crawls reloaded_page = Some ["job-1"]) as H1 by reflexivity.
  assert ("job-1" ∈ ["job-1"]) as H2 by left.
  assert (snapshot reloaded_page "job-1"
          = Some (Stringified (JObject (with_startedAt (Some 1000) job1))))
    as H3 by reflexivity.
  assert (isCompleted (with_startedAt (Some 1000) job1)
          || isStale (clock reloaded_page)
               (startedAt_or (with_startedAt (Some 1000) job1)
                  (clock reloaded_page)) = false) as H4 by reflexivity.
  split_and!; [done | done | done |].
  apply (reconcile_verification (λ _, Resolves 200) reloaded_page ["job-1"]
           "job-1" _ H1 H2 H3 H4).
  exists 200. split; [done | lia].
Defined.

(** C10: during startup verification, a response that is neither a success
    nor a 404 (HTTP 500, say) leaves the item out of the tracked list (the id
    is tracked afterwards only if it was before, and not at all when another
    item was verified) and out of the clean-up: its snapshot and its entry in
    the stored list stay, and no toast is shown. *)
Theorem verification_unknown_status fetch items p ids item response_status :
  active_crawls p = Some ids →
  item ∈ items →
  fetch (progressId item) = Resolves response_status →
  ¬ (200 ≤ response_status ≤ 299) →
  response_status ≠ 404 →
  let id := progressId item in
  let p' := exec (verifyAndRestoreProgressItems fetch items) p in
  returns (verifyAndRestoreProgressItems fetch items) p ∧
  (id ∈ ids_of (progressItems p') → id ∈ ids_of (progressItems p)) ∧
  ((∃ x s, x ∈ items ∧ fetch (progressId x) = Resolves s ∧ 200 ≤ s ≤ 299) →
   id ∉ ids_of (progressItems p')) ∧
  snapshot p' id = snapshot p id ∧
  (∃ ids', active_crawls p' = Some ids' ∧ (id ∈ ids' ↔ id ∈ ids)) ∧
  (∀ msg kind, showToast msg kind ∈ trace p' → showToast msg kind ∈ trace p).
Proof.
  intros Hstored Hitem Hfetch Hok H404 id p'. subst p' id.
  unfold exec, returns. rewrite (verifyAndRestoreProgressItems_run _ _ _ _ Hstored).
  cbn [fst snd].
  assert (verdict (fetch (progressId item)) = Unknown) as Hunknown.
  { rewrite Hfetch. unfold verdict, response_ok.
    rewrite bool_decide_false by done. by rewrite decide_False. }
  assert (progressId item ∉ removed_of fetch items) as Hkept.
  { intros [_ ?]%removed_of_elem. congruence. }
  assert (progressId item ∉ ids_of (unique_items (verified_of fetch items)))
    as Hout.
  { rewrite unique_items_ids.
    intros (x & Hx & [_ Hv]%verified_of_elem)%list_elem_of_fmap. congruence. }
  split_and!.
  - by exists tt.
  - rewrite verified_progressItems. by case_bool_decide.
  - intros (x & s & Hx & Hs & Hrange).
    rewrite verified_progressItems, bool_decide_true; [done |].
    assert (x ∈ verified_of fetch items) as Hin.
    { apply verified_of_elem. split; [done |]. apply verdict_Verified. by exists s. }
    destruct (verified_of fetch items); [by apply elem_of_nil in Hin | cbn; lia].
  - rewrite verified_snapshot. by apply decide_False.
  - eexists. split; [by apply verified_active |].
    rewrite list_elem_of_filter. tauto.
  - intros msg kind. by rewrite verified_toasts.
Qed.

(** C10 at the reloaded page, the server answering 500. *)
Lemma verification_unknown_status_witness :
  active_crawls reloaded_page = Some ["job-1"] ∧
  job1 ∈ [job1] ∧
  snapshot (exec (verifyAndRestoreProgressItems (λ _, Resolves 500) [job1])
              reloaded_page) "job-1"
  = snapshot reloaded_page "job-1".
Proof.
  assert (active_crawls reloaded_page = Some ["job-1"]) as H1 by reflexivity.
  assert (job1 ∈ [job1]) as H2 by left.
  split_and!; [done | done |].
  apply (verification_unknown_status (λ _, Resolves 500) [job1] reloaded_page
           ["job-1"] job1 500 H1 H2 eq_refl); lia.
Defined.



(** * Further properties *)

(** ** Dismissing and starting *)

Lemma snapshot_after_clean id id' (storage : gmap string text) v :
  (<[active_crawls_key := v]> (delete (crawl_progress_key id) storage))
    !! crawl_progress_key id'
  = if decide (id' = id) then None else storage !! crawl_progress_key id'.
Proof.
  rewrite lookup_insert_ne
    by (intros Heq; by apply (crawl_progress_key_active id')).
  destruct (decide (id' = id)) as [->|Hne]; [apply lookup_delete_eq |].
  apply lookup_delete_ne. by intros ?%crawl_progress_key_inj.
Qed.

Lemma handleDismissProgress_run id p ids :
  active_crawls p = Some ids →
  handleDismissProgress id p
  = (Normal tt,
     let updated := filter (λ x, x ≠ id) ids in
     {| progressItems :=
          unique_items (filter (λ item, progressId item ≠ id) (progressItems p));
        showCrawlingTab :=
          if bool_decide (length (progressItems p) = 1%nat) then false
          else showCrawlingTab p;
        localStorage :=
          <[active_crawls_key := Stringified (JArray updated)]>
            (delete (crawl_progress_key id) (localStorage p));
        clock := clock p;
        timers := timers p;
        trace :=
          trace p ++ [storageRemoveItem (crawl_progress_key id);
                      storageSetItem active_crawls_key
                        (Stringified (JArray updated))] |}).
Proof.
  intros H. unfold handleDismissProgress. do 2 mstep.
  unfold when. case_bool_decide.
  - do 2 mstep. erewrite remove_from_active_crawls_run; [| read_stored].
    destruct p. cbn. by rewrite <- !app_assoc.
  - do 2 mstep. erewrite remove_from_active_crawls_run; [| read_stored].
    destruct p. cbn. by rewrite <- !app_assoc.
Qed.

Lemma handleStartCrawl_run id initialData p ids :
  active_crawls p = Some ids →
  handleStartCrawl id initialData p
  = (Normal tt,
     let stored := <[crawl_progress_key id := started_snapshot id initialData (clock p)]>
                     (localStorage p) in
     let listed := Stringified (JArray (ids ++ [id])) in
     {| progressItems :=
          unique_items (progressItems p ++ [newProgressItem id initialData]);
        showCrawlingTab := true;
        localStorage :=
          if bool_decide (id ∈ ids) then stored
          else <[active_crawls_key := listed]> stored;
        clock := clock p;
        timers := timers p;
        trace :=
          trace p
          ++ storageSetItem (crawl_progress_key id)
               (started_snapshot id initialData (clock p))
             :: (if bool_decide (id ∈ ids) then []
                 else [storageSetItem active_crawls_key listed]) |}).
Proof.
  intros H. unfold handleStartCrawl. cbv zeta. do 5 mstep.
  unfold bind, JSON_parse, js_includes.
  assert (or_text (localStorage p !! active_crawls_key) empty_array
          = Stringified (JArray ids)) as Hs.
  { unfold active_crawls, stored_ids in H.
    destruct (or_text _ _) as [| |[]]; try done. by injection H as ->. }
  destruct p as [items tab storage now ts tr].
  cbn [localStorage set_trace set_localStorage set_progressItems
       set_showCrawlingTab trace] in *.
  rewrite lookup_insert_ne by apply crawl_progress_key_active.
  rewrite Hs. cbn -[unique_items]. unfold when, started_snapshot, newProgressItem.
  destruct (bool_decide (id ∈ ids)); unfold setItem, ret; cbn -[unique_items];
    by rewrite <- ?app_assoc.
Qed.

(** X1: Dismissing forgets an id at once, whatever its status: it is gone
    from the tracked list, the storage and the stored list, every other id is
    kept as it was, and besides the two storage calls nothing happens: no
    timer, no toast, no service. *)
Theorem handleDismissProgress_forgets id p ids :
  active_crawls p = Some ids →
  let p' := exec (handleDismissProgress id) p in
  returns (handleDismissProgress id) p ∧
  (id ∉ ids_of (progressItems p')) ∧
  snapshot p' id = None ∧
  active_crawls p' = Some (filter (λ x, x ≠ id) ids) ∧
  (∀ id', id' ≠ id →
          snapshot p' id' = snapshot p id' ∧
          (id' ∈ ids_of (progressItems p') ↔ id' ∈ ids_of (progressItems p))) ∧
  timers p' = timers p ∧
  trace p' = trace p ++ [storageRemoveItem (crawl_progress_key id);
                         storageSetItem active_crawls_key
                           (Stringified (JArray (filter (λ x, x ≠ id) ids)))].
Proof.
  intros H p'. subst p'. unfold exec, returns.
  rewrite (handleDismissProgress_run _ _ _ H). cbn [fst snd].
  split_and!; try done.
  - by exists tt.
  - apply filtered_id_gone.
  - unfold snapshot. cbn. by rewrite snapshot_after_clean, decide_True.
  - apply stored_ids_insert_list.
  - intros id' Hne. split.
    + unfold snapshot. cbn. by rewrite snapshot_after_clean, decide_False.
    + cbn. rewrite unique_items_ids. unfold ids_of.
      rewrite !list_elem_of_fmap. split.
      * intros (x & -> & [_ Hx]%list_elem_of_filter). by exists x.
      * intros (x & -> & Hx). exists x. split; [done |].
        by apply list_elem_of_filter.
Qed.

Lemma handleDismissProgress_forgets_witness :
  active_crawls job1_page = Some ["job-1"] ∧
  "job-1" ∉ ids_of (progressItems (exec (handleDismissProgress "job-1") job1_page)).
Proof.
  assert (active_crawls job1_page = Some ["job-1"]) as H by reflexivity.
  split; [done |].
  apply (handleDismissProgress_forgets "job-1" job1_page ["job-1"] H).
Defined.

(** X2: When the stored list can be read, starting a crawl tracks it and
    persists it: the new item is the one tracked item with its id, with status
    starting; the snapshot stored under its key is that item with startedAt
    set to the current time; the id is in the stored list, which is written
    only when the id was missing and so gains no duplicate; the tab is shown.
    Other snapshots are untouched. *)
Theorem handleStartCrawl_tracks_and_persists id initialData p ids :
  active_crawls p = Some ids →
  let p' := exec (handleStartCrawl id initialData) p in
  let item := newProgressItem id initialData in
  returns (handleStartCrawl id initialData) p ∧
  (item ∈ progressItems p' ∧
   (∀ x, x ∈ progressItems p' → progressId x = id → x = item) ∧
   status item = Some "starting" ∧ progress item = Some 0) ∧
  snapshot p' id
  = Some (Stringified (JObject (with_startedAt (Some (clock p)) item))) ∧
  (∃ ids', active_crawls p' = Some ids' ∧
           (∀ x, x ∈ ids' ↔ x ∈ ids ∨ x = id) ∧
           (NoDup ids → NoDup ids') ∧
           (id ∈ ids → ids' = ids ∧ list_writes (trace p') = list_writes (trace p))) ∧
  (∀ id', id' ≠ id → snapshot p' id' = snapshot p id') ∧
  showCrawlingTab p' = true ∧
  crawlingTabVisible p' = true.
Proof.
  intros H p' item. subst p'. unfold exec, returns.
  rewrite (handleStartCrawl_run _ _ _ _ H). cbn [fst snd].
  destruct (unique_items_append (progressItems p) item) as (H1 & H2 & _).
  assert (progressId item = id) as Hid by done.
  split_and!.
  - by exists tt.
  - exact H1.
  - intros x Hx Hxid. apply H2; [exact Hx | by rewrite Hid].
  - done.
  - done.
  - unfold snapshot. cbn. case_bool_decide.
    + by rewrite lookup_insert_eq.
    + rewrite lookup_insert_ne
        by (intros Heq; by apply (crawl_progress_key_active id)).
      by rewrite lookup_insert_eq.
  - unfold active_crawls in *. cbn. case_bool_decide as Hin.
    + exists ids. rewrite stored_ids_insert_snapshot. split_and!; try done.
      * intros x. split; [by left | by intros [?| ->]].
      * intros _. split; [done |].
        change (length (filter _ ?t)) with (list_writes t).
        rewrite list_writes_app.
        unfold list_writes at 2. rewrite filter_cons, filter_nil.
        cbn [is_list_write].
        rewrite decide_False; [cbn; lia |].
        intros ?%bool_decide_unpack. by apply (crawl_progress_key_active id).
    + exists (ids ++ [id]). rewrite stored_ids_insert_list. split_and!; try done.
      * intros x. by rewrite elem_of_app, list_elem_of_singleton.
      * intros Hnd. apply NoDup_app. split_and!; [done | | apply NoDup_singleton].
        intros x Hx ->%list_elem_of_singleton. done.
  - intros id' Hne. unfold snapshot. cbn.
    assert (crawl_progress_key id ≠ crawl_progress_key id') as Hkeys.
    { intros ?%crawl_progress_key_inj. done. }
    case_bool_decide.
    + by rewrite lookup_insert_ne.
    + rewrite lookup_insert_ne
        by (intros Heq; by apply (crawl_progress_key_active id')).
      by rewrite lookup_insert_ne.
  - done.
  - unfold crawlingTabVisible. cbn. apply bool_decide_eq_true.
    destruct (unique_items _); [by apply elem_of_nil in H1 | cbn; lia].
Qed.

Lemma handleStartCrawl_tracks_and_persists_witness :
  active_crawls job1_page = Some ["job-1"] ∧
  snapshot (exec (handleStartCrawl "job-2" (bare "")) job1_page) "job-2"
  = Some (Stringified (JObject (with_startedAt (Some (clock job1_page))
                                  (newProgressItem "job-2" (bare ""))))).
Proof.
  assert (active_crawls job1_page = Some ["job-1"]) as H by reflexivity.
  split; [done |].
  apply (handleStartCrawl_tracks_and_persists "job-2" (bare "") job1_page
           ["job-1"] H).
Defined.

(** ** Retrying *)

Lemma find_item_None id items :
  find_item id items = None ↔ id ∉ ids_of items.
Proof.
  unfold find_item, ids_of. rewrite fmap_None. split.
  - intros H%list_find_None. rewrite Forall_forall in H.
    intros (x & -> & Hx)%list_elem_of_fmap. by apply (H x).
  - intros H. apply list_find_None, Forall_forall. intros x Hx Hid.
    apply H. rewrite <- Hid. by apply list_elem_of_fmap_2.
Qed.

Lemma find_item_Some id items item :
  find_item id items = Some item → item ∈ items ∧ progressId item = id.
Proof.
  unfold find_item. intros ([i x] & Hf & ->)%fmap_Some.
  apply list_find_Some in Hf as (Hi & Hx & _). split; [| done].
  by apply list_elem_of_lookup_2 in Hi.
Qed.

Lemma handleRetryProgress_absent id result p :
  find_item id (progressItems p) = None →
  handleRetryProgress id result p
  = (Normal tt,
     set_trace (trace p ++ [showToast "Progress item not found" "error"]) p).
Proof.
  unfold find_item, handleRetryProgress. intros H%fmap_None. mstep. by rewrite H.
Qed.

(** The first part of a retry, up to the test of line 692. *)
Lemma handleRetryProgress_found id result p ids item :
  find_item id (progressItems p) = Some item →
  active_crawls p = Some ids →
  handleRetryProgress id result p
  = try_catch
      (match originalCrawlParams item with
       | Some params =>
           emit (showToast "Retrying crawl..." "info") ;;;
           emit (crawlUrl params) ;;;
           let* answer := await result in
           match truthy answer with
           | Some newId =>
               handleStartCrawl newId (retry_data params newId) ;;;
               emit (showToast "Crawl restarted successfully" "success")
           | None => ret tt
           end
       | None => ret tt
       end)
      (emit (showToast "Retry failed" "error"))
      (retry_cleared id ids p).
Proof.
  unfold find_item, handleRetryProgress. intros ([i x] & Hf & ->)%fmap_Some H.
  mstep. rewrite Hf. cbn [snd]. unfold try_catch.
  do 2 mstep.
  erewrite (bind_normal (remove_from_active_crawls _));
    [| apply remove_from_active_crawls_run; read_stored].
  assert (∀ q q' : Page, q = q' → ∀ k : M unit, k q = k q') as Hcongr
    by (by intros ?? ->).
  rewrite (Hcongr _ (retry_cleared id ids p)); [done |].
  unfold retry_cleared. destruct p. cbn. by rewrite <- !app_assoc.
Qed.

(** Retrying an id that is not tracked only shows a toast. *)
Lemma handleRetryProgress_unknown_id id result p :
  id ∉ ids_of (progressItems p) →
  let p' := exec (handleRetryProgress id result) p in
  progressItems p' = progressItems p ∧
  localStorage p' = localStorage p ∧
  timers p' = timers p ∧
  trace p' = trace p ++ [showToast "Progress item not found" "error"].
Proof.
  intros H%find_item_None p'. subst p'. unfold exec.
  by rewrite (handleRetryProgress_absent _ _ _ H).
Qed.

Lemma handleRetryProgress_unknown_id_witness :
("job-9" ∉ ids_of (progressItems job1_page)) ∧
  localStorage (exec (handleRetryProgress "job-9" Rejects) job1_page)
  = localStorage job1_page.
Proof.
  assert ("job-9" ∉ ids_of (progressItems job1_page)) as H.
  { intros [?|[]%elem_of_nil]%elem_of_cons. done. }
  split; [done |].
  apply (handleRetryProgress_unknown_id "job-9" Rejects job1_page H).
Defined.

(** X3: When the stored list can be read, retrying an item that carries no
    original crawl parameters reports nothing: the item is left with status
    starting and the message "Retrying...", its snapshot and its entry in the
    stored list are removed, and the handler calls no service, shows no toast
    and sets no timer. *)
Theorem handleRetryProgress_without_params id result p ids item :
  find_item id (progressItems p) = Some item →
  originalCrawlParams item = None →
  active_crawls p = Some ids →
  let p' := exec (handleRetryProgress id result) p in
  returns (handleRetryProgress id result) p ∧
  id ∈ ids_of (progressItems p') ∧
  (∀ x, x ∈ progressItems p' → progressId x = id →
        status x = Some "starting" ∧ message x = Some "Retrying..." ∧
        error x = None) ∧
  snapshot p' id = None ∧
  active_crawls p' = Some (filter (λ x, x ≠ id) ids) ∧
  timers p' = timers p ∧
  trace p' = trace p ++ [storageRemoveItem (crawl_progress_key id);
                         storageSetItem active_crawls_key
                           (Stringified (JArray (filter (λ x, x ≠ id) ids)))].
Proof.
  intros Hfind Hparams H p'. subst p'. unfold exec, returns.
  rewrite (handleRetryProgress_found _ _ _ _ _ Hfind H), Hparams.
  destruct (find_item_Some _ _ _ Hfind) as [Hin Hid].
  unfold try_catch, ret. cbn [fst snd]. split_and!.
  - by exists tt.
  - apply (rewritten_tracked id retrying); [done |].
    rewrite <- Hid. by apply list_elem_of_fmap_2.
  - intros x Hx Hxid.
    apply (rewritten_elem id retrying) in Hx as (y & _ & _ & ->); done.
  - unfold snapshot. cbn. by rewrite snapshot_after_clean, decide_True.
  - apply stored_ids_insert_list.
  - done.
  - done.
Qed.

Lemma handleRetryProgress_without_params_witness :
  find_item "job-1" (progressItems job1_page) = Some job1 ∧
  originalCrawlParams job1 = None ∧
  active_crawls job1_page = Some ["job-1"] ∧
  timers (exec (handleRetryProgress "job-1" Rejects) job1_page)
  = timers job1_page.
Proof.
  assert (find_item "job-1" (progressItems job1_page) = Some job1) as H1
    by reflexivity.
  assert (originalCrawlParams job1 = None) as H2 by reflexivity.
  assert (active_crawls job1_page = Some ["job-1"]) as H3 by reflexivity.
  split_and!; [done | done | done |].
  apply (handleRetryProgress_without_params "job-1" Rejects job1_page
           ["job-1"] job1 H1 H2 H3).
Defined.

Lemma retry_cleared_active id ids p :
  active_crawls (retry_cleared id ids p) = Some (filter (λ x, x ≠ id) ids).
Proof. apply stored_ids_insert_list. Qed.

Lemma retry_cleared_retrying id ids p x :
  x ∈ progressItems (retry_cleared id ids p) → progressId x = id →
  status x = Some "starting" ∧ message x = Some "Retrying..." ∧ error x = None.
Proof.
  intros Hx Hid.
  apply (rewritten_elem id retrying) in Hx as (y & _ & _ & ->); done.
Qed.

Lemma retry_cleared_tracked id ids p :
  id ∈ ids_of (progressItems p) →
  id ∈ ids_of (progressItems (retry_cleared id ids p)).
Proof. by apply (rewritten_tracked id retrying). Qed.

(** A retry whose new crawl the service accepts. *)
Lemma handleRetryProgress_restarted id newId p ids item params :
  find_item id (progressItems p) = Some item →
  originalCrawlParams item = Some params →
  active_crawls p = Some ids →
  newId ≠ "" →
  handleRetryProgress id (Resolves (Some newId)) p
  = (Normal tt,
     let q := retry_cleared id ids p in
     let q' := set_trace (trace q ++ [showToast "Retrying crawl..." "info";
                                      crawlUrl params]) q in
     let r := exec (handleStartCrawl newId (retry_data params newId)) q' in
     set_trace (trace r ++ [showToast "Crawl restarted successfully" "success"]) r).
Proof.
  intros Hfind Hparams H Hnew.
  rewrite (handleRetryProgress_found _ _ _ _ _ Hfind H), Hparams.
  unfold try_catch. do 3 mstep. rewrite (truthy_Some _ Hnew).
  cbv zeta. unfold exec, emit.
  erewrite bind_normal;
    [| apply handleStartCrawl_run; apply stored_ids_insert_list].
  erewrite (handleStartCrawl_run newId (retry_data params newId));
    [| apply stored_ids_insert_list].
  cbn [fst snd]. destruct p. cbn. by rewrite <- !app_assoc.
Qed.


(** X4: When the stored list can be read, a retry the service accepts tracks
    the new crawl beside the old one: the new item is tracked and persisted
    under the new id with the original parameters, while the item retried
    stays in the list, reading "starting" and "Retrying...", with no snapshot
    and no entry in the stored list.  The retry sets no timer and clears
    none: the item retried stays for good when no timer is pending for its
    id, and a timer that is pending for it (the one the failure handler set
    less than five seconds before) removes it when it is due. *)
Theorem handleRetryProgress_restarts id newId p ids item params :
  find_item id (progressItems p) = Some item →
  originalCrawlParams item = Some params →
  active_crawls p = Some ids →
  newId ≠ "" →
  newId ≠ id →
  let p' := exec (handleRetryProgress id (Resolves (Some newId))) p in
  let started := newProgressItem newId (retry_data params newId) in
  returns (handleRetryProgress id (Resolves (Some newId))) p ∧
  (started ∈ progressItems p' ∧
   originalCrawlParams started = Some params ∧
   currentUrl started = Some (url params)) ∧
  (id ∈ ids_of (progressItems p') ∧
   ∀ x, x ∈ progressItems p' → progressId x = id →
        status x = Some "starting" ∧ message x = Some "Retrying..." ∧
        error x = None) ∧
  snapshot p' id = None ∧
  snapshot p' newId
  = Some (started_snapshot newId (retry_data params newId) (clock p)) ∧
  (∃ ids', active_crawls p' = Some ids' ∧ (id ∉ ids') ∧ newId ∈ ids' ∧
           ∀ x, x ≠ id → x ≠ newId → (x ∈ ids' ↔ x ∈ ids)) ∧
  timers p' = timers p ∧
  (∃ writes,
     trace p'
     = trace p
       ++ [storageRemoveItem (crawl_progress_key id);
           storageSetItem active_crawls_key
             (Stringified (JArray (filter (λ x, x ≠ id) ids)));
           showToast "Retrying crawl..." "info";
           crawlUrl params]
       ++ writes ++ [showToast "Crawl restarted successfully" "success"] ∧
     ∀ e, e ∈ writes → ∃ key v, e = storageSetItem key v) ∧
  (∀ ms, (∀ t, t ∈ timers p → task_progressId t.2 ≠ id) →
         id ∈ ids_of (progressItems (elapse ms p')) ∧
         ∀ x, x ∈ progressItems (elapse ms p') → progressId x = id →
              status x = Some "starting" ∧ message x = Some "Retrying...") ∧
  (∀ t ms, t ∈ timers p → task_progressId t.2 = id → t.1 ≤ clock p + ms →
           id ∉ ids_of (progressItems (elapse ms p'))).
Proof.
  intros Hfind Hparams H Hnew Hne p' started. subst p'. unfold exec, returns.
  rewrite (handleRetryProgress_restarted _ _ _ _ _ _ Hfind Hparams H Hnew).
  cbn [fst snd]. cbv zeta.
  set (q := retry_cleared id ids p).
  set (q' := set_trace _ q).
  assert (active_crawls q' = Some (filter (λ x, x ≠ id) ids)) as Hq'
    by apply stored_ids_insert_list.
  unfold exec. rewrite (handleStartCrawl_run _ _ _ _ Hq'). cbn [fst snd].
  destruct (find_item_Some _ _ _ Hfind) as [Hin Hid].
  destruct (unique_items_append (progressItems q') started)
    as (H1 & H2 & _ & H4 & _).
  assert (crawl_progress_key newId ≠ crawl_progress_key id) as Hkeys.
  { by intros ?%crawl_progress_key_inj. }
  split_and!.
  - by exists tt.
  - exact H1.
  - done.
  - done.
  - cbn. apply H4. left. apply retry_cleared_tracked.
    rewrite <- Hid. by apply list_elem_of_fmap_2.
  - cbn. intros x Hx%unique_items_elem Hxid.
    apply elem_of_app in Hx as [Hx| ->%list_elem_of_singleton]; [| done].
    by apply (retry_cleared_retrying id ids p).
  - unfold snapshot. cbn. case_bool_decide.
    + rewrite lookup_insert_ne by done.
      by rewrite snapshot_after_clean, decide_True.
    + rewrite lookup_insert_ne
        by (intros Heq; by apply (crawl_progress_key_active id)).
      rewrite lookup_insert_ne by done.
      by rewrite snapshot_after_clean, decide_True.
  - unfold snapshot. cbn. case_bool_decide.
    + by rewrite lookup_insert_eq.
    + rewrite lookup_insert_ne
        by (intros Heq; by apply (crawl_progress_key_active newId)).
      by rewrite lookup_insert_eq.
  - unfold active_crawls. cbn. case_bool_decide as Hknown.
    + exists (filter (λ x, x ≠ id) ids).
      rewrite stored_ids_insert_snapshot, stored_ids_insert_list.
      split_and!; [done | apply filtered_out | done |].
      intros x Hx _. rewrite list_elem_of_filter. tauto.
    + exists (filter (λ x, x ≠ id) ids ++ [newId]).
      rewrite stored_ids_insert_list. split_and!; [done | | |].
      * intros [?%filtered_out| ?%list_elem_of_singleton]%elem_of_app; done.
      * apply elem_of_app. right. left.
      * intros x Hx Hx'.
        rewrite elem_of_app, list_elem_of_filter, list_elem_of_singleton. tauto.
  - done.
  - cbn.
    exists (storageSetItem (crawl_progress_key newId)
              (started_snapshot newId (retry_data params newId) (clock p))
            :: (if bool_decide (newId ∈ filter (λ x, x ≠ id) ids) then []
                else [storageSetItem active_crawls_key
                        (Stringified
                           (JArray (filter (λ x, x ≠ id) ids ++ [newId])))])).
    split; [by rewrite <- !app_assoc |].
    intros e He. apply elem_of_cons in He as [-> | He]; [by eexists _, _ |].
    case_bool_decide; [by apply elem_of_nil in He |].
    apply list_elem_of_singleton in He as ->. by eexists _, _.
  - intros ms Hother. rewrite elapse_fire. split.
    + apply fired_kept.
      * intros t [_ Ht]%list_elem_of_filter. by apply Hother.
      * cbn. apply H4. left. apply retry_cleared_tracked.
        rewrite <- Hid. by apply list_elem_of_fmap_2.
    + intros x Hx%fired_elem Hxid. cbn in Hx.
      apply unique_items_elem in Hx.
      apply elem_of_app in Hx as [Hx| ->%list_elem_of_singleton]; [| done].
      by destruct (retry_cleared_retrying id ids p x Hx Hxid) as (? & ? & _).
  - intros t ms Ht Htid Hdue. rewrite elapse_fire, <- Htid.
    apply (fired_gone _ _ t). apply list_elem_of_filter. by split.
Qed.


Lemma handleRetryProgress_restarts_witness :
  find_item "job-1" (progressItems job1_failed_page) = Some job1_failed ∧
  originalCrawlParams job1_failed = Some docs_request ∧
  active_crawls job1_failed_page = Some ["job-1"] ∧
  "job-2" ≠ "" ∧ "job-2" ≠ "job-1" ∧
  newProgressItem "job-2" (retry_data docs_request "job-2")
  ∈ progressItems (exec (handleRetryProgress "job-1" (Resolves (Some "job-2")))
                     job1_failed_page).
Proof.
  assert (find_item "job-1" (progressItems job1_failed_page) = Some job1_failed)
    as H1 by reflexivity.
  assert (originalCrawlParams job1_failed = Some docs_request) as H2
    by reflexivity.
  assert (active_crawls job1_failed_page = Some ["job-1"]) as H3 by reflexivity.
  assert ("job-2" ≠ "") as H4 by done.
  assert ("job-2" ≠ "job-1") as H5 by done.
  split_and!; [done | done | done | done | done |].
  apply (handleRetryProgress_restarts "job-1" "job-2" job1_failed_page
           ["job-1"] job1_failed docs_request H1 H2 H3 H4 H5).
Defined.


(** A retry whose new crawl is not started: the service rejects, or answers
    without a progress id. *)
Lemma handleRetryProgress_refused id result p ids item params :
  find_item id (progressItems p) = Some item →
  originalCrawlParams item = Some params →
  active_crawls p = Some ids →
  result = Rejects ∨ (∃ answer, result = Resolves answer ∧ truthy answer = None) →
  handleRetryProgress id result p
  = (Normal tt,
     let q := retry_cleared id ids p in
     set_trace (trace q ++ [showToast "Retrying crawl..." "info"; crawlUrl params]
                        ++ match result with
                           | Rejects => [showToast "Retry failed" "error"]
                           | Resolves _ => []
                           end) q).
Proof.
  intros Hfind Hparams H Hresult.
  rewrite (handleRetryProgress_found _ _ _ _ _ Hfind H), Hparams.
  unfold try_catch. do 2 mstep.
  destruct Hresult as [-> | (answer & -> & Hanswer)].
  - unfold bind, await, throw, emit. destruct p. cbn. by rewrite <- !app_assoc.
  - mstep. rewrite Hanswer. unfold ret. destruct p. cbn.
    by rewrite <- !app_assoc.
Qed.

(** X5: When the stored list can be read, a retry the service does not take
    up leaves the item reading "starting" and "Retrying...", without snapshot
    and without entry in the stored list; the error toast is shown only when
    the call was rejected, an answer without a progress id passes in silence.
    The retry sets no timer and clears none: when no timer is pending for the
    id the item is stuck for good, and a timer that is pending for it (the one
    the failure handler set less than five seconds before) removes it when it
    is due. *)
Theorem handleRetryProgress_not_restarted id result p ids item params :
  find_item id (progressItems p) = Some item →
  originalCrawlParams item = Some params →
  active_crawls p = Some ids →
  result = Rejects ∨ (∃ answer, result = Resolves answer ∧ truthy answer = None) →
  let p' := exec (handleRetryProgress id result) p in
  returns (handleRetryProgress id result) p ∧
  trace p'
  = trace p ++ [storageRemoveItem (crawl_progress_key id);
                storageSetItem active_crawls_key
                  (Stringified (JArray (filter (λ x, x ≠ id) ids)));
                showToast "Retrying crawl..." "info";
                crawlUrl params]
            ++ match result with
               | Rejects => [showToast "Retry failed" "error"]
               | Resolves _ => []
               end ∧
  snapshot p' id = None ∧
  active_crawls p' = Some (filter (λ x, x ≠ id) ids) ∧
  timers p' = timers p ∧
  (∀ ms, (∀ t, t ∈ timers p → task_progressId t.2 ≠ id) →
         id ∈ ids_of (progressItems (elapse ms p')) ∧
         ∀ x, x ∈ progressItems (elapse ms p') → progressId x = id →
              status x = Some "starting" ∧ message x = Some "Retrying...") ∧
  (∀ t ms, t ∈ timers p → task_progressId t.2 = id → t.1 ≤ clock p + ms →
           id ∉ ids_of (progressItems (elapse ms p'))).
Proof.
  intros Hfind Hparams H Hresult p'. subst p'. unfold exec, returns.
  rewrite (handleRetryProgress_refused _ _ _ _ _ _ Hfind Hparams H Hresult).
  cbn [fst snd]. cbv zeta.
  destruct (find_item_Some _ _ _ Hfind) as [Hin Hid].
  split_and!.
  - by exists tt.
  - cbn. by rewrite <- !app_assoc.
  - unfold snapshot. cbn. by rewrite snapshot_after_clean, decide_True.
  - apply stored_ids_insert_list.
  - done.
  - intros ms Hother. rewrite elapse_fire. split.
    + apply fired_kept.
      * intros t [_ Ht]%list_elem_of_filter. by apply Hother.
      * apply (retry_cleared_tracked id ids p).
        rewrite <- Hid. by apply list_elem_of_fmap_2.
    + intros x Hx%fired_elem Hxid.
      by destruct (retry_cleared_retrying id ids p x Hx Hxid) as (? & ? & _).
  - intros t ms Ht Htid Hdue. rewrite elapse_fire, <- Htid.
    apply (fired_gone _ _ t). apply list_elem_of_filter. by split.
Qed.

(** X5 at the page that tracks "job-1", retried right after its failure
    was reported: the timer of the failure removes the item retried. *)
Lemma handleRetryProgress_not_restarted_witness :
  let p := exec (handleProgressError "boom" (Some "job-1")) job1_failed_page in
  let t := (7000, {| task_progressId := "job-1"; task_items_length := 1 |}) in
  find_item "job-1" (progressItems p) = Some (failed_with "boom" job1_failed) ∧
  originalCrawlParams (failed_with "boom" job1_failed) = Some docs_request ∧
  active_crawls p = Some [] ∧
  t ∈ timers p ∧
  snapshot (exec (handleRetryProgress "job-1" Rejects) p) "job-1" = None ∧
  "job-1" ∉ ids_of (progressItems
                      (elapse 5000 (exec (handleRetryProgress "job-1" Rejects) p))).
Proof.
  intros p t.
  assert (find_item "job-1" (progressItems p)
          = Some (failed_with "boom" job1_failed)) as H1 by reflexivity.
  assert (originalCrawlParams (failed_with "boom" job1_failed)
          = Some docs_request) as H2 by reflexivity.
  assert (active_crawls p = Some []) as H3 by reflexivity.
  assert (t ∈ timers p) as H4 by left.
  assert (@Rejects (option string) = Rejects
          ∨ (∃ answer : option string,
               Rejects = Resolves answer ∧ truthy answer = None)) as H5 by by left.
  destruct (handleRetryProgress_not_restarted "job-1" Rejects p []
              (failed_with "boom" job1_failed) docs_request H1 H2 H3 H5)
    as (_ & _ & Hsnap & _ & _ & _ & Hgone).
  split_and!; [done | done | done | done | done |].
  apply (Hgone t 5000 H4); [reflexivity |]. by vm_compute.
Defined.

(** ** A stored list that cannot be read *)

(** X6: When the stored list cannot be read, a completion is cut short after
    it removed the snapshot: the handler throws, the item stays tracked, no
    toast is shown and the knowledge items are not reloaded. *)
Theorem handleProgressComplete_unreadable_list data p :
  active_crawls p = None →
  let p' := exec (handleProgressComplete data) p in
  ¬ returns (handleProgressComplete data) p ∧
  progressItems p' = progressItems p ∧
  showCrawlingTab p' = showCrawlingTab p ∧
  snapshot p' (progressId data) = None ∧
  list_entry p' = list_entry p ∧
  trace p' = trace p ++ [storageRemoveItem (crawl_progress_key (progressId data))].
Proof.
  intros H p'. subst p'. unfold exec, returns, handleProgressComplete. mstep.
  set (q := set_trace _ _).
  destruct (remove_from_active_crawls_unreadable (progressId data) q) as [e He].
  { subst q. unfold active_crawls in *. cbn. by rewrite stored_ids_delete_snapshot. }
  erewrite bind_throw; [| exact He]. cbn [fst snd]. split_and!; try done.
  - by intros [? ?].
  - unfold snapshot. cbn. apply lookup_delete_eq.
  - unfold list_entry. cbn. apply lookup_delete_ne, crawl_progress_key_active.
Qed.

Lemma handleProgressComplete_unreadable_list_witness :
  active_crawls corrupted_page = None ∧
  progressItems (exec (handleProgressComplete job1) corrupted_page)
  = progressItems corrupted_page.
Proof.
  assert (active_crawls corrupted_page = None) as H by reflexivity.
  split; [done |].
  apply (handleProgressComplete_unreadable_list job1 corrupted_page H).
Defined.



(** X8: When the stored list cannot be read, a stop the service accepted is
    reported as failed: the crawl is stopped and the item reads cancelled,
    yet the toast says "Failed to stop crawl". *)
Theorem handleStopProgress_unreadable_list id p :
  id ∈ ids_of (progressItems p) →
  active_crawls p = None →
  let p' := exec (handleStopProgress id (Resolves tt)) p in
  returns (handleStopProgress id (Resolves tt)) p ∧
  trace p' = trace p ++ [stopCrawl id; showToast "Failed to stop crawl" "error"] ∧
  id ∈ ids_of (progressItems p') ∧
  (∀ x, x ∈ progressItems p' → progressId x = id →
        status x = Some "cancelled") ∧
  localStorage p' = localStorage p.
Proof.
  intros Htracked H p'. subst p'. unfold exec, returns, handleStopProgress.
  unfold try_catch. do 3 mstep.
  set (q := set_progressItems _ _).
  destruct (remove_from_active_crawls_unreadable id q) as [e He]; [done |].
  rewrite He. cbn [fst snd]. split_and!.
  - by exists tt.
  - cbn. by rewrite <- app_assoc.
  - by apply (rewritten_tracked id (with_status (Some "cancelled"))).
  - intros x Hx Hxid. cbn in Hx.
    apply (rewritten_elem id (with_status (Some "cancelled"))) in Hx
      as (y & _ & _ & ->); done.
  - done.
Qed.

Lemma handleStopProgress_unreadable_list_witness :
  "job-1" ∈ ids_of (progressItems corrupted_page) ∧
  active_crawls corrupted_page = None ∧
  trace (exec (handleStopProgress "job-1" (Resolves tt)) corrupted_page)
  = trace corrupted_page
    ++ [stopCrawl "job-1"; showToast "Failed to stop crawl" "error"].
Proof.
  assert ("job-1" ∈ ids_of (progressItems corrupted_page)) as H1 by left.
  assert (active_crawls corrupted_page = None) as H2 by reflexivity.
  split_and!; [done | done |].
  apply (handleStopProgress_unreadable_list "job-1" corrupted_page H1 H2).
Defined.

Lemma active_crawls_unreadable p :
  active_crawls p = None ↔ unreadable (list_entry p).
Proof.
  unfold active_crawls, stored_ids, unreadable, list_entry. split.
  - intros H ids Heq. by rewrite Heq in H.
  - intros H. destruct (or_text _ _) as [| |[|ids|]]; try done.
    by destruct (H ids).
Qed.

(** A start over a stored list that cannot be read. *)
Lemma handleStartCrawl_cut id initialData p :
  active_crawls p = None →
  ∃ e, handleStartCrawl id initialData p
       = (Throw e,
          {| progressItems :=
               unique_items (progressItems p ++ [newProgressItem id initialData]);
             showCrawlingTab := true;
             localStorage :=
               <[crawl_progress_key id := started_snapshot id initialData (clock p)]>
                 (localStorage p);
             clock := clock p;
             timers := timers p;
             trace :=
               trace p ++ [storageSetItem (crawl_progress_key id)
                             (started_snapshot id initialData (clock p))] |}).
Proof.
  intros H. unfold handleStartCrawl. cbv zeta. do 5 mstep.
  unfold bind, JSON_parse, js_includes.
  unfold active_crawls, stored_ids in H.
  destruct p as [items tab storage now ts tr].
  cbn [localStorage set_trace set_localStorage set_progressItems
       set_showCrawlingTab trace] in *.
  rewrite lookup_insert_ne by apply crawl_progress_key_active.
  unfold started_snapshot, newProgressItem, throw.
  destruct (or_text _ _) as [| |[|ids|d]]; try done;
    eexists; cbn -[unique_items]; by rewrite <- ?app_assoc.
Qed.

(** The startup effect over a stored list that cannot be read. *)
Lemma reconcileOnStartup_cut fetch p :
  active_crawls p = None →
  exec (reconcileOnStartup fetch) p = p ∧
  ((∀ d, list_entry p ≠ Some (Stringified (JObject d))) →
   ¬ returns (reconcileOnStartup fetch) p).
Proof.
  unfold active_crawls, stored_ids, list_entry, exec, returns,
    reconcileOnStartup, bind, getItem.
  cbn [fst snd]. intros H.
  destruct (localStorage p !! active_crawls_key) as [[| |[|ids|d]]|] eqn:Hs;
    cbn in *; try done.
  - split; [done |]. intros _ [? ?]. done.
  - split; [done |]. intros _ [? ?]. done.
  - split; [done |]. intros Hd. by destruct (Hd d).
Qed.

(** X30: When the stored list cannot be read (the string under
    "active_crawls" is no JSON, or it parses to null or to an object),
    starting a crawl tracks the item, shows the tab and writes the snapshot,
    and then throws at the list: the id is never listed.  After a reload the
    startup effect therefore asks the server nothing and restores nothing,
    and the snapshot is left behind; unless the list parses to an object, the
    effect itself throws. *)
Theorem handleStartCrawl_unreadable_list id initialData p fetch now :
  active_crawls p = None →
  let p1 := exec (handleStartCrawl id initialData) p in
  let item := newProgressItem id initialData in
  let q := initial_page (localStorage p1) now in
  let q' := exec (reconcileOnStartup fetch) q in
  ¬ returns (handleStartCrawl id initialData) p ∧
  (item ∈ progressItems p1 ∧
   ∀ x, x ∈ progressItems p1 → progressId x = id → x = item) ∧
  showCrawlingTab p1 = true ∧
  snapshot p1 id = Some (started_snapshot id initialData (clock p)) ∧
  list_entry p1 = list_entry p ∧
  timers p1 = timers p ∧
  trace p1 = trace p ++ [storageSetItem (crawl_progress_key id)
                           (started_snapshot id initialData (clock p))] ∧
  (progressItems q' = [] ∧ trace q' = [] ∧
   snapshot q' id = Some (started_snapshot id initialData (clock p)) ∧
   list_entry q' = list_entry p ∧
   ((∀ d, list_entry p ≠ Some (Stringified (JObject d))) →
    ¬ returns (reconcileOnStartup fetch) q)).
Proof.
  intros H p1 item q q'.
  destruct (handleStartCrawl_cut id initialData p H) as [e He].
  assert (snapshot p1 id = Some (started_snapshot id initialData (clock p)))
    as Hsnap.
  { subst p1. unfold exec, snapshot. rewrite He. cbn. apply lookup_insert_eq. }
  assert (list_entry p1 = list_entry p) as Hentry.
  { subst p1. unfold exec, list_entry. rewrite He. cbn.
    apply lookup_insert_ne, crawl_progress_key_active. }
  assert (active_crawls q = None) as Hq.
  { apply active_crawls_unreadable.
    change (list_entry q) with (list_entry p1). rewrite Hentry.
    by apply active_crawls_unreadable. }
  destruct (reconcileOnStartup_cut fetch q Hq) as [Hsame Hthrows].
  assert (snapshot q id = Some (started_snapshot id initialData (clock p)))
    as Hqsnap by exact Hsnap.
  assert (list_entry q = list_entry p) as Hqentry by exact Hentry.
  assert (progressItems q = [] ∧ trace q = []) as [Hqitems Hqtrace] by done.
  subst q'. rewrite Hsame.
  destruct (unique_items_append (progressItems p) item) as (H1 & H2 & _).
  assert (progressId item = id) as Hid by done.
  clearbody q.
  subst p1. unfold exec, returns in *. rewrite He in *. cbn [fst snd] in *.
  split_and!; try done.
  - by intros [? ?].
  - intros Hd. apply Hthrows. intros d. rewrite Hqentry. apply Hd.
Qed.

Lemma handleStartCrawl_unreadable_list_witness :
  active_crawls corrupted_page = None ∧
  list_entry (exec (handleStartCrawl "job-2" (bare "")) corrupted_page)
  = list_entry corrupted_page.
Proof.
  assert (active_crawls corrupted_page = None) as H by reflexivity.
  split; [done |].
  apply (handleStartCrawl_unreadable_list "job-2" (bare "") corrupted_page
           (λ _, Resolves 200) 0 H).
Defined.

(** ** Invariants of the handlers *)

Section preserves_combinators.
Context {A B : Type} (I : Page → Prop).

Lemma preserves_ret (a : A) : preserves I (ret a).
Proof. by intros p. Qed.

Lemma preserves_throw e : preserves I (@throw A e).
Proof. by intros p. Qed.

Lemma preserves_bind (m : M A) (k : A → M B) :
  preserves I m → (∀ a, preserves I (k a)) → preserves I (bind m k).
Proof.
  intros Hm Hk p Hp. unfold bind. specialize (Hm p Hp).
  destruct (m p) as [[a|e] p']; [by apply Hk | done].
Qed.

Lemma preserves_bind_throw e (k : A → M B) : preserves I (bind (throw e) k).
Proof. by intros p. Qed.

Lemma preserves_try_catch (body handler : M A) :
  preserves I body → preserves I handler → preserves I (try_catch body handler).
Proof.
  intros Hb Hh p Hp. unfold try_catch. specialize (Hb p Hp).
  destruct (body p) as [[a|e] p']; [done | by apply Hh].
Qed.

Lemma preserves_await (r : ApiResult A) : preserves I (await r).
Proof. destruct r; by intros p. Qed.
End preserves_combinators.

Lemma preserves_for_of {A S} I (l : list A) (body : A → S → M S) acc :
  (∀ x a, preserves I (body x a)) → preserves I (for_of l body acc).
Proof.
  intros Hbody. revert acc. induction l as [|x l IH]; intros acc; cbn.
  - apply preserves_ret.
  - apply preserves_bind; [apply Hbody | intros a; apply IH].
Qed.

Lemma preserves_when I b m : preserves I m → preserves I (when b m).
Proof. destruct b; [done | intros _; apply preserves_ret]. Qed.

Lemma preserves_forEach {A} I (l : list A) f :
  (∀ x, preserves I (f x)) → preserves I (forEach l f).
Proof. intros Hf. apply preserves_for_of. intros x _. apply Hf. Qed.

Lemma preserves_detached I m : preserves I m → preserves I (detached m).
Proof. intros Hm p Hp. by apply Hm. Qed.

Lemma preserves_Date_now I : preserves I Date_now.
Proof. by intros p. Qed.

Lemma preserves_closure_progressItems I : preserves I closure_progressItems.
Proof. by intros p. Qed.

Lemma preserves_getItem I key : preserves I (getItem key).
Proof. by intros p. Qed.

Lemma preserves_JSON_parse I s : preserves I (JSON_parse s).
Proof. destruct s; by intros p. Qed.

Lemma preserves_as_object I j : preserves I (as_object j).
Proof. destruct j; by intros p. Qed.

Lemma preserves_js_filter I j (keep : string → Prop) `{!∀ id, Decision (keep id)} :
  preserves I (js_filter j keep).
Proof. destruct j; by intros p. Qed.

Lemma preserves_js_includes I j id : preserves I (js_includes j id).
Proof. destruct j; by intros p. Qed.

Section framed_invariants.
Variable I : Page → Prop.
Hypothesis frame : framed I.

Lemma preserves_setShowCrawlingTab v : preserves I (setShowCrawlingTab v).
Proof. intros p. by apply frame. Qed.

Lemma preserves_setTimeout t d : preserves I (setTimeout t d).
Proof. intros p. by apply frame. Qed.

Lemma preserves_setProgressItems_Function f :
  (∀ prev, preserves I (f prev)) → preserves I (setProgressItems (Function f)).
Proof.
  intros Hf p Hp. unfold setProgressItems, setProgressItemsRaw, bind, ret.
  specialize (Hf (progressItems p) p Hp).
  destruct (f (progressItems p) p) as [[v|e] p']; [| done].
  cbn in *. revert Hf. by apply frame.
Qed.

Lemma preserves_setProgressItems_Items v :
  preserves I (setProgressItems (Items v)).
Proof. intros p. by apply frame. Qed.
End framed_invariants.

Lemma framed_reloaded n : framed (reloaded n).
Proof. intros p q _ Ht. unfold reloaded. by rewrite Ht. Qed.

Lemma framed_list_entry_is v : framed (list_entry_is v).
Proof. intros p q Hs _. unfold list_entry_is, list_entry. by rewrite Hs. Qed.

(** *** No reload *)

Lemma reloaded_emit n e : is_refresh e = false → preserves (reloaded n) (emit e).
Proof.
  intros He p. unfold reloaded, emit. cbn [snd trace set_trace].
  rewrite refreshes_app. intros <-.
  unfold refreshes at 2. rewrite filter_cons, filter_nil, He. cbn.
  destruct (decide False); [done | cbn; lia].
Qed.

Lemma reloaded_setItem n key v : preserves (reloaded n) (setItem key v).
Proof.
  intros p. unfold reloaded, setItem, removeItem. cbn [snd trace set_trace].
  rewrite refreshes_app. intros <-.
  unfold refreshes at 2. rewrite filter_cons, filter_nil. cbn.
  destruct (decide False); [done | cbn; lia].
Qed.

Lemma reloaded_removeItem n key : preserves (reloaded n) (removeItem key).
Proof.
  intros p. unfold reloaded, setItem, removeItem. cbn [snd trace set_trace].
  rewrite refreshes_app. intros <-.
  unfold refreshes at 2. rewrite filter_cons, filter_nil. cbn.
  destruct (decide False); [done | cbn; lia].
Qed.

(** *** The raw list entry *)

Lemma list_entry_is_emit v e : preserves (list_entry_is v) (emit e).
Proof. by intros p. Qed.

Lemma list_entry_is_setItem v id x :
  preserves (list_entry_is v) (setItem (crawl_progress_key id) x).
Proof.
  intros p. unfold list_entry_is, list_entry. cbn. intros <-.
  apply lookup_insert_ne, crawl_progress_key_active.
Qed.

Lemma list_entry_is_removeItem v id :
  preserves (list_entry_is v) (removeItem (crawl_progress_key id)).
Proof.
  intros p. unfold list_entry_is, list_entry. cbn. intros <-.
  apply lookup_delete_ne, crawl_progress_key_active.
Qed.

(** Reading a list entry that holds no list: the parse throws, or gives a
    value that is no array. *)
Lemma list_entry_is_read {B} v (K : json → M B) :
  unreadable v →
  (∀ j, (∀ ids, j ≠ JArray ids) → preserves (list_entry_is v) (K j)) →
  preserves (list_entry_is v)
    (bind (getItem active_crawls_key)
       (λ s, bind (JSON_parse (or_text s empty_array)) K)).
Proof.
  intros Hv HK p Hp. unfold bind, getItem.
  unfold list_entry_is, list_entry in Hp. rewrite Hp.
  specialize (Hv). unfold unreadable in Hv.
  destruct (or_text v empty_array) as [| |j] eqn:Hj; cbn; try done.
  apply HK; [| done]. intros ids ->. by apply (Hv ids).
Qed.

Create HintDb preserves.

#[export] Hint Resolve preserves_ret preserves_throw preserves_await
  preserves_Date_now preserves_closure_progressItems preserves_getItem
  preserves_JSON_parse preserves_as_object preserves_js_filter
  preserves_js_includes preserves_bind_throw
  framed_reloaded framed_list_entry_is
  reloaded_emit reloaded_setItem reloaded_removeItem
  list_entry_is_emit list_entry_is_setItem list_entry_is_removeItem
  : preserves.

#[export] Hint Extern 1 (preserves _ (setShowCrawlingTab _)) =>
  apply preserves_setShowCrawlingTab : preserves.
#[export] Hint Extern 1 (preserves _ (setTimeout _ _)) =>
  apply preserves_setTimeout : preserves.
#[export] Hint Extern 1 (preserves _ (setProgressItems (Items _))) =>
  apply preserves_setProgressItems_Items : preserves.

(** One statement of a handler, for an invariant. *)
Ltac preserves_step :=
  lazymatch goal with
  | |- preserves _ (bind (throw _) _) => apply preserves_bind_throw
  | H : unreadable ?v
    |- preserves (list_entry_is ?v) (bind (getItem active_crawls_key) _) =>
      apply (list_entry_is_read v _ H);
      let j := fresh "j" in
      let Hj := fresh "Hj" in
      intros j Hj; destruct j as [|?ids|?d];
      [| exfalso; by eapply Hj |];
      cbn [js_filter js_includes]; cbn beta iota
  | |- preserves _ (bind _ _) => apply preserves_bind; [| intros ?]
  | |- preserves _ (try_catch _ _) => apply preserves_try_catch
  | |- preserves _ (when _ _) => apply preserves_when
  | |- preserves _ (detached _) => apply preserves_detached
  | |- preserves _ (forEach _ _) => apply preserves_forEach; intros ?
  | |- preserves _ (for_of _ _ _) => apply preserves_for_of; intros ? ?
  | |- preserves _ (setProgressItems (Function _)) =>
      apply preserves_setProgressItems_Function;
      [solve [auto with preserves] | intros ?]
  | |- preserves _ (match ?x with _ => _ end) => destruct x
  | |- preserves _ (let _ := _ in _) => cbv zeta
  | |- _ => solve [auto with preserves]
  end.

Ltac preserves := repeat preserves_step.

Section unreadable_list.
Variable v : option text.
Hypothesis Hv : unreadable v.

Lemma list_entry_is_remove_from_active_crawls id :
  preserves (list_entry_is v) (remove_from_active_crawls id).
Proof. unfold remove_from_active_crawls. preserves. Qed.

#[local] Hint Resolve list_entry_is_remove_from_active_crawls : preserves.

Lemma list_entry_is_handleProgressComplete data :
  preserves (list_entry_is v) (handleProgressComplete data).
Proof. unfold handleProgressComplete. preserves. Qed.

Lemma list_entry_is_handleProgressError msg id :
  preserves (list_entry_is v) (handleProgressError msg id).
Proof. unfold handleProgressError. preserves. Qed.

Lemma list_entry_is_handleStartCrawl id initialData :
  preserves (list_entry_is v) (handleStartCrawl id initialData).
Proof. unfold handleStartCrawl. preserves. Qed.

#[local] Hint Resolve list_entry_is_handleStartCrawl : preserves.

Lemma list_entry_is_handleRetryProgress id result :
  preserves (list_entry_is v) (handleRetryProgress id result).
Proof. unfold handleRetryProgress. preserves. Qed.

Lemma list_entry_is_handleStopProgress id result :
  preserves (list_entry_is v) (handleStopProgress id result).
Proof. unfold handleStopProgress. preserves. Qed.

Lemma list_entry_is_handleDismissProgress id :
  preserves (list_entry_is v) (handleDismissProgress id).
Proof. unfold handleDismissProgress. preserves. Qed.

Lemma list_entry_is_handleRefreshItem sourceId found response :
  preserves (list_entry_is v) (handleRefreshItem sourceId found response).
Proof. unfold handleRefreshItem. preserves. Qed.

Lemma list_entry_is_reconcileOnStartup fetch :
  preserves (list_entry_is v) (reconcileOnStartup fetch).
Proof. unfold reconcileOnStartup. preserves. Qed.

Lemma list_entry_is_handle e p :
  list_entry_is v p → list_entry_is v (handle e p).
Proof.
  destruct e; cbn [handle].
  - apply list_entry_is_handleStartCrawl.
  - apply list_entry_is_handleRefreshItem.
  - apply list_entry_is_handleProgressComplete.
  - apply list_entry_is_handleProgressError.
  - apply list_entry_is_handleRetryProgress.
  - apply list_entry_is_handleStopProgress.
  - apply list_entry_is_handleDismissProgress.
  - apply list_entry_is_reconcileOnStartup.
  - unfold list_entry_is, list_entry.
    by destruct (elapse_frame ms p) as [-> _].
Qed.
End unreadable_list.


Section no_reload.
Variable n : nat.

Lemma reloaded_remove_from_active_crawls id :
  preserves (reloaded n) (remove_from_active_crawls id).
Proof. unfold remove_from_active_crawls. preserves. Qed.

#[local] Hint Resolve reloaded_remove_from_active_crawls : preserves.

Lemma reloaded_handleProgressError msg id :
  preserves (reloaded n) (handleProgressError msg id).
Proof. unfold handleProgressError. preserves. Qed.

Lemma reloaded_handleStartCrawl id initialData :
  preserves (reloaded n) (handleStartCrawl id initialData).
Proof. unfold handleStartCrawl. preserves. Qed.

#[local] Hint Resolve reloaded_handleStartCrawl : preserves.

Lemma reloaded_handleRetryProgress id result :
  preserves (reloaded n) (handleRetryProgress id result).
Proof. unfold handleRetryProgress. preserves. Qed.

Lemma reloaded_handleStopProgress id result :
  preserves (reloaded n) (handleStopProgress id result).
Proof. unfold handleStopProgress. preserves. Qed.

Lemma reloaded_handleDismissProgress id :
  preserves (reloaded n) (handleDismissProgress id).
Proof. unfold handleDismissProgress. preserves. Qed.

Lemma reloaded_handleRefreshItem sourceId found response :
  preserves (reloaded n) (handleRefreshItem sourceId found response).
Proof. unfold handleRefreshItem. preserves. Qed.

Lemma reloaded_reconcileOnStartup fetch :
  preserves (reloaded n) (reconcileOnStartup fetch).
Proof.
  unfold reconcileOnStartup, clean_up_stale, classify,
    verifyAndRestoreProgressItems, verify.
  preserves.
Qed.

(** Only a completion reloads the knowledge items. *)
Lemma reloaded_handle e p :
  is_completion e = false → reloaded n p → reloaded n (handle e p).
Proof.
  destruct e; cbn [handle is_completion]; intros He; try done.
  - apply reloaded_handleStartCrawl.
  - apply reloaded_handleRefreshItem.
  - apply reloaded_handleProgressError.
  - apply reloaded_handleRetryProgress.
  - apply reloaded_handleStopProgress.
  - apply reloaded_handleDismissProgress.
  - apply reloaded_reconcileOnStartup.
  - unfold reloaded. by destruct (elapse_frame ms p) as [_ ->].
Qed.
End no_reload.


(** ** The stored list and the snapshots *)

Lemma handleStartCrawl_tracked id initialData p ids :
  active_crawls p = Some ids →
  handleStartCrawl id initialData p
  = (Normal tt, tracked_page (newProgressItem id initialData) ids p).
Proof. intros H. by rewrite (handleStartCrawl_run _ _ _ _ H). Qed.

Lemma handleRefreshItem_tracked sourceId item_url newId p ids :
  newId ≠ "" →
  active_crawls p = Some ids →
  handleRefreshItem sourceId (Some item_url) (Resolves (Some newId)) p
  = (Normal tt,
     tracked_page (refresh_item newId item_url) ids
       (set_trace (trace p ++ [refreshKnowledgeItem sourceId]) p)).
Proof.
  intros Hnew H. unfold handleRefreshItem, try_catch.
  do 2 mstep. rewrite (truthy_Some _ Hnew). cbv zeta. do 4 mstep.
  unfold bind, JSON_parse, js_includes, getItem.
  assert (or_text (localStorage p !! active_crawls_key) empty_array
          = Stringified (JArray ids)) as Hs.
  { unfold active_crawls, stored_ids in H.
    destruct (or_text _ _) as [| |[]]; try done. by injection H as ->. }
  destruct p as [items tab storage now ts tr].
  cbn [localStorage set_trace set_localStorage set_progressItems
       set_showCrawlingTab trace] in *.
  rewrite lookup_insert_ne by apply crawl_progress_key_active.
  rewrite Hs. unfold when, tracked_page, refresh_item. cbn -[unique_items].
  destruct (bool_decide (newId ∈ ids)); unfold setItem, ret; cbn -[unique_items];
    by rewrite <- ?app_assoc.
Qed.

Lemma tracked_page_active item ids p :
  active_crawls p = Some ids →
  active_crawls (tracked_page item ids p)
  = Some (if bool_decide (progressId item ∈ ids) then ids
          else ids ++ [progressId item]).
Proof.
  intros H. unfold active_crawls, tracked_page in *. cbn. case_bool_decide.
  - by rewrite stored_ids_insert_snapshot.
  - by rewrite stored_ids_insert_list.
Qed.

Lemma tracked_page_snapshot item ids p x :
  snapshot (tracked_page item ids p) x
  = if decide (x = progressId item)
    then Some (Stringified (JObject (with_startedAt (Some (clock p)) item)))
    else snapshot p x.
Proof.
  unfold snapshot, tracked_page. cbn.
  assert (localStorage p !! crawl_progress_key x
          = <[active_crawls_key :=
                Stringified (JArray (ids ++ [progressId item]))]>
              (localStorage p) !! crawl_progress_key x) as Hlist.
  { symmetry. apply lookup_insert_ne. intros Heq.
    by apply (crawl_progress_key_active x). }
  destruct (decide (x = progressId item)) as [-> | Hne].
  - case_bool_decide.
    + by rewrite lookup_insert_eq.
    + rewrite lookup_insert_ne
        by (intros Heq; by apply (crawl_progress_key_active (progressId item))).
      by rewrite lookup_insert_eq.
  - assert (crawl_progress_key (progressId item) ≠ crawl_progress_key x)
      as Hkeys by (by intros ?%crawl_progress_key_inj).
    case_bool_decide.
    + by rewrite lookup_insert_ne.
    + rewrite lookup_insert_ne
        by (intros Heq; by apply (crawl_progress_key_active x)).
      by rewrite lookup_insert_ne.
Qed.

Lemma follows_same ids p p' :
  active_crawls p = Some ids →
  localStorage p' = localStorage p → follows_at ids p p'.
Proof.
  intros H Heq. exists ids. unfold active_crawls, snapshot in *.
  rewrite Heq. split_and!; [done | done |]. by intros x Hx Hs.
Qed.

Lemma follows_trans ids p q r :
  follows_at ids p q →
  (∀ ids1, active_crawls q = Some ids1 → follows_at ids1 q r) →
  follows_at ids p r.
Proof.
  intros (ids' & H1 & Hnd1 & Hs1) Hqr.
  destruct (Hqr ids' H1) as (ids2 & H2 & Hnd2 & Hs2).
  exists ids2. split_and!; [done | by auto |].
  intros x Hx Hs. destruct (Hs2 x Hx Hs) as [Hx1 Hsq]. by apply Hs1.
Qed.

(** An id leaves the list; no other snapshot is touched. *)
Lemma follows_removed id ids p p' :
  active_crawls p' = Some (filter (λ x, x ≠ id) ids) →
  (∀ x, x ≠ id → snapshot p' x = snapshot p x) →
  follows_at ids p p'.
Proof.
  intros Hlist Hsnap. exists (filter (λ x, x ≠ id) ids).
  split_and!; [done | by apply NoDup_filter |].
  intros x [Hne Hx]%list_elem_of_filter Hs. by rewrite <- (Hsnap x Hne).
Qed.

(** An id enters the list with its snapshot. *)
Lemma follows_tracked item ids p :
  active_crawls p = Some ids →
  follows_at ids p (tracked_page item ids p).
Proof.
  intros H. eexists. split_and!; [by apply tracked_page_active | |].
  - intros Hnd. case_bool_decide as Hin; [done |].
    apply NoDup_app. split_and!; [done | | apply NoDup_singleton].
    by intros x Hx ->%list_elem_of_singleton.
  - intros x Hx. rewrite tracked_page_snapshot.
    destruct (decide (x = progressId item)) as [-> | Hne]; [done |].
    intros Hs. split; [| done]. case_bool_decide; [done |].
    apply elem_of_app in Hx as [Hx | ->%list_elem_of_singleton]; done.
Qed.

(** Appending effects changes nothing of it. *)
Lemma follows_set_trace ids p p' t :
  follows_at ids p p' → follows_at ids p (set_trace t p').
Proof. done. Qed.

Lemma follows_retry_cleared id ids p :
  follows_at ids p (retry_cleared id ids p).
Proof.
  apply (follows_removed id).
  - apply retry_cleared_active.
  - intros x Hne. unfold snapshot. cbn.
    by rewrite snapshot_after_clean, decide_False.
Qed.

Lemma truthy_inv answer id : truthy answer = Some id → answer = Some id ∧ id ≠ "".
Proof.
  unfold truthy. destruct answer as [s|]; [| done].
  destruct (decide (s = "")); [done |]. by intros [= ->].
Qed.

Lemma follows_clean id ids p p' :
  localStorage p'
  = <[active_crawls_key := Stringified (JArray (filter (λ x, x ≠ id) ids))]>
      (delete (crawl_progress_key id) (localStorage p)) →
  follows_at ids p p'.
Proof.
  intros Heq. apply (follows_removed id).
  - unfold active_crawls. rewrite Heq. apply stored_ids_insert_list.
  - intros x Hne. unfold snapshot. rewrite Heq.
    by rewrite snapshot_after_clean, decide_False.
Qed.

Lemma follows_handle e p ids :
  active_crawls p = Some ids → follows_at ids p (handle e p).
Proof.
  intros H.
  destruct e as [id data | sourceId found response | data | msg id | id result
                | id result | id | fetch | ms]; cbn [handle]; unfold exec.
  - rewrite (handleStartCrawl_tracked _ _ _ _ H). by apply follows_tracked.
  - destruct found as [item_url|]; [| by apply follows_same].
    destruct response as [answer|]; [| by apply follows_same].
    destruct (truthy answer) as [newId|] eqn:Hanswer.
    + apply truthy_inv in Hanswer as [-> Hnew].
      rewrite (handleRefreshItem_tracked _ _ _ _ _ Hnew H). cbn [snd].
      set (q := set_trace _ p).
      assert (follows_at ids q (tracked_page (refresh_item newId item_url) ids q))
        as (ids' & ? & ? & Hs) by (by apply follows_tracked).
      exists ids'. split_and!; done.
    + unfold handleRefreshItem, try_catch. do 2 mstep. rewrite Hanswer.
      by apply follows_same.
  - rewrite (handleProgressComplete_run _ _ _ H).
    by apply (follows_clean (progressId data)).
  - destruct (truthy id) as [id'|] eqn:Hid.
    + apply truthy_inv in Hid as [-> Hid].
      rewrite (handleProgressError_run _ _ _ _ Hid H).
      by apply (follows_clean id').
    + apply follows_same; [done |]. unfold handleProgressError. mstep.
      by rewrite Hid.
  - destruct (find_item id (progressItems p)) as [item|] eqn:Hfind;
      [| rewrite (handleRetryProgress_absent _ _ _ Hfind); by apply follows_same].
    destruct (originalCrawlParams item) as [params|] eqn:Hparams;
      [| rewrite (handleRetryProgress_found _ _ _ _ _ Hfind H), Hparams;
         apply follows_retry_cleared].
    assert (∀ r, r = Rejects ∨
                 (∃ answer, r = Resolves answer ∧ truthy answer = None) →
                 follows_at ids p (handleRetryProgress id r p).2) as Hrefused.
    { intros r Hr.
      rewrite (handleRetryProgress_refused _ _ _ _ _ _ Hfind Hparams H Hr).
      apply follows_set_trace, follows_retry_cleared. }
    destruct result as [answer|]; [| apply Hrefused; by left].
    destruct (truthy answer) as [newId|] eqn:Hanswer;
      [| apply Hrefused; right; by eexists].
    apply truthy_inv in Hanswer as [-> Hnew].
    rewrite (handleRetryProgress_restarted _ _ _ _ _ _ Hfind Hparams H Hnew).
    cbn [snd]. cbv zeta. apply follows_set_trace.
    eapply follows_trans; [apply (follows_retry_cleared id) |].
    intros ids1 H1.
    unfold exec. erewrite handleStartCrawl_tracked; [| exact H1].
    cbn [snd].
    assert (follows_at ids1 (set_trace
              (trace (retry_cleared id ids p)
               ++ [showToast "Retrying crawl..." "info"; crawlUrl params])
              (retry_cleared id ids p))
              (tracked_page (newProgressItem newId (retry_data params newId)) ids1
                 (set_trace
                    (trace (retry_cleared id ids p)
                     ++ [showToast "Retrying crawl..." "info"; crawlUrl params])
                    (retry_cleared id ids p))))
      as (ids' & ? & ? & Hs) by (by apply follows_tracked).
    exists ids'. split_and!; done.
  - destruct result as [[]|].
    + rewrite (handleStopProgress_resolved _ _ _ H).
      apply (follows_removed id); [apply stored_ids_insert_list |].
      intros x Hne. unfold snapshot. cbn. apply lookup_insert_ne.
      intros Heq. by apply (crawl_progress_key_active x).
    + rewrite handleStopProgress_rejected. by apply follows_same.
  - rewrite (handleDismissProgress_run _ _ _ H). by apply (follows_clean id).
  - rewrite (reconcileOnStartup_run _ _ _ H). cbn [snd].
    eexists. split_and!; [by apply reconciled_active | |].
    + intros Hnd. by do 2 apply NoDup_filter.
    + intros x [Hremoved [Hstale Hx]%list_elem_of_filter]%list_elem_of_filter.
      rewrite reconciled_snapshot. rewrite decide_False by tauto.
      done.
  - apply follows_same; [done |]. by destruct (elapse_frame ms p) as [-> _].
Qed.


Lemma run_snoc events e p : run (events ++ [e]) p = handle e (run events p).
Proof. unfold run. by rewrite foldl_snoc. Qed.

Lemma completions_snoc events e :
  completions (events ++ [e])
  = (completions events + if is_completion e then 1 else 0)%nat.
Proof.
  unfold completions. rewrite filter_app, length_app, filter_cons, filter_nil.
  by destruct (is_completion e).
Qed.

Lemma follows_run events p ids :
  active_crawls p = Some ids → follows_at ids p (run events p).
Proof.
  intros H. induction events as [|e events IH] using rev_ind.
  - by apply follows_same.
  - rewrite run_snoc. eapply follows_trans; [exact IH |].
    intros ids1 H1. by apply follows_handle.
Qed.

(** X9: The stored list and the snapshots stay consistent, whatever happens to
    the page: if the list is readable and duplicate-free and every id in it
    has a snapshot, this is still so after any sequence of events (starts,
    refreshes, completions, failures, retries, stops, dismissals,
    reconciliations and the passing of time, with any answers of the
    services). *)
Theorem stored_list_consistent events p :
  consistent p → consistent (run events p).
Proof.
  intros (ids & H & Hnd & Hsnap).
  destruct (follows_run events p ids H) as (ids' & H' & Hnd' & Hsnap').
  exists ids'. split_and!; [done | by auto |].
  intros x Hx Hs. destruct (Hsnap' x Hx Hs) as [Hin Hnone].
  by apply (Hsnap x Hin).
Qed.

Lemma stored_list_consistent_witness :
  consistent (initial_page ∅ 0) ∧
  consistent (run [StartCrawl "job-1" (bare ""); StopProgress "job-1" (Resolves tt);
                   StartCrawl "job-1" (bare ""); Elapse 1000;
                   Reconcile (λ _, Resolves 200)]
                (initial_page ∅ 0)).
Proof.
  assert (consistent (initial_page ∅ 0)) as H.
  { exists []. split_and!; [reflexivity | apply NoDup_nil_2 |].
    by intros x ?%elem_of_nil. }
  split; [done |].
  apply (stored_list_consistent _ (initial_page ∅ 0) H).
Defined.

Lemma handle_refreshes e p ids :
  active_crawls p = Some ids →
  refreshes (trace (handle e p))
  = (refreshes (trace p) + if is_completion e then 1 else 0)%nat.
Proof.
  intros H. destruct (is_completion e) eqn:He.
  - destruct e; try done. cbn [handle]. unfold exec.
    rewrite (handleProgressComplete_run _ _ _ H). cbn [snd trace].
    by rewrite refreshes_app.
  - rewrite (reloaded_handle (refreshes (trace p)) e p He); [lia | done].
Qed.

(** X10: Of the progress events (starts, refreshes, completions, failures
    and their timers, retries, stops, dismissals, reconciliations), only the
    completions reload the knowledge items, and as long as the stored list
    can be read each of them does so once: after any sequence of these events
    the number of reloads they made is the number of completions among them,
    duplicates and completions of unknown ids included.  (The reloads the
    page makes after mounting and for its cards and dialogs are no progress
    events and are not counted.) *)
Theorem reloads_count_completions events p ids :
  active_crawls p = Some ids →
  refreshes (trace (run events p))
  = (refreshes (trace p) + completions events)%nat.
Proof.
  intros H. induction events as [|e events IH] using rev_ind.
  - unfold completions. cbn. lia.
  - rewrite run_snoc, completions_snoc.
    destruct (follows_run events p ids H) as (ids' & H' & _).
    rewrite (handle_refreshes _ _ _ H'), IH. lia.
Qed.

Lemma reloads_count_completions_witness :
  active_crawls job1_page = Some ["job-1"] ∧
  refreshes (trace (run [ProgressComplete job1; DismissProgress "job-1";
                         ProgressComplete job1] job1_page))
  = 2%nat.
Proof.
  assert (active_crawls job1_page = Some ["job-1"]) as H by reflexivity.
  split; [done |].
  apply (reloads_count_completions
           [ProgressComplete job1; DismissProgress "job-1"; ProgressComplete job1]
           job1_page ["job-1"] H).
Defined.

(** X11: A stored list that cannot be read is never repaired: after any
    sequence of events the raw entry is what it was, so the list is still
    unreadable, and no completion has reloaded the knowledge items. *)
Theorem unreadable_list_never_repaired events p :
  active_crawls p = None →
  let p' := run events p in
  list_entry p' = list_entry p ∧
  active_crawls p' = None ∧
  refreshes (trace p') = refreshes (trace p).
Proof.
  intros H p'. subst p'.
  induction events as [|e events IH] using rev_ind; [done |].
  destruct IH as (IH1 & IH2 & IH3). rewrite run_snoc.
  set (q := run events p) in *.
  assert (list_entry (handle e q) = list_entry p) as Hentry.
  { rewrite <- IH1. apply (list_entry_is_handle (list_entry q)); [| done].
    by apply active_crawls_unreadable. }
  split_and!; [done | |].
  - apply active_crawls_unreadable. rewrite Hentry.
    by apply active_crawls_unreadable.
  - rewrite <- IH3. destruct (is_completion e) eqn:He.
    + destruct e; try done. cbn [handle]. unfold exec.
      destruct (handleProgressComplete_cut data q IH2) as [e ->].
      cbn [snd trace set_trace]. rewrite refreshes_app.
      change (refreshes [storageRemoveItem _]) with 0%nat. lia.
    + by apply (reloaded_handle (refreshes (trace q)) e q He).
Qed.

Lemma unreadable_list_never_repaired_witness :
  active_crawls corrupted_page = None ∧
  active_crawls (run [ProgressComplete job1; StartCrawl "job-2" (bare "");
                      DismissProgress "job-1"] corrupted_page)
  = None.
Proof.
  assert (active_crawls corrupted_page = None) as H by reflexivity.
  split; [done |].
  apply (unreadable_list_never_repaired
           [ProgressComplete job1; StartCrawl "job-2" (bare "");
            DismissProgress "job-1"] corrupted_page H).
Defined.


(** ** Reloading the page *)

Lemma restored_ids storage now ids id :
  id ∈ ids_of (restored_of storage now ids) →
  id ∈ ids ∧ queued storage now id ≠ None.
Proof.
  unfold ids_of. intros (item & -> & Hitem)%list_elem_of_fmap.
  apply restored_of_elem in Hitem as (id & Hid & Hq).
  rewrite (queued_progressId _ _ _ _ Hq). split; [done |]. by rewrite Hq.
Qed.

(** What the reconciliation can touch of an id. *)
Lemma reconciled_unknown fetch ids p id :
  (id ∉ ids_of (restored_of (localStorage p) (clock p) ids)) →
  (id ∈ ids_of (progressItems (reconciled fetch ids p)) →
   id ∈ ids_of (progressItems p)) ∧
  (fetchProgress id ∈ trace (reconciled fetch ids p) →
   fetchProgress id ∈ trace p).
Proof.
  intros Hid. split.
  - rewrite reconciled_progressItems. case_bool_decide; [| done].
    rewrite unique_items_ids. unfold ids_of.
    intros (item & -> & [Hitem _]%verified_of_elem)%list_elem_of_fmap.
    destruct Hid. by apply list_elem_of_fmap_2.
  - rewrite reconciled_fetched. by intros [?|?].
Qed.

(** X12: The reconciliation looks at listed ids only: the snapshot of an id
    that is not in the stored list is left as it is, whatever it says and
    however old it is; the id is not asked about and not restored. *)
Theorem reconcile_ignores_unlisted fetch p ids id :
  active_crawls p = Some ids →
  (id ∉ ids) →
  let p' := exec (reconcileOnStartup fetch) p in
  returns (reconcileOnStartup fetch) p ∧
  snapshot p' id = snapshot p id ∧
  (id ∈ ids_of (progressItems p') → id ∈ ids_of (progressItems p)) ∧
  (fetchProgress id ∈ trace p' → fetchProgress id ∈ trace p).
Proof.
  intros H Hid p'. subst p'. unfold exec, returns.
  rewrite (reconcileOnStartup_run _ _ _ H). cbn [fst snd].
  assert (id ∉ ids_of (restored_of (localStorage p) (clock p) ids)) as Hr.
  { by intros [? _]%restored_ids. }
  split_and!.
  - by exists tt.
  - rewrite reconciled_snapshot. rewrite decide_False; [done |].
    intros [[? _]%stale_of_elem | [? _]%removed_of_elem]; done.
  - by apply reconciled_unknown.
  - by apply reconciled_unknown.
Qed.

Lemma reconcile_ignores_unlisted_witness :
  active_crawls (exec (handleStopProgress "job-1" (Resolves tt)) job1_page)
  = Some [] ∧
  ("job-1" ∉ @nil string) ∧
  snapshot (exec (reconcileOnStartup (λ _, Resolves 404))
              (exec (handleStopProgress "job-1" (Resolves tt)) job1_page))
    "job-1"
  = snapshot (exec (handleStopProgress "job-1" (Resolves tt)) job1_page) "job-1".
Proof.
  assert (active_crawls (exec (handleStopProgress "job-1" (Resolves tt)) job1_page)
          = Some []) as H1 by reflexivity.
  assert ("job-1" ∉ @nil string) as H2 by apply not_elem_of_nil.
  split_and!; [done | done |].
  apply (reconcile_ignores_unlisted (λ _, Resolves 404) _ [] "job-1" H1 H2).
Defined.

(** X13: A crawl that was stopped leaves its snapshot behind for good once the
    page is reloaded: the stop takes the id off the stored list and keeps the
    snapshot, and the reconciliation of the reloaded page, whenever it runs
    and whatever the server says, neither removes the snapshot nor restores
    the item. *)
Theorem stop_then_reload_orphans_snapshot id p ids s fetch now :
  active_crawls p = Some ids →
  snapshot p id = Some s →
  let p1 := exec (handleStopProgress id (Resolves tt)) p in
  let q := initial_page (localStorage p1) now in
  let q' := exec (reconcileOnStartup fetch) q in
  snapshot p1 id = Some s ∧
  active_crawls q = Some (filter (λ x, x ≠ id) ids) ∧
  snapshot q' id = Some s ∧
  (id ∉ ids_of (progressItems q')) ∧
  (fetchProgress id ∉ trace q') ∧
  (∃ ids', active_crawls q' = Some ids' ∧ id ∉ ids').
Proof.
  intros H Hs p1 q q'. subst p1 q q'. unfold exec.
  rewrite (handleStopProgress_resolved _ _ _ H). cbn [snd localStorage].
  set (q := initial_page _ now).
  assert (active_crawls q = Some (filter (λ x, x ≠ id) ids)) as Hq
    by apply stored_ids_insert_list.
  assert (snapshot q id = Some s) as Hsq.
  { unfold snapshot. cbn. rewrite lookup_insert_ne; [done |].
    intros Heq. by apply (crawl_progress_key_active id). }
  rewrite (reconcileOnStartup_run _ _ _ Hq). cbn [snd].
  assert (id ∉ ids_of (restored_of (localStorage q) (clock q)
                         (filter (λ x, x ≠ id) ids))) as Hr.
  { by intros [?%filtered_out _]%restored_ids. }
  destruct (reconciled_unknown fetch (filter (λ x, x ≠ id) ids) q id Hr)
    as [Hitems Hfetch].
  split_and!.
  - done.
  - done.
  - rewrite reconciled_snapshot. rewrite decide_False; [done |].
    intros [[?%filtered_out _]%stale_of_elem | [? _]%removed_of_elem]; done.
  - intros Hin. by apply Hitems, elem_of_nil in Hin.
  - intros Hin. by apply Hfetch, elem_of_nil in Hin.
  - eexists. split; [by apply reconciled_active |].
    by intros [_ [_ ?%filtered_out]%list_elem_of_filter]%list_elem_of_filter.
Qed.

Lemma stop_then_reload_orphans_snapshot_witness :
  active_crawls job1_page = Some ["job-1"] ∧
  snapshot job1_page "job-1"
  = Some (Stringified (JObject (with_startedAt (Some 1000) job1))) ∧
  snapshot (exec (reconcileOnStartup (λ _, Resolves 404))
              (initial_page
                 (localStorage
                    (exec (handleStopProgress "job-1" (Resolves tt)) job1_page))
                 3600000))
    "job-1"
  = Some (Stringified (JObject (with_startedAt (Some 1000) job1))).
Proof.
  assert (active_crawls job1_page = Some ["job-1"]) as H1 by reflexivity.
  assert (snapshot job1_page "job-1"
          = Some (Stringified (JObject (with_startedAt (Some 1000) job1))))
    as H2 by reflexivity.
  split_and!; [done | done |].
  apply (stop_then_reload_orphans_snapshot "job-1" job1_page ["job-1"] _
           (λ _, Resolves 404) 3600000 H1 H2).
Defined.


Lemma reconciled_tab fetch ids p :
  showCrawlingTab (reconciled fetch ids p)
  = if bool_decide (0 < length ids)%nat
       && bool_decide (0 < length (restored_of (localStorage p) (clock p) ids))%nat
    then bool_decide
           (0 < length (verified_of fetch
                          (restored_of (localStorage p) (clock p) ids)))%nat
    else showCrawlingTab p.
Proof.
  unfold reconciled, verified_page. cbv zeta.
  repeat case_bool_decide; cbn [andb set_progressItems set_showCrawlingTab
                                 showCrawlingTab];
    rewrite ?(proj1 (proj2 (cleaned_frame _ _ _))); done.
Qed.

(** What the loop of line 132 makes of a crawl started by [handleStartCrawl]. *)
Lemma started_queued id initialData p ids now :
  active_crawls p = Some ids →
  queued (localStorage (exec (handleStartCrawl id initialData) p)) now id
  = if decide (clock p ≠ 0 ∧ five_minutes < now - clock p) then None
    else Some (restored_item id initialData (clock p)).
Proof.
  intros H. unfold exec. rewrite (handleStartCrawl_tracked _ _ _ _ H).
  cbn [snd]. unfold queued.
  change (localStorage ?q !! crawl_progress_key ?x) with (snapshot q x).
  rewrite tracked_page_snapshot, decide_True by done.
  change (isCompleted _) with false. cbn [orb].
  unfold startedAt_or. cbn [startedAt with_startedAt].
  destruct (decide (clock p = 0)) as [Hzero | Hzero].
  - rewrite isStale_now, decide_False by tauto. done.
  - destruct (isStale now (clock p)) eqn:Hstale.
    + apply isStale_spec in Hstale. by rewrite decide_True.
    + rewrite decide_False; [done |]. intros [_ Hold].
      apply isStale_spec in Hold. congruence.
Qed.

(** X14: A crawl started while the stored list could be read survives a
    reload of the page for five minutes: started at most five minutes before
    the page is mounted again, it is asked about and, if the server knows it,
    restored from its snapshot with the tab shown; started earlier (and not
    at time zero), it is forgotten without a question to the server. *)
Theorem start_then_reload id initialData p ids fetch now :
  active_crawls p = Some ids →
  let p1 := exec (handleStartCrawl id initialData) p in
  let q := initial_page (localStorage p1) now in
  let q' := exec (reconcileOnStartup fetch) q in
  let item := restored_item id initialData (clock p) in
  (now - clock p ≤ five_minutes →
   fetchProgress id ∈ trace q' ∧
   ((∃ s, fetch id = Resolves s ∧ 200 ≤ s ≤ 299) →
    item ∈ progressItems q' ∧
    (∀ x, x ∈ progressItems q' → progressId x = id → x = item) ∧
    showCrawlingTab q' = true ∧
    snapshot q' id = snapshot p1 id)) ∧
  (five_minutes < now - clock p → clock p ≠ 0 →
   snapshot q' id = None ∧
   (id ∉ ids_of (progressItems q')) ∧
   (fetchProgress id ∉ trace q') ∧
   ∃ ids', active_crawls q' = Some ids' ∧ id ∉ ids').
Proof.
  intros H p1 q q' item.
  pose proof (started_queued id initialData p ids now H) as Hq.
  fold p1 in Hq.
  assert (∃ ids1, active_crawls q = Some ids1 ∧ id ∈ ids1) as (ids1 & H1 & Hin).
  { subst q p1. unfold exec. rewrite (handleStartCrawl_tracked _ _ _ _ H).
    eexists. split; [by apply tracked_page_active |].
    cbn. case_bool_decide; [done |]. apply elem_of_app. right. left. }
  split.
  - intros Hyoung. rewrite decide_False in Hq by lia.
    destruct (reconcile_queued fetch ids1 q id H1 Hin item Hq)
      as (Hfetched & Hverified & _).
    split; [done |]. intros Hok%verdict_Verified.
    destruct (Hverified Hok) as (Hitem & Hunique & Hsnap & _).
    split_and!; [done | done | | done].
    subst q'. unfold exec. rewrite (reconcileOnStartup_run _ _ _ H1).
    cbn [snd]. rewrite reconciled_tab.
    assert (item ∈ restored_of (localStorage q) (clock q) ids1) as Hrestored.
    { apply restored_of_elem. by exists id. }
    assert (item ∈ verified_of fetch (restored_of (localStorage q) (clock q) ids1))
      as Hv by (by apply verified_of_elem).
    rewrite !bool_decide_true; [done | | |].
    + destruct (verified_of _ _); [by apply elem_of_nil in Hv | cbn; lia].
    + destruct (restored_of _ _ _); [by apply elem_of_nil in Hrestored | cbn; lia].
    + destruct ids1; [by apply elem_of_nil in Hin | cbn; lia].
  - intros Hold Hclock. rewrite decide_True in Hq by done.
    destruct (reconcile_marked_stale fetch ids1 q id H1 Hin Hq)
      as (Hsnap & Hlist & Hfetch).
    assert (id ∉ ids_of (restored_of (localStorage q) (clock q) ids1)) as Hr.
    { by intros [_ ?]%restored_ids. }
    split_and!; [done | | | done].
    + subst q'. unfold exec. rewrite (reconcileOnStartup_run _ _ _ H1).
      cbn [snd]. intros Hx.
      by apply (reconciled_unknown fetch ids1 q id Hr), elem_of_nil in Hx.
    + intros Hx. by apply Hfetch, elem_of_nil in Hx.
Qed.

Lemma start_then_reload_witness :
  active_crawls job1_page = Some ["job-1"] ∧
  (3000 - clock job1_page ≤ five_minutes →
   fetchProgress "job-2"
   ∈ trace (exec (reconcileOnStartup (λ _, Resolves 200))
              (initial_page
                 (localStorage (exec (handleStartCrawl "job-2" (bare "")) job1_page))
                 3000))).
Proof.
  assert (active_crawls job1_page = Some ["job-1"]) as H by reflexivity.
  split; [done |]. intros Hyoung.
  by apply (start_then_reload "job-2" (bare "") job1_page ["job-1"]
              (λ _, Resolves 200) 3000 H).
Defined.


(** ** The timer of a failure and a crawl started meanwhile *)

Lemma unique_items_singleton x : unique_items [x] = [x].
Proof. done. Qed.

Lemma unique_items_pair x y :
  progressId x ≠ progressId y → unique_items [x; y] = [x; y].
Proof.
  intros Hne. apply unique_items_id. cbn.
  apply NoDup_cons. split; [| apply NoDup_singleton].
  by intros ?%list_elem_of_singleton.
Qed.

(** X15: The timer of a failure hides the tab by the count it saw when the
    failure was reported.  When the failed crawl was the only one tracked and
    another crawl is started before the five seconds are over, the timer
    removes the failed item and hides the tab, although the new crawl is
    tracked: its card is not rendered. *)
Theorem timer_hides_tab_of_new_crawl msg id id2 initialData p ids item ms :
  progressItems p = [item] →
  progressId item = id →
  id ≠ "" →
  id2 ≠ id →
  active_crawls p = Some ids →
  timers p = [] →
  5000 ≤ ms →
  let p1 := exec (handleProgressError msg (Some id)) p in
  let p2 := exec (handleStartCrawl id2 initialData) p1 in
  let p3 := elapse ms p2 in
  crawlingTabVisible p2 = true ∧
  progressItems p3 = [newProgressItem id2 initialData] ∧
  showCrawlingTab p3 = false ∧
  crawlingTabVisible p3 = false.
Proof.
  intros Hitems Hitem Hid Hne H Htimers Hms p1 p2 p3.
  set (t := (clock p + 5000,
             {| task_progressId := id; task_items_length := 1 |})).
  assert (progressItems p2 = [failed_with msg item;
                              newProgressItem id2 initialData]
          ∧ showCrawlingTab p2 = true ∧ timers p2 = [t] ∧ clock p2 = clock p)
    as (Hitems2 & Htab2 & Htimers2 & Hclock2).
  { subst p2 p1. unfold exec.
    rewrite (handleProgressError_run _ _ _ _ Hid H). cbn [snd].
    set (p1 := {| progressItems := _ |}).
    assert (active_crawls p1 = Some (filter (λ x, x ≠ id) ids)) as H1
      by apply stored_ids_insert_list.
    rewrite (handleStartCrawl_run _ _ _ _ H1).
    cbn [snd progressItems showCrawlingTab timers clock]. subst p1.
    cbn [progressItems timers clock]. rewrite Hitems, Htimers.
    cbn [fmap list_fmap app length]. rewrite decide_True by done.
    rewrite unique_items_singleton. cbn [app].
    rewrite unique_items_pair by (cbn; by rewrite Hitem). done. }
  assert (crawlingTabVisible p2 = true) as Hvisible.
  { unfold crawlingTabVisible. by rewrite Htab2, Hitems2. }
  assert (p3 = fire (set_timers [] (set_clock (clock p + ms) p2)) t) as ->.
  { subst p3. rewrite elapse_fire. rewrite Htimers2, Hclock2.
    rewrite !filter_cons, !filter_nil.
    assert (due (clock p + ms) t) as Hdue by (unfold due; cbn; lia).
    rewrite (decide_True (P := due (clock p + ms) t)) by done.
    rewrite (decide_False (P := ¬ due (clock p + ms) t)) by (by intros Hn).
    done. }
  rewrite fire_run. unfold crawlingTabVisible.
  cbn [progressItems showCrawlingTab snd task_progressId task_items_length
       set_timers set_clock t].
  rewrite Hitems2. rewrite !filter_cons, filter_nil.
  rewrite (decide_False (P := progressId (failed_with msg item) ≠ id))
    by (cbn; rewrite Hitem; by intros Hn).
  rewrite (decide_True (P := progressId (newProgressItem id2 initialData) ≠ id))
    by done.
  rewrite unique_items_singleton. by rewrite Htab2.
Qed.

Lemma timer_hides_tab_of_new_crawl_witness :
  progressItems job1_page = [job1] ∧
  progressId job1 = "job-1" ∧
  "job-1" ≠ "" ∧ "job-2" ≠ "job-1" ∧
  active_crawls job1_page = Some ["job-1"] ∧
  timers job1_page = [] ∧
  5000 ≤ 6000 ∧
  crawlingTabVisible
    (elapse 6000
       (exec (handleStartCrawl "job-2" (bare ""))
          (exec (handleProgressError "boom" (Some "job-1")) job1_page)))
  = false.
Proof.
  assert (progressItems job1_page = [job1]) as H1 by reflexivity.
  assert (progressId job1 = "job-1") as H2 by reflexivity.
  assert ("job-1" ≠ "") as H3 by done.
  assert ("job-2" ≠ "job-1") as H4 by done.
  assert (active_crawls job1_page = Some ["job-1"]) as H5 by reflexivity.
  assert (timers job1_page = []) as H6 by reflexivity.
  assert (5000 ≤ 6000) as H7 by lia.
  split_and!; [done | done | done | done | done | done | done |].
  apply (timer_hides_tab_of_new_crawl "boom" "job-1" "job-2" (bare "") job1_page
           ["job-1"] job1 6000 H1 H2 H3 H4 H5 H6 H7).
Defined.


(** ** Refreshing an item *)

(** X16: Refreshing a knowledge item.  For a source id the page does not
    list, nothing happens.  Otherwise the service is asked once: when it
    rejects, a toast reports it and nothing is tracked; when it answers
    without a progress id, nothing more happens, in silence; when it answers
    with one, the refresh is tracked like a started crawl: the item, with
    status "starting" and crawl type "refresh", is the one tracked item of
    its id, its snapshot carries the current time, its id is in the stored
    list and the tab is shown. *)
Theorem handleRefreshItem_outcomes sourceId p ids :
  active_crawls p = Some ids →
  (∀ response, exec (handleRefreshItem sourceId None response) p = p) ∧
  (∀ item_url,
     exec (handleRefreshItem sourceId (Some item_url) Rejects) p
     = set_trace (trace p ++ [refreshKnowledgeItem sourceId;
                              showToast "Failed to refresh knowledge item" "error"])
         p) ∧
  (∀ item_url answer,
     truthy answer = None →
     exec (handleRefreshItem sourceId (Some item_url) (Resolves answer)) p
     = set_trace (trace p ++ [refreshKnowledgeItem sourceId]) p) ∧
  (∀ item_url newId,
     newId ≠ "" →
     let p' := exec (handleRefreshItem sourceId (Some item_url)
                       (Resolves (Some newId))) p in
     let item := refresh_item newId item_url in
     item ∈ progressItems p' ∧
     (∀ x, x ∈ progressItems p' → progressId x = newId → x = item) ∧
     snapshot p' newId
     = Some (Stringified (JObject (with_startedAt (Some (clock p)) item))) ∧
     (∃ ids', active_crawls p' = Some ids' ∧ newId ∈ ids') ∧
     showCrawlingTab p' = true ∧
     timers p' = timers p ∧
     (∀ msg kind, showToast msg kind ∈ trace p' → showToast msg kind ∈ trace p)).
Proof.
  intros H. split_and!.
  - done.
  - intros item_url. unfold exec, handleRefreshItem, try_catch.
    mstep. cbn. by rewrite <- app_assoc.
  - intros item_url answer Hanswer. unfold exec, handleRefreshItem, try_catch.
    do 2 mstep. by rewrite Hanswer.
  - intros item_url newId Hnew p' item. subst p'. unfold exec.
    rewrite (handleRefreshItem_tracked _ _ _ _ _ Hnew H). cbn [snd].
    set (q := set_trace _ p).
    destruct (unique_items_append (progressItems q) item) as (H1 & H2 & _).
    split_and!.
    + exact H1.
    + intros x Hx Hid. by apply H2.
    + by rewrite tracked_page_snapshot, decide_True.
    + eexists. split; [by apply tracked_page_active |].
      cbn. case_bool_decide; [done |]. apply elem_of_app. right. left.
    + done.
    + done.
    + intros msg kind. cbn.
      intros [[Hin | Hin%list_elem_of_singleton]%elem_of_app | Hin]%elem_of_app;
        [done | done |].
      apply elem_of_cons in Hin as [Hin | Hin]; [done |].
      case_bool_decide; [by apply elem_of_nil in Hin |].
      by apply list_elem_of_singleton in Hin.
Qed.

Lemma handleRefreshItem_outcomes_witness :
  active_crawls job1_page = Some ["job-1"] ∧
  refresh_item "job-2" None
  ∈ progressItems (exec (handleRefreshItem "src" (Some None)
                           (Resolves (Some "job-2"))) job1_page).
Proof.
  assert (active_crawls job1_page = Some ["job-1"]) as H by reflexivity.
  split; [done |].
  destruct (handleRefreshItem_outcomes "src" job1_page ["job-1"] H)
    as (_ & _ & _ & Htracked).
  by apply (Htracked None "job-2").
Defined.


(** ** Reconciling again *)

Lemma filter_all {A} (P : A → Prop) `{!∀ x, Decision (P x)} (l : list A) :
  (∀ x, x ∈ l → P x) → filter P l = l.
Proof.
  induction l as [|x l IH]; [done |]. intros Hall.
  rewrite filter_cons, decide_True by (apply Hall; left).
  f_equal. apply IH. intros y Hy. apply Hall. by right.
Qed.

Lemma filter_none {A} (P : A → Prop) `{!∀ x, Decision (P x)} (l : list A) :
  (∀ x, x ∈ l → ¬ P x) → filter P l = [].
Proof.
  induction l as [|x l IH]; [done |]. intros Hall.
  rewrite filter_cons, decide_False by (apply Hall; left).
  apply IH. intros y Hy. apply Hall. by right.
Qed.

Lemma page_ext p q :
  progressItems p = progressItems q → showCrawlingTab p = showCrawlingTab q →
  localStorage p = localStorage q → clock p = clock q → timers p = timers q →
  trace p = trace q → p = q.
Proof. destruct p, q. cbn. by intros -> -> -> -> -> ->. Qed.

Lemma cleaned_nothing ids p : cleaned [] ids p = p.
Proof. done. Qed.

Lemma cleaned_clock removed ids p : clock (cleaned removed ids p) = clock p.
Proof. apply cleaned_frame. Qed.

Lemma filter_omap_filter {A B} (f : A → option B) (P : A → Prop) (Q : B → Prop)
    `{!∀ x, Decision (P x)} `{!∀ y, Decision (Q y)} (l : list A) :
  (∀ x y, x ∈ l → f x = Some y → Q y → P x) →
  filter Q (omap f (filter P l)) = filter Q (omap f l).
Proof.
  induction l as [|x l IH]; [done |]. intros Himp.
  assert (filter Q (omap f (filter P l)) = filter Q (omap f l)) as IH'.
  { apply IH. intros x' y Hx'. apply Himp. by right. }
  rewrite filter_cons. destruct (decide (P x)) as [HP | HP].
  - cbn [omap list_omap]. destruct (f x) as [y|]; [| done].
    rewrite !filter_cons. by rewrite IH'.
  - cbn [omap list_omap]. destruct (f x) as [y|] eqn:Hy; [| done].
    rewrite filter_cons, decide_False; [done |].
    intros HQ. apply HP. apply (Himp x y); [left | done | done].
Qed.

Lemma omap_ext_elem {A B} (f g : A → option B) (l : list A) :
  (∀ x, x ∈ l → f x = g x) → omap f l = omap g l.
Proof.
  induction l as [|x l IH]; [done |]. intros Hext. cbn.
  rewrite (Hext x) by left. rewrite IH; [done |].
  intros y Hy. apply Hext. by right.
Qed.

Section reconciled_again.
Variables (fetch : string → ApiResult Z) (ids : list string) (p : Page).
Hypothesis stored : active_crawls p = Some ids.
Let storage := localStorage p.
Let now := clock p.
Let stale := stale_of storage now ids.
Let restored := restored_of storage now ids.
Let removed := removed_of fetch restored.
Let p1 := reconciled fetch ids p.
Let ids1 := filter (λ id, id ∉ removed) (filter (λ id, id ∉ stale) ids).

Lemma reconciled_clock : clock p1 = now.
Proof.
  subst p1. unfold reconciled, verified_page. cbv zeta.
  repeat case_bool_decide;
    repeat first [rewrite cleaned_clock
                 | progress cbn [clock set_progressItems set_showCrawlingTab
                                 set_trace]];
    done.
Qed.

(** The ids the reconciliation leaves in the list are those it queued and
    the server did not disown; their snapshots are as before. *)
Lemma reconciled_kept id :
  id ∈ ids1 →
  id ∈ ids ∧ verdict (fetch id) ≠ Gone ∧
  queued (localStorage p1) (clock p1) id = queued storage now id ∧
  queued storage now id ≠ None.
Proof.
  subst ids1. intros [Hremoved [Hstale Hid]%list_elem_of_filter]%list_elem_of_filter.
  assert (queued storage now id ≠ None) as Hq.
  { intros Hnone. apply Hstale. by apply stale_of_elem. }
  split_and!; [done | | | done].
  - intros Hgone. apply Hremoved. apply removed_of_elem. split; [| done].
    destruct (queued storage now id) as [item|] eqn:Hitem; [| done].
    rewrite <- (queued_progressId _ _ _ _ Hitem).
    apply list_elem_of_fmap_2, restored_of_elem. by exists id.
  - rewrite reconciled_clock. unfold queued.
    change (localStorage p1 !! crawl_progress_key id) with (snapshot p1 id).
    subst p1. rewrite reconciled_snapshot, decide_False; [done |].
    intros [? | ?]; done.
Qed.

Lemma reconciled_stale_none :
  stale_of (localStorage p1) (clock p1) ids1 = [].
Proof.
  apply filter_none. intros id Hid.
  destruct (reconciled_kept id Hid) as (_ & _ & -> & Hq). done.
Qed.

Lemma reconciled_restored :
  restored_of (localStorage p1) (clock p1) ids1 = omap (queued storage now) ids1.
Proof.
  apply omap_ext_elem. intros id Hid.
  by destruct (reconciled_kept id Hid) as (_ & _ & -> & _).
Qed.

Lemma reconciled_restored_elem item :
  item ∈ omap (queued storage now) ids1 →
  item ∈ restored ∧ verdict (fetch (progressId item)) ≠ Gone
  ∧ progressId item ∈ ids1.
Proof.
  intros (id & Hid & Hq)%list_elem_of_omap.
  destruct (reconciled_kept id Hid) as (Hin & Hv & _).
  rewrite (queued_progressId _ _ _ _ Hq). split_and!; [| done | done].
  apply restored_of_elem. by exists id.
Qed.

Lemma reconciled_removed_none :
  removed_of fetch (omap (queued storage now) ids1) = [].
Proof.
  unfold removed_of. rewrite filter_none; [done |].
  intros item Hitem. by destruct (reconciled_restored_elem item Hitem) as (_ & ? & _).
Qed.

Lemma reconciled_verified :
  verified_of fetch (omap (queued storage now) ids1) = verified_of fetch restored.
Proof.
  unfold verified_of, restored, restored_of. subst ids1.
  rewrite filter_omap_filter.
  - apply filter_omap_filter. intros id item Hid Hq Hv Hstale.
    apply stale_of_elem in Hstale as [_ Hnone]. congruence.
  - intros id item [_ Hid]%list_elem_of_filter Hq Hv Hremoved.
    apply removed_of_elem in Hremoved as [_ Hgone].
    rewrite (queued_progressId _ _ _ _ Hq) in Hv. congruence.
Qed.

(** A second reconciliation, at the same time and with the same answers,
    only asks again. *)
Lemma reconciled_reconciled :
  reconciled fetch ids1 p1
  = set_trace (trace p1 ++ fetches (omap (queued storage now) ids1)) p1.
Proof.
  assert (∀ q, set_trace (trace q ++ fetches []) q = q) as Hsame.
  { intros q. apply page_ext; try done. cbn. apply app_nil_r. }
  unfold reconciled at 1. cbv zeta.
  rewrite reconciled_stale_none, reconciled_restored, cleaned_nothing.
  destruct (omap (queued storage now) ids1) as [|item items] eqn:Hrestored.
  { rewrite Hsame. by case_bool_decide. }
  rewrite <- Hrestored. rewrite filter_none_removed.
  assert (ids1 ≠ []) as Hids1.
  { intros Hnil. by rewrite Hnil in Hrestored. }
  rewrite bool_decide_true by (destruct ids1; [done | cbn; lia]).
  rewrite bool_decide_true by (rewrite Hrestored; cbn; lia).
  unfold verified_page. cbv zeta.
  rewrite reconciled_removed_none, cleaned_nothing, reconciled_verified.
  assert (restored ≠ [] ∧ ids ≠ []) as [Hrestored0 Hids].
  { assert (item ∈ omap (queued storage now) ids1) as Hitem
      by (rewrite Hrestored; left).
    apply reconciled_restored_elem in Hitem as (Hitem & _ & _).
    split; intros Hnil.
    - rewrite Hnil in Hitem. by apply elem_of_nil in Hitem.
    - subst restored. rewrite Hnil in Hitem. by apply elem_of_nil in Hitem. }
  assert (showCrawlingTab p1
          = bool_decide (0 < length (verified_of fetch restored))%nat) as Htab.
  { subst p1. rewrite reconciled_tab.
    rewrite bool_decide_true by (destruct ids; [done | cbn; lia]).
    fold storage now restored.
    rewrite bool_decide_true by (destruct restored; [done | cbn; lia]).
    done. }
  assert (progressItems p1
          = if bool_decide (0 < length (verified_of fetch restored))%nat
            then unique_items (verified_of fetch restored)
            else progressItems p) as Hitems.
  { subst p1. apply reconciled_progressItems. }
  case_bool_decide; apply page_ext; cbn; try done.
Qed.
End reconciled_again.

(** X17: The reconciliation is idempotent up to its questions: run again at
    the same time, with the same answers of the server, it changes neither
    the storage nor the tracked list nor the tab; it writes nothing and
    shows nothing, and only asks the server again about ids that are in the
    stored list. *)
Theorem reconcile_twice fetch p ids :
  active_crawls p = Some ids →
  let p1 := exec (reconcileOnStartup fetch) p in
  let p2 := exec (reconcileOnStartup fetch) p1 in
  ∃ ids1 asked,
    active_crawls p1 = Some ids1 ∧
    p2 = set_trace (trace p1 ++ (fetchProgress <$> asked)) p1 ∧
    (∀ id, id ∈ asked → id ∈ ids1) ∧
    localStorage p2 = localStorage p1 ∧
    progressItems p2 = progressItems p1 ∧
    showCrawlingTab p2 = showCrawlingTab p1.
Proof.
  intros H p1 p2. subst p1 p2. unfold exec.
  rewrite (reconcileOnStartup_run _ _ _ H). cbn [snd].
  pose proof (reconciled_active fetch ids p H) as H1.
  rewrite (reconcileOnStartup_run _ _ _ H1). cbn [snd].
  rewrite (reconciled_reconciled fetch ids p H).
  set (ids1 := filter _ (filter _ ids)) in *.
  exists ids1, (ids_of (omap (queued (localStorage p) (clock p)) ids1)).
  split_and!; [exact H1 | | | done | done | done].
  - unfold fetches, ids_of. by rewrite <- list_fmap_compose.
  - intros id (item & -> & Hitem)%list_elem_of_fmap.
    by apply (reconciled_restored_elem fetch ids p) in Hitem as (_ & _ & ?).
Qed.

Lemma reconcile_twice_witness :
  active_crawls three_jobs_page = Some ["job-a"; "job-b"; "job-c"] ∧
  localStorage (exec (reconcileOnStartup (λ _, Resolves 200))
                  (exec (reconcileOnStartup (λ _, Resolves 200)) three_jobs_page))
  = localStorage (exec (reconcileOnStartup (λ _, Resolves 200)) three_jobs_page).
Proof.
  assert (active_crawls three_jobs_page = Some ["job-a"; "job-b"; "job-c"]) as H
    by reflexivity.
  split; [done |].
  destruct (reconcile_twice (λ _, Resolves 200) three_jobs_page _ H)
    as (ids1 & asked & _ & _ & _ & Hstorage & _).
  exact Hstorage.
Defined.

(** * Properties of the knowledge list *)

(** ** The filter *)

Lemma filteredItems_elem l item :
  item ∈ filteredItems l
  ↔ item ∈ knowledgeItems l ∧ typeMatch (typeFilter l) item = true
    ∧ searchMatch (searchQuery l) item = true.
Proof.
  unfold filteredItems. rewrite list_elem_of_filter.
  rewrite Is_true_true, andb_true_iff. tauto.
Qed.

(** X18: The filter shows a sub-sequence of the knowledge items: all of them
    when the type is "all" and the query is empty, only items of the chosen
    type otherwise; a query is matched without regard to case (two queries
    that agree up to case show the same items), and an item whose title
    contains the query in any case is shown. *)
Theorem filteredItems_shown l :
  sublist (filteredItems l) (knowledgeItems l) ∧
  (typeFilter l = "all" → searchQuery l = "" →
   filteredItems l = knowledgeItems l) ∧
  (typeFilter l ≠ "all" →
   ∀ item, item ∈ filteredItems l →
           Item.knowledge_type (Item.metadata item) = typeFilter l) ∧
  (∀ query, query ≠ "" → searchQuery l ≠ "" →
            toLowerCase query = toLowerCase (searchQuery l) →
            filteredItems (set_searchQuery query l) = filteredItems l) ∧
  (∀ item, item ∈ knowledgeItems l → typeFilter l = "all" →
           includes (toLowerCase (Item.title item))
             (toLowerCase (searchQuery l)) = true →
           item ∈ filteredItems l).
Proof.
  split_and!.
  - apply sublist_filter.
  - intros Htype Hquery. unfold filteredItems.
    apply filter_all. intros item _.
    unfold typeMatch, searchMatch. by rewrite Htype, Hquery.
  - intros Htype item (_ & Hitem & _)%filteredItems_elem.
    unfold typeMatch in Hitem. apply orb_true_iff in Hitem as [H | H].
    + by apply bool_decide_eq_true in H.
    + by apply bool_decide_eq_true in H.
  - intros query Hquery Hl Hlower. unfold filteredItems. cbn.
    apply list_filter_iff. intros item. unfold searchMatch. cbv zeta.
    rewrite Hlower.
    by rewrite (bool_decide_eq_false_2 _ Hquery), (bool_decide_eq_false_2 _ Hl).
  - intros item Hitem Htype Hincludes. apply filteredItems_elem.
    split_and!; [done | |].
    + unfold typeMatch. by rewrite Htype.
    + unfold searchMatch. cbv zeta. rewrite Hincludes.
      by rewrite orb_true_r.
Qed.


(** ** Groups *)

Lemma sum_list_snoc l n : sum_list (l ++ [n]) = (sum_list l + n)%nat.
Proof. induction l as [|m l IH]; cbn; lia. Qed.

Lemma grouped_count_snoc groups g :
  grouped_count (groups ++ [g])
  = (grouped_count groups + length (Group.items g))%nat.
Proof. unfold grouped_count. rewrite fmap_app. apply sum_list_snoc. Qed.

Lemma sum_list_insert {A} (f : A → nat) (l : list A) i x y :
  l !! i = Some x → f y = S (f x) →
  sum_list (f <$> <[i := y]> l) = S (sum_list (f <$> l)).
Proof.
  revert i. induction l as [|a l IH]; intros [|i] Hi Hf; try done.
  - injection Hi as ->.
    change (f y + sum_list (f <$> l) = S (f x + sum_list (f <$> l)))%nat. lia.
  - change (f a + sum_list (f <$> <[i := y]> l)
            = S (f a + sum_list (f <$> l)))%nat.
    rewrite (IH i Hi Hf). lia.
Qed.

Lemma grouped_count_push groups i g item :
  groups !! i = Some g →
  grouped_count (<[i := push_item item g]> groups) = S (grouped_count groups).
Proof.
  intros Hi. unfold grouped_count. apply (sum_list_insert _ _ _ g); [done |].
  cbn. rewrite length_app. cbn. lia.
Qed.

Lemma titles_push (groups : list GroupedKnowledgeItem) (i : nat) g item :
  groups !! i = Some g →
  Group.title <$> <[i := push_item item g]> groups = Group.title <$> groups.
Proof.
  intros Hi. rewrite list_fmap_insert. apply list_insert_id.
  by rewrite list_lookup_fmap, Hi.
Qed.

Lemma filter_named_snoc (named : list (KnowledgeItem * string)) item n t :
  (filter (λ p, p.2 = t) (named ++ [(item, n)])).*1
  = (filter (λ p, p.2 = t) named).*1 ++ (if decide (n = t) then [item] else []).
Proof.
  rewrite filter_app, fmap_app, filter_cons, filter_nil. cbn.
  by destruct (decide (n = t)).
Qed.

Lemma add_to_groups_grouped named groups item n :
  grouped named groups →
  grouped (named ++ [(item, n)]) (add_to_groups groups (item, n)).
Proof.
  intros (Hnd & Hitems & Hcover & Hcount). unfold add_to_groups. cbn [fst snd].
  destruct (list_find _ groups) as [[i g]|] eqn:Hfind.
  - apply list_find_Some in Hfind as (Hi & Htitle & _).
    assert (g ∈ groups) as Hg by (by eapply list_elem_of_lookup_2).
    assert (<[i := push_item item g]> groups !! i = Some (push_item item g))
      as Hpushed.
    { apply list_lookup_insert_eq. by eapply lookup_lt_Some. }
    split_and!.
    + by rewrite titles_push.
    + intros g' (j & Hj)%list_elem_of_lookup_1.
      destruct (decide (j = i)) as [-> | Hne].
      * rewrite Hpushed in Hj. injection Hj as <-. cbn.
        destruct (Hitems g Hg) as (-> & _ & ->).
        rewrite filter_named_snoc, decide_True by done.
        split_and!; [done | by intros [_ ?]%app_eq_nil | done].
      * rewrite list_lookup_insert_ne in Hj by done.
        assert (g' ∈ groups) as Hg' by (by eapply list_elem_of_lookup_2).
        destruct (Hitems g' Hg') as (Heq & Hne' & ->).
        rewrite filter_named_snoc, decide_False, app_nil_r; [done |].
        intros Hn. apply Hne.
        apply (NoDup_lookup (Group.title <$> groups) j i (Group.title g'));
          [done | by rewrite list_lookup_fmap, Hj |].
        rewrite list_lookup_fmap, Hi. cbn. congruence.
    + intros p [Hp | ->%list_elem_of_singleton]%elem_of_app.
      * destruct (Hcover p Hp) as (g' & (j & Hj)%list_elem_of_lookup_1 & Hg').
        destruct (decide (j = i)) as [-> | Hne].
        -- exists (push_item item g). split.
           ++ by apply list_elem_of_lookup_2 with i.
           ++ cbn. congruence.
        -- exists g'. split; [| done].
           apply list_elem_of_lookup_2 with j. by rewrite list_lookup_insert_ne.
      * exists (push_item item g). split; [| done].
        by apply list_elem_of_lookup_2 with i.
    + rewrite (grouped_count_push _ _ _ _ Hi), length_app, Hcount. cbn. lia.
  - apply list_find_None in Hfind. rewrite Forall_forall in Hfind.
    assert (filter (λ p : KnowledgeItem * string, p.2 = n) named = []) as Hnone.
    { apply filter_none. intros p Hp Hn.
      destruct (Hcover p Hp) as (g & Hg & Htitle).
      apply (Hfind g Hg). congruence. }
    split_and!.
    + rewrite fmap_app. apply NoDup_app. split_and!; [done | | apply NoDup_singleton].
      intros t (g & -> & Hg)%list_elem_of_fmap ?%list_elem_of_singleton.
      by apply (Hfind g Hg).
    + intros g [Hg | ->%list_elem_of_singleton]%elem_of_app.
      * destruct (Hitems g Hg) as (Heq & Hne & ->).
        rewrite filter_named_snoc, decide_False, app_nil_r; [done |].
        intros Hn. by apply (Hfind g Hg).
      * cbn. rewrite filter_named_snoc, Hnone, decide_True by done.
        done.
    + intros p [Hp | ->%list_elem_of_singleton]%elem_of_app.
      * destruct (Hcover p Hp) as (g & Hg & Htitle).
        exists g. split; [| done]. apply elem_of_app. by left.
      * exists (new_group n item). split; [| done].
        apply elem_of_app. right. left.
    + rewrite grouped_count_snoc, length_app, Hcount. cbn. lia.
Qed.

Lemma group_items_grouped items : grouped (named_items items) (group_items items).
Proof.
  unfold group_items. induction (named_items items) as [|[item n] named IH]
    using rev_ind.
  - split_and!; [apply NoDup_nil_2 | | | done].
    + by intros g ?%elem_of_nil.
    + by intros p ?%elem_of_nil.
  - rewrite foldl_snoc. by apply add_to_groups_grouped.
Qed.

Lemma named_items_filter items t :
  (filter (λ p, p.2 = t) (named_items items)).*1
  = filter (λ item, group_of item = Some t) items.
Proof.
  unfold named_items. induction items as [|item items IH]; [done |].
  cbn [omap list_omap]. rewrite (filter_cons _ item).
  destruct (group_of item) as [n|] eqn:Hn; cbn [fmap option_fmap option_map].
  - rewrite filter_cons. cbn [snd].
    destruct (decide (n = t)) as [-> | Hne].
    + rewrite decide_True by done. cbn. by rewrite IH.
    + rewrite decide_False by congruence. done.
  - rewrite decide_False by done. done.
Qed.

Lemma named_items_length items :
  (length (named_items items)
   + length (filter (λ item, group_of item = None) items))%nat
  = length items.
Proof.
  unfold named_items. induction items as [|item items IH]; [done |].
  cbn [omap list_omap]. rewrite filter_cons.
  destruct (group_of item) as [n|] eqn:Hn; cbn [fmap option_fmap option_map].
  - rewrite decide_False by done. cbn. lia.
  - rewrite decide_True by done. cbn. lia.
Qed.

Lemma named_items_elem items item n :
  (item, n) ∈ named_items items ↔ item ∈ items ∧ group_of item = Some n.
Proof.
  unfold named_items. rewrite list_elem_of_omap. split.
  - intros (x & Hx & Heq). destruct (group_of x) eqn:Hg; [| done].
    cbn in Heq. by injection Heq as -> ->.
  - intros [Hitem Hn]. exists item. split; [done |]. by rewrite Hn.
Qed.

(** X19: In the grid view every shown item is displayed exactly once: the
    items without a group name as cards of their own, the others in one
    group per name.  The groups have pairwise distinct titles, each holds
    the shown items of its name in their order and is not empty, its id is
    made from its title, and the sizes of the groups and the number of cards
    add up to the number of shown items. *)
Theorem grouping_partitions l :
  viewMode l = grid →
  let shown := filteredItems l in
  NoDup (Group.title <$> groupedItems l) ∧
  (∀ g, g ∈ groupedItems l →
        Group.items g
        = filter (λ item, group_of item = Some (Group.title g)) shown ∧
        Group.items g ≠ [] ∧
        Group.id g = group_id (Group.title g)) ∧
  (∀ item groupName,
     item ∈ shown → group_of item = Some groupName →
     ∃ g, g ∈ groupedItems l ∧ Group.title g = groupName ∧ item ∈ Group.items g) ∧
  (∀ item, item ∈ ungroupedItems l ↔ item ∈ shown ∧ group_of item = None) ∧
  (grouped_count (groupedItems l) + length (ungroupedItems l))%nat
  = length shown.
Proof.
  intros Hgrid shown. unfold groupedItems, ungroupedItems. rewrite Hgrid.
  fold shown.
  destruct (group_items_grouped shown) as (Hnd & Hitems & Hcover & Hcount).
  split_and!.
  - done.
  - intros g Hg. destruct (Hitems g Hg) as (Heq & Hne & Hid).
    by rewrite <- named_items_filter.
  - intros item n Hitem Hn.
    destruct (Hcover (item, n)) as (g & Hg & Htitle);
      [by apply named_items_elem |].
    exists g. split_and!; [done | done |].
    destruct (Hitems g Hg) as (-> & _). rewrite named_items_filter.
    apply list_elem_of_filter. split; [| done]. by rewrite Htitle.
  - intros item. rewrite list_elem_of_filter. tauto.
  - rewrite Hcount. apply named_items_length.
Qed.

Lemma grouping_partitions_witness :
  viewMode docs_library = grid ∧
  (grouped_count (groupedItems docs_library)
   + length (ungroupedItems docs_library))%nat
  = length (filteredItems docs_library).
Proof.
  assert (viewMode docs_library = grid) as H by reflexivity.
  split; [done |]. apply (grouping_partitions docs_library H).
Defined.


(** ** Group ids *)

Lemma replace_underscores_length s :
  String.length (replace_underscores s) = String.length s.
Proof. induction s as [|c s IH]; cbn; [done | by rewrite IH]. Qed.

Lemma replace_space_runs_length b s :
  (String.length (replace_space_runs b s) ≤ String.length s)%nat.
Proof.
  revert b. induction s as [|c s IH]; intros b; cbn; [done |].
  pose proof (IH true). pose proof (IH false).
  destruct (is_space c); [destruct b |]; cbn; lia.
Qed.

(** Reading the underscores of an encoded name as spaces gives the name back
    exactly when it is plain. *)
Lemma replace_underscores_space_runs b s :
  replace_underscores (replace_space_runs b s) = s ↔ plain_from b s = true.
Proof.
  revert b. induction s as [|c s IH]; intros b; cbn; [done |].
  destruct (is_space c) eqn:Hc.
  - destruct b.
    + rewrite andb_false_r. cbn. split; [| done]. intros Heq.
      pose proof (replace_space_runs_length true s) as Hlen.
      rewrite <- (replace_underscores_length (replace_space_runs true s)) in Hlen.
      rewrite Heq in Hlen. cbn in Hlen. lia.
    + cbn. rewrite decide_True by done. rewrite andb_true_r.
      rewrite andb_true_iff, bool_decide_eq_true, <- IH. split.
      * by intros [= <- ?].
      * by intros [-> ->].
  - cbn. rewrite andb_true_iff, negb_true_iff, bool_decide_eq_false, <- IH.
    destruct (decide (c = "_"%char)) as [-> | Hne].
    + split; [by intros [= ? ?] | by intros [? _]].
    + split; [by intros [= ->] | by intros [_ ->]].
Qed.

Lemma startsWith_group_id groupName :
  startsWith (group_id groupName) "group_" = true.
Proof.
  unfold startsWith, group_id.
  by destruct (replace_space_runs false groupName).
Qed.

Lemma group_name_of_group_id groupName :
  group_name_of (group_id groupName)
  = replace_underscores (replace_space_runs false groupName).
Proof.
  unfold group_name_of, group_id.
  by destruct (replace_space_runs false groupName).
Qed.

Lemma group_name_of_plain groupName :
  plain groupName ↔ group_name_of (group_id groupName) = groupName.
Proof.
  rewrite group_name_of_group_id. symmetry.
  apply replace_underscores_space_runs.
Qed.

(** X20: A group id is read back as the name of its group exactly when the
    name is plain: it contains no underscore, and no white space but single
    spaces.  Every group id starts with "group_". *)
Theorem group_name_round_trip groupName :
  startsWith (group_id groupName) "group_" = true ∧
  (group_name_of (group_id groupName) = groupName ↔ plain groupName).
Proof.
  split; [apply startsWith_group_id |].
  rewrite group_name_of_group_id. apply replace_underscores_space_runs.
Qed.


(** ** Deleting *)

Lemma requested_nil l : requested [] l = l.
Proof. destruct l. unfold requested. cbn. by rewrite app_nil_r. Qed.

Lemma request_requested r rs l :
  request r (requested rs l) = requested (rs ++ [r]) l.
Proof. unfold request, requested. cbn. by rewrite app_assoc. Qed.

Lemma requested_requested rs rs' l :
  requested rs' (requested rs l) = requested (rs ++ rs') l.
Proof. unfold requested. cbn. by rewrite app_assoc. Qed.

(** The loop of line 603 as a whole. *)
Lemma delete_each_run answer items deletedIds l :
  delete_each answer items deletedIds l
  = (if all_resolve answer items
     then Normal (deletedIds ++ (Item.source_id <$> items))
     else Throw Rejection,
     requested (deletions (called answer items)) l).
Proof.
  revert deletedIds l. induction items as [|item items IH]; intros deletedIds l.
  - cbn. by rewrite app_nil_r, requested_nil.
  - cbn [delete_each all_resolve forallb called].
    destruct (answer (Item.source_id item)) as [result|] eqn:Hanswer;
      cbn [resolves andb].
    + rewrite IH. fold (all_resolve answer items).
      change (request ?r l) with (requested [r] l).
      rewrite requested_requested. cbn. by rewrite <- app_assoc.
    + done.
Qed.

Lemma called_all answer items :
  all_resolve answer items = true → called answer items = items.
Proof.
  induction items as [|item items IH]; [done |]. cbn.
  intros [-> H]%andb_true_iff. by rewrite IH.
Qed.

Lemma called_until answer before bad after :
  all_resolve answer before = true →
  answer (Item.source_id bad) = Rejects →
  called answer (before ++ bad :: after) = before ++ [bad]
  ∧ all_resolve answer (before ++ bad :: after) = false.
Proof.
  intros Hbefore Hbad. induction before as [|item before IH]; cbn.
  - by rewrite Hbad.
  - cbn in Hbefore. apply andb_true_iff in Hbefore as [Hitem Hbefore].
    rewrite Hitem. destruct (IH Hbefore) as [-> Hall]. split; [done |].
    unfold all_resolve in Hall. by rewrite Hall.
Qed.

Lemma all_resolve_spec answer items :
  all_resolve answer items = true
  ↔ ∀ item, item ∈ items → resolves (answer (Item.source_id item)) = true.
Proof.
  unfold all_resolve. rewrite forallb_forall. split.
  - intros H item Hitem. apply H. by apply list_elem_of_In.
  - intros H item Hitem. apply H. by apply list_elem_of_In.
Qed.

(** The first element with a key is the element itself when keys are
    distinct. *)
Lemma list_find_NoDup {A B} `{!EqDecision B} (f : A → B) (l : list A) x :
  NoDup (f <$> l) → x ∈ l →
  ∃ i, list_find (λ y, f y = f x) l = Some (i, x).
Proof.
  intros Hnd (i & Hi)%list_elem_of_lookup_1. exists i.
  apply list_find_Some. split_and!; [done | done |].
  intros j y Hj Hlt Heq.
  assert (j = i); [| lia].
  apply (NoDup_lookup (f <$> l) j i (f x)); [done | |].
  - by rewrite list_lookup_fmap, Hj, <- Heq.
  - by rewrite list_lookup_fmap, Hi.
Qed.

Lemma groupedItems_grouped l :
  grouped (named_items (filteredItems l)) (groupedItems l)
  ∨ groupedItems l = [].
Proof.
  unfold groupedItems. destruct (viewMode l); [left | by right].
  apply group_items_grouped.
Qed.

Lemma groupedItems_find l g :
  g ∈ groupedItems l →
  ∃ i, list_find (λ g', Group.title g' = Group.title g) (groupedItems l)
       = Some (i, g).
Proof.
  intros Hg. apply list_find_NoDup; [| done].
  destruct (groupedItems_grouped l) as [(Hnd & _) | Hnil]; [done |].
  rewrite Hnil in Hg. by apply elem_of_nil in Hg.
Qed.

Lemma groupedItems_items l g :
  g ∈ groupedItems l →
  Group.items g
  = filter (λ item, group_of item = Some (Group.title g)) (filteredItems l)
  ∧ Group.id g = group_id (Group.title g).
Proof.
  intros Hg.
  destruct (groupedItems_grouped l) as [(_ & Hitems & _) | Hnil].
  - destruct (Hitems g Hg) as (-> & _ & ->). by rewrite named_items_filter.
  - rewrite Hnil in Hg. by apply elem_of_nil in Hg.
Qed.

(** Deleting through the card of a group whose id reads as the title of the
    group [g']. *)
Lemma handleDeleteItem_found sourceId answer l i g' :
  startsWith sourceId "group_" = true →
  list_find (λ g, Group.title g = group_name_of sourceId) (groupedItems l)
  = Some (i, g') →
  handleDeleteItem sourceId answer l
  = if all_resolve answer (Group.items g')
    then request (group_deleted g' (group_name_of sourceId))
           (set_knowledgeItems
              (filter (λ item, Item.source_id item
                               ∉ Item.source_id <$> Group.items g')
                 (knowledgeItems l))
              (requested (deletions (Group.items g')) l))
    else request (toast "Failed to delete item" "error")
           (requested (deletions (called answer (Group.items g'))) l).
Proof.
  intros Hstarts Hfind. unfold handleDeleteItem. rewrite Hstarts. cbv zeta.
  rewrite Hfind, delete_each_run.
  destruct (all_resolve answer (Group.items g')) eqn:Hall; [| done].
  by rewrite (called_all _ _ Hall).
Qed.

(** X21: The delete button of a group with a plain name deletes the group:
    the service is asked to delete each of its items, in their order, by
    source id, and when all deletions are accepted the items with these
    source ids leave the list and one toast counts them. *)
Theorem handleDeleteItem_group l g answer :
  g ∈ groupedItems l →
  plain (Group.title g) →
  (∀ item, item ∈ Group.items g →
           resolves (answer (Item.source_id item)) = true) →
  let l' := handleDeleteItem (Group.id g) answer l in
  let deletedIds := Item.source_id <$> Group.items g in
  requests l'
  = requests l ++ (deleteKnowledgeItem <$> deletedIds)
               ++ [group_deleted g (Group.title g)] ∧
  knowledgeItems l'
  = filter (λ item, Item.source_id item ∉ deletedIds) (knowledgeItems l) ∧
  (∀ item, item ∈ Group.items g → item ∉ knowledgeItems l') ∧
  selectedItems l' = selectedItems l.
Proof.
  intros Hg Hplain Hall%all_resolve_spec l' deletedIds. subst l' deletedIds.
  destruct (groupedItems_items l g Hg) as [Hitems Hid].
  destruct (groupedItems_find l g Hg) as [i Hfind].
  assert (group_name_of (Group.id g) = Group.title g) as Hname.
  { rewrite Hid. by apply group_name_of_plain. }
  rewrite (handleDeleteItem_found _ _ _ i g).
  - rewrite Hall, Hname. cbn. split_and!.
    + unfold deletions. by rewrite <- list_fmap_compose, <- app_assoc.
    + done.
    + intros item Hitem [Hnot _]%list_elem_of_filter. apply Hnot.
      by apply list_elem_of_fmap_2.
    + done.
  - rewrite Hid. apply startsWith_group_id.
  - by rewrite Hname.
Qed.


Lemma handleDeleteItem_group_witness :
  api_docs_group ∈ groupedItems docs_library ∧
  plain (Group.title api_docs_group) ∧
  knowledgeItems (handleDeleteItem (Group.id api_docs_group) accepts docs_library)
  = [docs_item "b" None; docs_item "d" (Some "my_notes")].
Proof.
  assert (api_docs_group ∈ groupedItems docs_library) as H1.
  { vm_compute. left. }
  assert (plain (Group.title api_docs_group)) as H2 by reflexivity.
  assert (∀ item, item ∈ Group.items api_docs_group →
                  resolves (accepts (Item.source_id item)) = true) as H3 by done.
  split_and!; [done | done |].
  destruct (handleDeleteItem_group docs_library api_docs_group accepts H1 H2 H3)
    as (_ & -> & _).
  by vm_compute.
Defined.

Lemma NoDup_fmap_eq {A B} (f : A → B) (l : list A) x y :
  NoDup (f <$> l) → x ∈ l → y ∈ l → f x = f y → x = y.
Proof.
  intros Hnd (i & Hi)%list_elem_of_lookup_1 (j & Hj)%list_elem_of_lookup_1 Heq.
  assert (i = j) as ->; [| congruence].
  apply (NoDup_lookup (f <$> l) i j (f x)); [done | |].
  - by rewrite list_lookup_fmap, Hi.
  - by rewrite list_lookup_fmap, Hj, Heq.
Qed.

Lemma called_elem answer items x : x ∈ called answer items → x ∈ items.
Proof.
  induction items as [|item items IH]; [done |]. cbn.
  intros [-> | Hx]%elem_of_cons; [left |]. right.
  destruct (resolves _); [by apply IH | by apply elem_of_nil in Hx].
Qed.

Lemma deletions_elem items sourceId :
  deleteKnowledgeItem sourceId ∈ deletions items
  ↔ sourceId ∈ Item.source_id <$> items.
Proof.
  unfold deletions. rewrite !list_elem_of_fmap. split.
  - intros (item & [= ->] & Hitem). by exists item.
  - intros (item & -> & Hitem). by exists item.
Qed.

(** X22: The delete button of a group whose name is not plain (it contains an
    underscore, a tab, two spaces in a row) never deletes the group.  When
    no group carries the name its id is read as, nothing happens at all: no
    call, no toast.  When source ids are distinct, no item of the group is
    deleted or asked to be deleted in any case: the button acts on the group
    that carries the other name. *)
Theorem handleDeleteItem_group_name_not_plain l g answer :
  g ∈ groupedItems l →
  ¬ plain (Group.title g) →
  let l' := handleDeleteItem (Group.id g) answer l in
  ((∀ g', g' ∈ groupedItems l → Group.title g' ≠ group_name_of (Group.id g)) →
   l' = l) ∧
  (NoDup (Item.source_id <$> knowledgeItems l) →
   ∀ item, item ∈ Group.items g →
           item ∈ knowledgeItems l' ∧
           ∃ new, requests l' = requests l ++ new ∧
                  deleteKnowledgeItem (Item.source_id item) ∉ new).
Proof.
  intros Hg Hplain l'. subst l'.
  destruct (groupedItems_items l g Hg) as [Hitems Hid].
  assert (group_name_of (Group.id g) ≠ Group.title g) as Hname.
  { rewrite Hid. by intros ?%group_name_of_plain. }
  assert (startsWith (Group.id g) "group_" = true) as Hstarts.
  { rewrite Hid. apply startsWith_group_id. }
  assert (∀ item, item ∈ Group.items g →
                  item ∈ knowledgeItems l ∧ group_of item = Some (Group.title g))
    as Hown.
  { intros item. rewrite Hitems.
    intros [Hn (Hitem & _)%filteredItems_elem]%list_elem_of_filter. done. }
  destruct (list_find (λ g', Group.title g' = group_name_of (Group.id g))
              (groupedItems l)) as [[i g']|] eqn:Hfind.
  - pose proof Hfind as (Hi & Htitle & _)%list_find_Some.
    assert (g' ∈ groupedItems l) as Hg' by (by eapply list_elem_of_lookup_2).
    split; [intros Hnone; by destruct (Hnone g' Hg') |].
    intros Hnd item Hitem. destruct (Hown item Hitem) as [Hlisted Hgroup].
    assert (Item.source_id item ∉ Item.source_id <$> Group.items g') as Hother.
    { intros (item' & Heq & Hitem')%list_elem_of_fmap.
      destruct (groupedItems_items l g' Hg') as [Hitems' _].
      rewrite Hitems' in Hitem'.
      apply list_elem_of_filter in Hitem' as [Hn (Hlisted' & _)%filteredItems_elem].
      assert (item = item') as <-
        by (by apply (NoDup_fmap_eq Item.source_id (knowledgeItems l))).
      congruence. }
    rewrite (handleDeleteItem_found _ _ _ i g' Hstarts Hfind).
    destruct (all_resolve answer (Group.items g')); cbn.
    + split; [by apply list_elem_of_filter |].
      eexists. split; [by rewrite <- app_assoc |].
      intros [Hin%deletions_elem | Hin%list_elem_of_singleton]%elem_of_app;
        done.
    + split; [done |].
      eexists. split; [by rewrite <- app_assoc |].
      intros [Hin%deletions_elem | Hin%list_elem_of_singleton]%elem_of_app;
        [| done].
      apply Hother. apply list_elem_of_fmap in Hin as (x & -> & Hx).
      apply list_elem_of_fmap_2. by apply called_elem in Hx.
  - assert (handleDeleteItem (Group.id g) answer l = l) as ->.
    { unfold handleDeleteItem. rewrite Hstarts. cbv zeta. by rewrite Hfind. }
    split; [done |]. intros _ item Hitem. split; [by apply Hown |].
    exists []. split; [by rewrite app_nil_r | apply not_elem_of_nil].
Qed.

Lemma handleDeleteItem_group_name_not_plain_witness :
  my_notes_group ∈ groupedItems docs_library ∧
  ¬ plain (Group.title my_notes_group) ∧
  handleDeleteItem (Group.id my_notes_group) accepts docs_library = docs_library.
Proof.
  assert (my_notes_group ∈ groupedItems docs_library) as H1.
  { vm_compute. right. left. }
  assert (¬ plain (Group.title my_notes_group)) as H2 by done.
  split_and!; [done | done |].
  apply (handleDeleteItem_group_name_not_plain docs_library my_notes_group
           accepts H1 H2).
  intros g' Hg'. vm_compute in Hg'.
  repeat (apply elem_of_cons in Hg' as [-> | Hg']; [by vm_compute |]).
  by apply elem_of_nil in Hg'.
Defined.

(** X23: When the service rejects the deletion of one item of a group, the
    deletions stop there and the list is left as it was: the items before
    the rejected one are deleted at the service and still listed, the items
    after it are not asked about, and the toast reports a failure. *)
Theorem handleDeleteItem_group_partial_failure l g answer before bad after :
  g ∈ groupedItems l →
  plain (Group.title g) →
  Group.items g = before ++ bad :: after →
  (∀ item, item ∈ before → resolves (answer (Item.source_id item)) = true) →
  answer (Item.source_id bad) = Rejects →
  let l' := handleDeleteItem (Group.id g) answer l in
  requests l'
  = requests l ++ deletions (before ++ [bad])
               ++ [toast "Failed to delete item" "error"] ∧
  knowledgeItems l' = knowledgeItems l ∧
  (∀ item, item ∈ before → item ∈ knowledgeItems l').
Proof.
  intros Hg Hplain Hsplit Hbefore%all_resolve_spec Hbad l'. subst l'.
  destruct (groupedItems_items l g Hg) as [Hitems Hid].
  destruct (groupedItems_find l g Hg) as [i Hfind].
  assert (group_name_of (Group.id g) = Group.title g) as Hname.
  { rewrite Hid. by apply group_name_of_plain. }
  destruct (called_until answer before bad after Hbefore Hbad) as [Hcalled Hall].
  rewrite (handleDeleteItem_found _ _ _ i g).
  - rewrite Hsplit, Hall, Hcalled. cbn. split_and!.
    + by rewrite <- app_assoc.
    + done.
    + intros item Hitem.
      assert (item ∈ Group.items g) as Hin.
      { rewrite Hsplit. apply elem_of_app. by left. }
      rewrite Hitems in Hin.
      by apply list_elem_of_filter in Hin as [_ (? & _)%filteredItems_elem].
  - rewrite Hid. apply startsWith_group_id.
  - by rewrite Hname.
Qed.

Lemma handleDeleteItem_group_partial_failure_witness :
  api_docs_group ∈ groupedItems docs_library ∧
  plain (Group.title api_docs_group) ∧
  knowledgeItems (handleDeleteItem (Group.id api_docs_group) (rejects "src-c")
                    docs_library)
  = knowledgeItems docs_library.
Proof.
  assert (api_docs_group ∈ groupedItems docs_library) as H1.
  { vm_compute. left. }
  assert (plain (Group.title api_docs_group)) as H2 by reflexivity.
  assert (Group.items api_docs_group
          = [docs_item "a" (Some "API docs")] ++ docs_item "c" (Some "API docs") :: [])
    as H3 by reflexivity.
  assert (∀ item, item ∈ [docs_item "a" (Some "API docs")] →
                  resolves (rejects "src-c" (Item.source_id item)) = true) as H4.
  { by intros item ->%list_elem_of_singleton. }
  assert (rejects "src-c" (Item.source_id (docs_item "c" (Some "API docs")))
          = Rejects) as H5 by reflexivity.
  split_and!; [done | done |].
  apply (handleDeleteItem_group_partial_failure docs_library api_docs_group
           (rejects "src-c") _ _ _ H1 H2 H3 H4 H5).
Defined.

(** X24: The delete button of an item acts by its source id: the service is
    asked once, and when it accepts every item with this source id leaves
    the list and the toast shows the message of the answer, or "Item
    deleted" when it has none; when it rejects, the list is left as it was.
    A source id that starts with "group_" is taken for a group: in the table
    view, where there are no groups, the button then does nothing at all. *)
Theorem handleDeleteItem_single l sourceId answer :
  (startsWith sourceId "group_" = false →
   let l' := handleDeleteItem sourceId answer l in
   (∀ result, answer sourceId = Resolves result →
      knowledgeItems l'
      = filter (λ item, Item.source_id item ≠ sourceId) (knowledgeItems l) ∧
      requests l'
      = requests l ++ [deleteKnowledgeItem sourceId;
                       toast (default "Item deleted" (truthy result)) "success"]) ∧
   (answer sourceId = Rejects →
      knowledgeItems l' = knowledgeItems l ∧
      requests l'
      = requests l ++ [deleteKnowledgeItem sourceId;
                       toast "Failed to delete item" "error"])) ∧
  (startsWith sourceId "group_" = true → viewMode l = table →
   handleDeleteItem sourceId answer l = l).
Proof.
  split.
  - intros Hstarts l'. subst l'. unfold handleDeleteItem. rewrite Hstarts.
    cbv zeta. split.
    + intros result ->. cbn. by rewrite <- app_assoc.
    + intros ->. cbn. by rewrite <- app_assoc.
  - intros Hstarts Htable. unfold handleDeleteItem, groupedItems.
    by rewrite Hstarts, Htable.
Qed.


(** ** Selection *)

Lemma Set_add_elem x s y : y ∈ Set_add x s ↔ y ∈ s ∨ y = x.
Proof.
  unfold Set_add, Set_has. case_bool_decide.
  - split; [by left | by intros [?| ->]].
  - by rewrite elem_of_app, list_elem_of_singleton.
Qed.

Lemma Set_add_NoDup x s : NoDup s → NoDup (Set_add x s).
Proof.
  intros Hnd. unfold Set_add, Set_has. case_bool_decide; [done |].
  apply NoDup_app. split_and!; [done | | apply NoDup_singleton].
  by intros y Hy ->%list_elem_of_singleton.
Qed.

Lemma Set_delete_elem x s y : y ∈ Set_delete x s ↔ y ∈ s ∧ y ≠ x.
Proof. unfold Set_delete. rewrite list_elem_of_filter. tauto. Qed.

Lemma Set_delete_NoDup x s : NoDup s → NoDup (Set_delete x s).
Proof. apply NoDup_filter. Qed.

Lemma new_Set_elem xs y : y ∈ new_Set xs ↔ y ∈ xs.
Proof.
  unfold new_Set. induction xs as [|x xs IH] using rev_ind.
  - done.
  - rewrite foldl_snoc, Set_add_elem, IH, elem_of_app, list_elem_of_singleton.
    done.
Qed.

Lemma new_Set_NoDup xs : NoDup (new_Set xs).
Proof.
  unfold new_Set. induction xs as [|x xs IH] using rev_ind.
  - apply NoDup_nil_2.
  - rewrite foldl_snoc. by apply Set_add_NoDup.
Qed.

(** A click without a range. *)
Lemma toggleItemSelection_toggled itemId index shiftKey ctrlKey metaKey l :
  shiftKey = false ∨ lastSelectedIndex l = None →
  toggleItemSelection itemId index shiftKey ctrlKey metaKey l
  = set_lastSelectedIndex (Some index)
      (set_selectedItems
         (if Set_has itemId (selectedItems l)
          then Set_delete itemId (selectedItems l)
          else Set_add itemId (selectedItems l)) l).
Proof.
  unfold toggleItemSelection. cbv zeta.
  intros [-> | ->]; [| destruct shiftKey]; by destruct (ctrlKey || metaKey).
Qed.

Lemma toggled_elem itemId s x :
  x ∈ (if Set_has itemId s then Set_delete itemId s else Set_add itemId s)
  ↔ if decide (x = itemId) then x ∉ s else x ∈ s.
Proof.
  unfold Set_has. case_bool_decide as Hin.
  - rewrite Set_delete_elem. destruct (decide (x = itemId)) as [-> |]; tauto.
  - rewrite Set_add_elem. destruct (decide (x = itemId)) as [-> |]; tauto.
Qed.

(** X25: A click on a card without a range (no shift key, or nothing clicked
    before) toggles the card: its id is selected afterwards exactly when it
    was not before, no other id changes, the selection stays duplicate-free
    and the position of the card is remembered; a second such click gives
    the selection back. *)
Theorem toggleItemSelection_click itemId index shiftKey ctrlKey metaKey l :
  shiftKey = false ∨ lastSelectedIndex l = None →
  let l' := toggleItemSelection itemId index shiftKey ctrlKey metaKey l in
  (itemId ∈ selectedItems l' ↔ itemId ∉ selectedItems l) ∧
  (∀ x, x ≠ itemId → (x ∈ selectedItems l' ↔ x ∈ selectedItems l)) ∧
  (NoDup (selectedItems l) → NoDup (selectedItems l')) ∧
  lastSelectedIndex l' = Some index ∧
  (∀ index' ctrlKey' metaKey' x,
     x ∈ selectedItems
           (toggleItemSelection itemId index' false ctrlKey' metaKey' l')
     ↔ x ∈ selectedItems l).
Proof.
  intros H l'. subst l'. rewrite (toggleItemSelection_toggled _ _ _ _ _ _ H).
  cbn [selectedItems lastSelectedIndex set_selectedItems set_lastSelectedIndex].
  split_and!.
  - by rewrite toggled_elem, decide_True.
  - intros x Hne. by rewrite toggled_elem, decide_False.
  - intros Hnd. destruct (Set_has _ _);
      [by apply Set_delete_NoDup | by apply Set_add_NoDup].
  - done.
  - intros index' ctrlKey' metaKey' x.
    rewrite toggleItemSelection_toggled by (by left).
    cbn [selectedItems lastSelectedIndex set_selectedItems set_lastSelectedIndex].
    rewrite toggled_elem. destruct (decide (x = itemId)) as [-> | Hne].
    + rewrite toggled_elem, decide_True by done.
      destruct (decide (itemId ∈ selectedItems l)); tauto.
    + by rewrite toggled_elem, decide_False.
Qed.

Lemma toggleItemSelection_click_witness :
  (false = false ∨ lastSelectedIndex docs_library = None) ∧
  "a" ∈ selectedItems (toggleItemSelection "a" 0 false false false docs_library).
Proof.
  assert (false = false ∨ lastSelectedIndex docs_library = None) as H by (by left).
  split; [done |].
  destruct (toggleItemSelection_click "a" 0 false false false docs_library H)
    as (Hiff & _).
  apply Hiff, not_elem_of_nil.
Defined.

Lemma add_range_elem (items : list KnowledgeItem) (positions : list nat) s x :
  x ∈ foldl (λ s i, match items !! i with
                    | Some item => Set_add (Item.id item) s
                    | None => s
                    end) s positions
  ↔ x ∈ s ∨ ∃ i item, i ∈ positions ∧ items !! i = Some item ∧ Item.id item = x.
Proof.
  induction positions as [|i positions IH] using rev_ind.
  - cbn. split; [by left |]. intros [? | (? & ? & ?%elem_of_nil & _)]; done.
  - rewrite foldl_snoc. destruct (items !! i) as [item|] eqn:Hi.
    + rewrite Set_add_elem, IH. split.
      * intros [[? | (j & y & Hj & Hy & Hx)] | ->].
        -- by left.
        -- right. exists j, y. split_and!; [| done | done].
           apply elem_of_app. by left.
        -- right. exists i, item. split_and!; [| done | done].
           apply elem_of_app. right. left.
      * intros [? | (j & y & [Hj | ->%list_elem_of_singleton]%elem_of_app
                     & Hy & Hx)].
        -- by left; left.
        -- left. right. by exists j, y.
        -- right. congruence.
    + rewrite IH. split.
      * intros [? | (j & y & Hj & Hy & Hx)]; [by left |].
        right. exists j, y. split_and!; [| done | done].
        apply elem_of_app. by left.
      * intros [? | (j & y & [Hj | ->%list_elem_of_singleton]%elem_of_app
                     & Hy & Hx)]; [by left | | congruence].
        right. by exists j, y.
Qed.

Lemma add_range_NoDup (items : list KnowledgeItem) (positions : list nat) s :
  NoDup s →
  NoDup (foldl (λ s i, match items !! i with
                       | Some item => Set_add (Item.id item) s
                       | None => s
                       end) s positions).
Proof.
  intros Hnd. induction positions as [|i positions IH] using rev_ind; [done |].
  rewrite foldl_snoc. destruct (items !! i); [by apply Set_add_NoDup | done].
Qed.

(** X26: A click with the shift key after an earlier click adds a range and
    removes nothing: selected afterwards are the ids selected before and the
    ids of the shown items from the earlier position to the clicked one,
    both included, in the order of the filtered list; the id of the clicked
    card itself plays no part.  The clicked position is remembered.  When no
    shown item is grouped, these are the cards between the two clicks. *)
Theorem toggleItemSelection_range itemId index last ctrlKey metaKey l :
  lastSelectedIndex l = Some last →
  let l' := toggleItemSelection itemId index true ctrlKey metaKey l in
  let first := Nat.min last index in
  let final := Nat.max last index in
  (∀ x, x ∈ selectedItems l' ↔ x ∈ selectedItems l ∨ in_range l first final x) ∧
  (NoDup (selectedItems l) → NoDup (selectedItems l')) ∧
  lastSelectedIndex l' = Some index ∧
  (ungroupedItems l = filteredItems l →
   ∀ i card, (first ≤ i ≤ final)%nat → ungroupedItems l !! i = Some card →
             Item.id card ∈ selectedItems l').
Proof.
  intros Hlast l' first final.
  assert (∀ x, x ∈ selectedItems l'
               ↔ x ∈ selectedItems l ∨ in_range l first final x) as Hrange.
  { intros x. subst l'. unfold toggleItemSelection. rewrite Hlast. cbv zeta.
    cbn [selectedItems lastSelectedIndex set_selectedItems set_lastSelectedIndex].
    rewrite add_range_elem. unfold in_range. fold first final.
    split; (intros [? | (i & item & Hi & Hitem & Hx)]; [by left | right]);
      exists i, item; (split; [| by split]).
    - apply elem_of_seq in Hi. lia.
    - apply elem_of_seq. lia. }
  split_and!.
  - done.
  - intros Hnd. subst l'. unfold toggleItemSelection. rewrite Hlast. cbv zeta.
    by apply add_range_NoDup.
  - done.
  - intros Hcards i card Hi Hcard. apply Hrange. right.
    exists i, card. by rewrite <- Hcards.
Qed.

Lemma toggleItemSelection_range_witness :
  lastSelectedIndex docs_selection = Some 0%nat ∧
  "c" ∈ selectedItems (toggleItemSelection "d" 2 true false false docs_selection).
Proof.
  assert (lastSelectedIndex docs_selection = Some 0%nat) as H by reflexivity.
  split; [done |].
  destruct (toggleItemSelection_range "d" 2 0 false false docs_selection H)
    as (Hrange & _).
  apply Hrange. right. exists 2%nat, (docs_item "c" (Some "API docs")).
  split_and!; [cbn; lia | cbn; lia | reflexivity | reflexivity].
Defined.


Lemma foldl_request rs l :
  foldl (λ q r, request r q) l rs = requested rs l.
Proof.
  induction rs as [|r rs IH] using rev_ind.
  - by rewrite requested_nil.
  - by rewrite foldl_snoc, IH, request_requested.
Qed.

Lemma foldl_deletions (ids : list string) l :
  foldl (λ q itemId, request (deleteKnowledgeItem itemId) q) l ids
  = requested (deleteKnowledgeItem <$> ids) l.
Proof.
  rewrite <- foldl_request. by rewrite foldl_fmap.
Qed.

Lemma forallb_resolves (answer : string → ApiResult (option string)) ids :
  forallb (λ itemId, resolves (answer itemId)) ids = true
  ↔ ∀ itemId, itemId ∈ ids → resolves (answer itemId) = true.
Proof.
  rewrite forallb_forall. split.
  - intros H itemId Hin. apply H. by apply list_elem_of_In.
  - intros H itemId Hin. apply H. by apply list_elem_of_In.
Qed.

(** X27: Deleting the selection asks first; without the confirmation nothing
    else happens.  Confirmed, the service is asked to delete every selected
    id, all of them whatever the answers.  When all deletions are accepted,
    the items with a selected id leave the list, the selection is emptied
    and the selection mode left; when one is rejected, the list, the
    selection and the mode stay as they were and the toast reports a
    failure, although the other deletions were made. *)
Theorem deleteSelectedItems_outcomes confirmed answer l :
  selectedItems l ≠ [] →
  let l' := deleteSelectedItems confirmed answer l in
  let count := length (selectedItems l) in
  let calls := deleteKnowledgeItem <$> selectedItems l in
  (confirmed = false → l' = request (delete_question count) l) ∧
  (confirmed = true →
   (∀ itemId, itemId ∈ selectedItems l → resolves (answer itemId) = true) →
   requests l'
   = requests l ++ delete_question count :: calls
     ++ [toast ("Successfully deleted " +:+ pretty count +:+ " item"
                +:+ plural count) "success"] ∧
   knowledgeItems l'
   = filter (λ item, Item.id item ∉ selectedItems l) (knowledgeItems l) ∧
   selectedItems l' = [] ∧
   isSelectionMode l' = false) ∧
  (confirmed = true →
   (∃ itemId, itemId ∈ selectedItems l ∧ answer itemId = Rejects) →
   requests l'
   = requests l ++ delete_question count :: calls
     ++ [toast "Failed to delete some items" "error"] ∧
   knowledgeItems l' = knowledgeItems l ∧
   selectedItems l' = selectedItems l ∧
   isSelectionMode l' = isSelectionMode l).
Proof.
  intros Hselected l' count calls. subst l'. unfold deleteSelectedItems.
  rewrite bool_decide_false
    by (by destruct (selectedItems l)).
  cbv zeta. fold count. fold (delete_question count).
  rewrite foldl_deletions. fold calls.
  split_and!.
  - by intros ->.
  - intros -> Hall. apply forallb_resolves in Hall as ->.
    cbn. split_and!; [by rewrite <- !app_assoc | | done | done].
    apply list_filter_iff. intros item. unfold Set_has.
    by rewrite bool_decide_eq_false.
  - intros -> (itemId & Hin & Hrejects).
    assert (forallb (λ itemId, resolves (answer itemId)) (selectedItems l)
            = false) as ->.
    { apply not_true_is_false. intros Hall.
      rewrite forallb_resolves in Hall. specialize (Hall itemId Hin).
      by rewrite Hrejects in Hall. }
    cbn. split_and!; [by rewrite <- !app_assoc | done | done | done].
Qed.

Lemma deleteSelectedItems_outcomes_witness :
  selectedItems docs_selection ≠ [] ∧
  knowledgeItems (deleteSelectedItems true accepts docs_selection)
  = [docs_item "c" (Some "API docs"); docs_item "d" (Some "my_notes")].
Proof.
  assert (selectedItems docs_selection ≠ []) as H by done.
  split; [done |].
  destruct (deleteSelectedItems_outcomes true accepts docs_selection H)
    as (_ & Hall & _).
  destruct (Hall eq_refl) as (_ & -> & _); [done |].
  by vm_compute.
Defined.

(** X28: The keyboard shortcuts act in the selection mode only.  There,
    Escape leaves the mode and empties the selection, and Ctrl+A or Cmd+A
    makes the selection the ids of the shown items, each once: an id that
    was selected and is not shown is selected no longer.  Escape does what
    [deselectAll] does, and leaves the mode. *)
Theorem handleKeyDown_shortcuts ctrlKey metaKey key l :
  (isSelectionMode l = false → handleKeyDown ctrlKey metaKey key l = l) ∧
  (isSelectionMode l = true → key = "Escape" →
   let l' := handleKeyDown ctrlKey metaKey key l in
   l' = set_isSelectionMode false (deselectAll l) ∧
   isSelectionMode l' = false ∧ selectedItems l' = [] ∧
   lastSelectedIndex l' = None ∧ knowledgeItems l' = knowledgeItems l) ∧
  (isSelectionMode l = true → key = "a" → ctrlKey || metaKey = true →
   let l' := handleKeyDown ctrlKey metaKey key l in
   (∀ x, x ∈ selectedItems l'
         ↔ ∃ item, item ∈ filteredItems l ∧ Item.id item = x) ∧
   NoDup (selectedItems l') ∧
   isSelectionMode l' = true ∧
   lastSelectedIndex l' = lastSelectedIndex l).
Proof.
  unfold handleKeyDown. split_and!.
  - intros ->. by rewrite !andb_false_r.
  - intros Hmode ->. cbv zeta. rewrite Hmode, andb_true_r.
    rewrite (bool_decide_eq_false_2 ("Escape" = "a")) by done.
    rewrite andb_false_r. cbn. unfold toggleSelectionMode. by rewrite Hmode.
  - intros Hmode -> Hkeys. cbv zeta. rewrite Hmode, Hkeys.
    rewrite (bool_decide_eq_true_2 ("a" = "a")) by done.
    rewrite (bool_decide_eq_false_2 ("a" = "Escape")) by done.
    cbn [andb]. unfold selectAll.
    cbn [selectedItems set_selectedItems isSelectionMode lastSelectedIndex].
    split_and!; [| apply new_Set_NoDup | done | done].
    intros x. rewrite new_Set_elem, list_elem_of_fmap. split.
    + intros (item & -> & Hitem). by exists item.
    + intros (item & Hitem & <-). by exists item.
Qed.

(** ** Reloading *)

(** X29: A failed reload empties the list and keeps the selection: nothing is
    shown afterwards, in no view, the loading flag is cleared and one toast
    reports the failure; yet every id selected before is selected still, and
    deleting the selection asks the service to delete each of them. *)
Theorem failed_reload_keeps_selection answer l :
  selectedItems l ≠ [] →
  let l1 := loadKnowledgeItems_list Rejects l in
  filteredItems l1 = [] ∧ groupedItems l1 = [] ∧ ungroupedItems l1 = [] ∧
  loading l1 = false ∧
  totalItems l1 = totalItems l ∧
  requests l1 = requests l ++ [getKnowledgeItems;
                               toast "Failed to load knowledge items" "error"] ∧
  selectedItems l1 = selectedItems l ∧
  (∀ itemId, itemId ∈ selectedItems l →
             deleteKnowledgeItem itemId
             ∈ requests (deleteSelectedItems true answer l1)).
Proof.
  intros Hselected l1. subst l1. unfold loadKnowledgeItems_list. cbv zeta.
  set (l1 := set_loading false _).
  assert (knowledgeItems l1 = []) as Hitems by done.
  assert (filteredItems l1 = []) as Hshown.
  { unfold filteredItems. by rewrite Hitems. }
  split_and!.
  - done.
  - unfold groupedItems. rewrite Hshown. by destruct (viewMode l1).
  - unfold ungroupedItems. rewrite Hshown. by destruct (viewMode l1).
  - done.
  - done.
  - cbn. by rewrite <- app_assoc.
  - done.
  - intros itemId Hin. unfold deleteSelectedItems.
    change (selectedItems l1) with (selectedItems l).
    rewrite bool_decide_false by (by destruct (selectedItems l)).
    cbv zeta. cbn [negb]. rewrite foldl_deletions.
    assert (deleteKnowledgeItem itemId
            ∈ requests (requested (deleteKnowledgeItem <$> selectedItems l)
                          (request (window_confirm
                             ("Are you sure you want to delete "
                              +:+ pretty (length (selectedItems l))
                              +:+ " selected item"
                              +:+ plural (length (selectedItems l)) +:+ "?"))
                             l1))) as Hcalled.
    { cbn. apply elem_of_app. right. by apply list_elem_of_fmap_2. }
    destruct (forallb _ _); cbn; apply elem_of_app; by left.
Qed.

Lemma failed_reload_keeps_selection_witness :
  selectedItems docs_selection ≠ [] ∧
  filteredItems (loadKnowledgeItems_list Rejects docs_selection) = [].
Proof.
  assert (selectedItems docs_selection ≠ []) as H by done.
  split; [done |].
  apply (failed_reload_keeps_selection accepts docs_selection H).
Defined.
